(** * Order system service: stock reservation, cancellation and the
      cache-aside product read path

    A shallow embedding of [src/services/OrderService.ts]
    ([OrderService.createOrder], [OrderService.cancelOrder]) and of
    [ProductService.getProductById], together with the parts of
    [config/rabbitmq.ts] they call.

    The services are asynchronous code over three external stores (the
    relational store behind TypeORM, Redis, the RabbitMQ channel).  Every
    [await] of the source, and every call of the channel of amqplib, is one
    command of the type [Cmd]; a service method is a program [Prog] over
    these commands; [handle] gives each command its meaning on a [World],
    [run] executes one request from start to end, and [run_schedule]
    interleaves several requests at their [await]s. *)

From stdpp Require Import gmap strings list fin_maps pretty.
From Stdlib Require Import ZArith Lia Ascii.

Local Open Scope string_scope.
Local Open Scope Z_scope.
Local Open Scope list_scope.

(** ** Entities *)

(** [entities/Order.ts], [OrderStatus]. *)
Inductive OrderStatus := PENDING | CONFIRMED | FAILED | CANCELLED | COMPLETED.

(** [entities/EventLog.ts], [EventType]. *)
Inductive EventType :=
  | ORDER_CREATED | STOCK_RESERVED | PAYMENT_PROCESSED
  | ORDER_CONFIRMED | ORDER_FAILED | ORDER_CANCELLED.

Global Instance OrderStatus_eq_dec : EqDecision OrderStatus.
Proof. solve_decision. Defined.

Global Instance EventType_eq_dec : EqDecision EventType.
Proof. solve_decision. Defined.

(** [entities/Product.ts].  [stock] and [reservedStock] are [int] columns;
    [price] is a [decimal] column, whose JavaScript arithmetic is kept
    abstract in the type [num] (see [JsRuntime]). *)
Record Product {num : Type} := mkProduct {
  p_id : string;
  p_name : string;
  p_price : num;
  p_stock : Z;
  p_reservedStock : Z;
  p_isActive : bool;
}.
Global Arguments Product : clear implicits.
Global Arguments mkProduct {num}.

(** Modelled from the spec: [entities/User.ts] is not part of the sources;
    the workflow only asks whether a user with a given id exists. *)
Record User := mkUser { u_id : string }.

(** [entities/Order.ts]. *)
Record Order {num : Type} := mkOrder {
  o_id : string;
  o_userId : string;
  o_status : OrderStatus;
  o_totalPrice : num;
  o_referenceNo : string;
}.
Global Arguments Order : clear implicits.
Global Arguments mkOrder {num}.

(** Modelled from the spec: [entities/OrderItem.ts] is not part of the
    sources; the fields are those [createOrder] fills in. *)
Record OrderItem {num : Type} := mkOrderItem {
  oi_id : string;
  oi_orderId : string;
  oi_productId : string;
  oi_quantity : Z;
  oi_unitPrice : num;
  oi_totalPrice : num;
}.
Global Arguments OrderItem : clear implicits.
Global Arguments mkOrderItem {num}.

(** One requested line of [createOrder]'s [data.items]. *)
Record ItemReq := mkItemReq { productId : string; quantity : Z }.

(** The [payload] column of an event log is [JSON.stringify] of one of
    three objects; the object is kept in structured form. *)
Inductive Payload {num : Type} :=
  | PayloadCreated (items : list ItemReq) (totalPrice : num)
  | PayloadStatus (oldStatus newStatus : OrderStatus)
  | PayloadCancelled (cancelledAt : Z).
Global Arguments Payload : clear implicits.

(** [entities/EventLog.ts]. *)
Record EventLog {num : Type} := mkEventLog {
  e_id : string;
  e_orderId : string;
  e_eventType : EventType;
  e_payload : Payload num;
}.
Global Arguments EventLog : clear implicits.
Global Arguments mkEventLog {num}.

(** The body of the [order.created] message of [createOrder]. *)
Record OrderCreatedMsg {num : Type} := mkOrderCreatedMsg {
  m_orderId : string;
  m_userId : string;
  m_referenceNo : string;
  m_totalPrice : num;
  m_items : list ItemReq;
  m_timestamp : Z;
}.
Global Arguments OrderCreatedMsg : clear implicits.
Global Arguments mkOrderCreatedMsg {num}.

(** A message handed to [publishToExchange]. *)
Record Published {num : Type} := mkPublished {
  pub_exchange : string;
  pub_routingKey : string;
  pub_payload : OrderCreatedMsg num;
  pub_type : string;
}.
Global Arguments Published : clear implicits.
Global Arguments mkPublished {num}.

(** ** JavaScript runtime

    What the services use of the JavaScript runtime and is not modelled
    bit by bit: the arithmetic of [number] on prices ([0], [+], and
    [price * quantity]) and [JSON.stringify] / [JSON.parse] on a product
    ([None] stands for the [SyntaxError] of [JSON.parse]). *)
Class JsRuntime (num : Type) := {
  nzero : num;
  nadd : num → num → num;
  nmul : num → Z → num;
  JSON_stringify : Product num → string;
  JSON_parse : string → option (Product num);
}.

(** ** Errors

    Every [throw new Error(...)] of the services, with the values its
    message is built from; [message] gives the text. [EDriver] is an error
    raised by a client library (store or Redis unreachable, a constraint
    refused by the store). *)
Inductive Error :=
  | EUserNotFound
  | ELockNotAcquired (productId : string)
  | EProductNotFound (productId : string)
  | EInsufficientStock (name : string) (available requested : Z)
  | EAlreadyCancelled
  | EChannelNotInitialized
  | ENullProduct
  | EJsonSyntax
  | EDriver.

Global Instance Error_eq_dec : EqDecision Error.
Proof. solve_decision. Defined.

Definition message (e : Error) : string :=
  match e with
  | EUserNotFound => "User not found"
  | ELockNotAcquired pid =>
      "Cannot acquire lock for product " +:+ pid +:+ ". Please try again."
  | EProductNotFound pid => "Product not found: " +:+ pid
  | EInsufficientStock name available requested =>
      "Insufficient stock for " +:+ name +:+ ". Available: " +:+ pretty available
      +:+ ", Requested: " +:+ pretty requested
  | EAlreadyCancelled => "Order already cancelled"
  | EChannelNotInitialized =>
      "RabbitMQ channel is not initialized. Call initRabbitMQ() first."
  | ENullProduct => "Cannot read properties of null (reading 'price')"
  | EJsonSyntax => "Unexpected token in JSON"
  | EDriver => "driver error"
  end.

Inductive Result (A : Type) := Ok (a : A) | Err (e : Error).
Global Arguments Ok {A}.
Global Arguments Err {A}.

(** ** Stores *)

(** The relational store: one finite map per table, keyed by primary key. *)
Record Db {num : Type} := mkDb {
  users : gset string;
  products : gmap string (Product num);
  orders : gmap string (Order num);
  orderItems : gmap string (OrderItem num);
  eventLogs : gmap string (EventLog num);
}.
Global Arguments Db : clear implicits.
Global Arguments mkDb {num}.

(** A Redis key holds a string and, when set with [EX] or [SETEX], the
    number of seconds it was given to live. *)
Record RedisEntry := mkRedisEntry { r_value : string; r_ttl : option Z }.

Global Instance RedisEntry_eq_dec : EqDecision RedisEntry.
Proof. solve_decision. Defined.

(** ** Commands: the [await]s of the services *)

Inductive Cmd {num : Type} :=
  (* redisClient *)
  | RedisSet (key value : string) (EX : option Z) (NX : bool)
  | RedisGet (key : string)
  | RedisSetEx (key : string) (seconds : Z) (value : string)
  | RedisDel (key : string)
  (* repositories of AppDataSource: every statement commits on its own *)
  | UserFindOne (id : string)
  | ProductFindOne (id : string)
  (* queryRunner and queryRunner.manager *)
  | QrConnect
  | QrStartTransaction
  | QrCommitTransaction
  | QrRollbackTransaction
  | QrRelease
  | QrFindProduct (id : string)
  | QrFindOrderWithItems (id : string)
  | QrSaveProduct (p : Product num)
  | QrSaveOrder (o : Order num)
  | QrSaveOrderItem (i : OrderItem num)
  | QrSaveEventLog (l : EventLog num)
  (* uuid, Date, console *)
  | Uuidv4
  | DateNow
  | ConsoleLog (line : string)
  | ConsoleError (line : string) (err : Error)
  (* config/rabbitmq.ts and the channel of amqplib *)
  | GetChannel
  | ChAssertExchange (exchange type : string)
  | ChPublish (m : Published num)
  | ChDrain.
Global Arguments Cmd : clear implicits.

(** What the awaited call evaluates to. *)
Definition Resp {num} (c : Cmd num) : Type :=
  match c with
  | RedisSet _ _ _ _ => bool
  | RedisGet _ => option string
  | RedisSetEx _ _ _ => unit
  | RedisDel _ => unit
  | UserFindOne _ => option User
  | ProductFindOne _ => option (Product num)
  | QrConnect | QrStartTransaction | QrCommitTransaction
  | QrRollbackTransaction | QrRelease => unit
  | QrFindProduct _ => option (Product num)
  | QrFindOrderWithItems _ => option (Order num * list (OrderItem num))
  | QrSaveProduct _ => Product num
  | QrSaveOrder _ => Order num
  | QrSaveOrderItem _ => OrderItem num
  | QrSaveEventLog _ => EventLog num
  | Uuidv4 => string
  | DateNow => Z
  | ConsoleLog _ => unit
  | ConsoleError _ _ => unit
  | GetChannel => unit
  | ChAssertExchange _ _ => unit
  | ChPublish _ => bool
  | ChDrain => unit
  end.

(** Commands that go over the network to the store or to Redis: the client
    library may throw instead of answering.  What amqplib does is told by
    an oracle of its own, [amqplib] below. *)
Definition is_io {num} (c : Cmd num) : bool :=
  match c with
  | RedisSet _ _ _ _ | RedisGet _ | RedisSetEx _ _ _ | RedisDel _
  | UserFindOne _ | ProductFindOne _
  | QrConnect | QrStartTransaction | QrCommitTransaction | QrRollbackTransaction
  | QrFindProduct _ | QrFindOrderWithItems _
  | QrSaveProduct _ | QrSaveOrder _ | QrSaveOrderItem _ | QrSaveEventLog _ => true
  | _ => false
  end.

(** ** Programs *)

(** A program either has finished (with a value or a thrown error) or awaits
    a command and continues with its outcome. *)
Inductive Prog {num : Type} (A : Type) : Type :=
  | Ret (r : Result A)
  | Vis (c : Cmd num) (k : Result (Resp c) → Prog A).
Global Arguments Prog : clear implicits.
Global Arguments Ret {num A}.
Global Arguments Vis {num A}.

Section Programs.
Context {num : Type}.

Definition ret {A} (a : A) : Prog num A := Ret (Ok a).
Definition throw {A} (e : Error) : Prog num A := Ret (Err e).

(** [await c]: a rejected promise is a thrown error. *)
Definition call (c : Cmd num) : Prog num (Resp c) := Vis c Ret.

Fixpoint bind {A B} (p : Prog num A) (f : A → Prog num B) : Prog num B :=
  match p with
  | Ret (Ok a) => f a
  | Ret (Err e) => Ret (Err e)
  | Vis c k => Vis c (λ r, bind (k r) f)
  end.

(** [try { p } catch (error) { h error }] *)
Fixpoint try_catch {A} (p : Prog num A) (h : Error → Prog num A) : Prog num A :=
  match p with
  | Ret (Ok a) => Ret (Ok a)
  | Ret (Err e) => h e
  | Vis c k => Vis c (λ r, try_catch (k r) h)
  end.

(** [try { p } finally { f }]: [f] runs however [p] ends; an error thrown
    by [f] replaces the outcome of [p]. *)
Fixpoint try_finally {A} (p : Prog num A) (f : Prog num unit) : Prog num A :=
  match p with
  | Ret r => bind f (λ _, Ret r)
  | Vis c k => Vis c (λ r, try_finally (k r) f)
  end.
End Programs.

Global Arguments bind {num A B} & p f.
Global Arguments try_catch {num A} & p h.
Global Arguments try_finally {num A} & p f.

Declare Scope prog_scope.
Delimit Scope prog_scope with prog.
Notation "x <- p ; q" := (bind p (λ x, q))
  (at level 20, p at level 100, q at level 200, only parsing) : prog_scope.

(** ** The world the services run in *)

(** What a call of amqplib does: it throws, or it answers; [ch.publish]
    answers [false] when the write buffer of the channel is full. *)
Inductive AmqpAnswer := AmqpThrows | AmqpFull | AmqpOk.

(** [faults] tells which of the coming calls of the store and of Redis
    throw instead of answering: the connection is lost, or the store
    rejects the statement, as it does for a value out of the range of its
    column ([stock], [reservedStock] and [quantity] are [int] columns, the
    prices [decimal(10,2)]) or for an id that is no uuid.  [exec] below
    tells what a command does when it does not throw, and [refused] keeps
    the calls that threw.  Every [await] settles: a call answers or
    throws. *)

Record World {num : Type} := mkWorld {
  db : Db num;                        (* committed rows *)
  txs : gmap nat (Db num);            (* rows written by each open transaction *)
  redis : gmap string RedisEntry;
  channel : bool;                     (* rabbitmq.ts: [channel] is not null *)
  published : list (Published num);
  console : list (string * option Error);
  uuid_source : nat → string;         (* the values [uuidv4()] will draw *)
  uuid_next : nat;
  clock : Z;                          (* [Date.now()] *)
  faults : list bool;                 (* which of the coming I/O calls throw *)
  trace : list (Cmd num);             (* every command issued so far *)
  amqplib : list AmqpAnswer;          (* what the coming calls of amqplib do *)
  refused : list (Cmd num);           (* the I/O calls that threw so far *)
}.
Global Arguments World : clear implicits.
Global Arguments mkWorld {num}.

Section Stores.
Context {num : Type}.
Implicit Types (w : World num) (d : Db num).

Definition with_db d w : World num :=
  mkWorld d (txs w) (redis w) (channel w) (published w) (console w)
          (uuid_source w) (uuid_next w) (clock w) (faults w) (trace w) (amqplib w) (refused w).
Definition with_txs (t : gmap nat (Db num)) w : World num :=
  mkWorld (db w) t (redis w) (channel w) (published w) (console w)
          (uuid_source w) (uuid_next w) (clock w) (faults w) (trace w) (amqplib w) (refused w).
Definition with_redis (r : gmap string RedisEntry) w : World num :=
  mkWorld (db w) (txs w) r (channel w) (published w) (console w)
          (uuid_source w) (uuid_next w) (clock w) (faults w) (trace w) (amqplib w) (refused w).
Definition with_channel (b : bool) w : World num :=
  mkWorld (db w) (txs w) (redis w) b (published w) (console w)
          (uuid_source w) (uuid_next w) (clock w) (faults w) (trace w) (amqplib w) (refused w).
Definition with_published (l : list (Published num)) w : World num :=
  mkWorld (db w) (txs w) (redis w) (channel w) l (console w)
          (uuid_source w) (uuid_next w) (clock w) (faults w) (trace w) (amqplib w) (refused w).
Definition with_console (l : list (string * option Error)) w : World num :=
  mkWorld (db w) (txs w) (redis w) (channel w) (published w) l
          (uuid_source w) (uuid_next w) (clock w) (faults w) (trace w) (amqplib w) (refused w).
Definition with_uuid_next (n : nat) w : World num :=
  mkWorld (db w) (txs w) (redis w) (channel w) (published w) (console w)
          (uuid_source w) n (clock w) (faults w) (trace w) (amqplib w) (refused w).
Definition with_faults (f : list bool) w : World num :=
  mkWorld (db w) (txs w) (redis w) (channel w) (published w) (console w)
          (uuid_source w) (uuid_next w) (clock w) f (trace w) (amqplib w) (refused w).
Definition with_trace (t : list (Cmd num)) w : World num :=
  mkWorld (db w) (txs w) (redis w) (channel w) (published w) (console w)
          (uuid_source w) (uuid_next w) (clock w) (faults w) t (amqplib w) (refused w).
Definition with_amqplib (a : list AmqpAnswer) w : World num :=
  mkWorld (db w) (txs w) (redis w) (channel w) (published w) (console w)
          (uuid_source w) (uuid_next w) (clock w) (faults w) (trace w) a (refused w).
Definition with_refused (l : list (Cmd num)) w : World num :=
  mkWorld (db w) (txs w) (redis w) (channel w) (published w) (console w)
          (uuid_source w) (uuid_next w) (clock w) (faults w) (trace w) (amqplib w) l.

(** [findOne({ where: { id } })]: the row stored under the key, if its
    [id] column is the one asked for. *)
Definition find_product (t : gmap string (Product num)) (id : string) :=
  match t !! id with
  | Some p => if decide (p_id p = id) then Some p else None
  | None => None
  end.

Definition find_order (t : gmap string (Order num)) (id : string) :=
  match t !! id with
  | Some o => if decide (o_id o = id) then Some o else None
  | None => None
  end.

(** [relations: ['items']]: the order items whose [orderId] is the order's. *)
Definition items_of (t : gmap string (OrderItem num)) (orderId : string)
  : list (OrderItem num) :=
  filter (λ i, oi_orderId i = orderId) (map_to_list t).*2.

Definition logs_of (t : gmap string (EventLog num)) (orderId : string)
  : list (EventLog num) :=
  filter (λ l, e_orderId l = orderId) (map_to_list t).*2.

Definition empty_db : Db num := mkDb ∅ ∅ ∅ ∅ ∅.

(** The rows a transaction has written, laid over the committed rows: a
    transaction reads its own writes and otherwise what is committed at
    the time of the read, and [COMMIT] makes its writes the committed rows.
    This is READ COMMITTED, the level of PostgreSQL (the store of
    [config/database.ts] unless [DB_TYPE] says otherwise) when none is
    asked for, and [startTransaction()] asks for none. *)
Definition overlay (t d : Db num) : Db num :=
  mkDb (users t ∪ users d) (products t ∪ products d) (orders t ∪ orders d)
       (orderItems t ∪ orderItems d) (eventLogs t ∪ eventLogs d).

(** What the query runner [conn] reads. *)
Definition tx_view (conn : nat) w : Db num :=
  match txs w !! conn with
  | Some t => overlay t (db w)
  | None => db w
  end.

(** A write through [queryRunner.manager]: into the open transaction of
    [conn], or directly committed when [conn] has none. *)
Definition tx_write (conn : nat) (f : Db num → Db num) w : World num :=
  match txs w !! conn with
  | Some t => with_txs (<[conn := f t]> (txs w)) w
  | None => with_db (f (db w)) w
  end.

Definition put_product (p : Product num) d : Db num :=
  mkDb (users d) (<[p_id p := p]> (products d)) (orders d) (orderItems d) (eventLogs d).
Definition put_order (o : Order num) d : Db num :=
  mkDb (users d) (products d) (<[o_id o := o]> (orders d)) (orderItems d) (eventLogs d).
Definition put_orderItem (i : OrderItem num) d : Db num :=
  mkDb (users d) (products d) (orders d) (<[oi_id i := i]> (orderItems d)) (eventLogs d).
Definition put_eventLog (l : EventLog num) d : Db num :=
  mkDb (users d) (products d) (orders d) (orderItems d) (<[e_id l := l]> (eventLogs d)).

(** The effect of a command that was not refused by the client library. *)
Definition exec (conn : nat) (c : Cmd num) w : Result (Resp c) * World num :=
  match c as c0 return Result (Resp c0) * World num with
  | RedisSet key value ex nx =>
      if nx && bool_decide (is_Some (redis w !! key))
      then (Ok false, w)
      else (Ok true, with_redis (<[key := mkRedisEntry value ex]> (redis w)) w)
  | RedisGet key => (Ok (r_value <$> redis w !! key), w)
  | RedisSetEx key seconds value =>
      (Ok tt, with_redis (<[key := mkRedisEntry value (Some seconds)]> (redis w)) w)
  | RedisDel key => (Ok tt, with_redis (delete key (redis w)) w)
  | UserFindOne id =>
      (Ok (if decide (id ∈ users (db w)) then Some (mkUser id) else None), w)
  | ProductFindOne id => (Ok (find_product (products (db w)) id), w)
  | QrConnect => (Ok tt, w)
  (* every request creates its query runner ([createQueryRunner()], line 25),
     which [conn] names: its transaction begins with no write.  What an
     earlier request left open on [conn] had no write, or its rollback was
     refused and the connection is taken to be lost with it. *)
  | QrStartTransaction => (Ok tt, with_txs (<[conn := empty_db]> (txs w)) w)
  | QrCommitTransaction =>
      (Ok tt, with_txs (delete conn (txs w)) (with_db (tx_view conn w) w))
  | QrRollbackTransaction => (Ok tt, with_txs (delete conn (txs w)) w)
  (* [release()] hands the connection back as it is: a transaction that was
     neither committed nor rolled back stays open on it *)
  | QrRelease => (Ok tt, w)
  | QrFindProduct id => (Ok (find_product (products (tx_view conn w)) id), w)
  | QrFindOrderWithItems id =>
      (Ok (o ← find_order (orders (tx_view conn w)) id;
           Some (o, items_of (orderItems (tx_view conn w)) (o_id o))), w)
  | QrSaveProduct p => (Ok p, tx_write conn (put_product p) w)
  | QrSaveOrder o => (Ok o, tx_write conn (put_order o) w)
  | QrSaveOrderItem i => (Ok i, tx_write conn (put_orderItem i) w)
  | QrSaveEventLog l => (Ok l, tx_write conn (put_eventLog l) w)
  | Uuidv4 => (Ok (uuid_source w (uuid_next w)), with_uuid_next (S (uuid_next w)) w)
  | DateNow => (Ok (clock w), w)
  | ConsoleLog line => (Ok tt, with_console (console w ++ [(line, None)]) w)
  | ConsoleError line err => (Ok tt, with_console (console w ++ [(line, Some err)]) w)
  (* [getChannel()] *)
  | GetChannel =>
      if channel w then (Ok tt, w) else (Err EChannelNotInitialized, w)
  (* [ch.assertExchange(name, type, { durable: true })] *)
  | ChAssertExchange _ _ =>
      match head (amqplib w) with
      | Some AmqpThrows => (Err EDriver, with_amqplib (tail (amqplib w)) w)
      | _ => (Ok tt, with_amqplib (tail (amqplib w)) w)
      end
  (* [ch.publish(exchange, routingKey, content, options)]: the message is
     written or buffered, and the answer tells whether the buffer has room *)
  | ChPublish m =>
      match head (amqplib w) with
      | Some AmqpThrows => (Err EDriver, with_amqplib (tail (amqplib w)) w)
      | Some AmqpFull =>
          (Ok false, with_published (published w ++ [m]) (with_amqplib (tail (amqplib w)) w))
      | _ => (Ok true, with_published (published w ++ [m]) (with_amqplib (tail (amqplib w)) w))
      end
  (* [new Promise((r) => ch.once("drain", r))]: like every [await] here, it
     settles *)
  | ChDrain => (Ok tt, w)
  end.

(** One [await].  The command is recorded; an I/O command uses up the
    next entry of [faults] and throws when that entry says so, and is then
    recorded as refused. *)
Definition faulty (c : Cmd num) w : bool :=
  is_io c && bool_decide (head (faults w) = Some true).

Definition consume (c : Cmd num) w : World num :=
  with_faults (if is_io c then tail (faults w) else faults w)
              (with_trace (trace w ++ [c]) w).

Definition refuse (c : Cmd num) w : World num := with_refused (refused w ++ [c]) w.

Definition handle (conn : nat) (c : Cmd num) w : Result (Resp c) * World num :=
  if faulty c w then (Err EDriver, refuse c (consume c w))
  else exec conn c (consume c w).

(** One request on the query runner [conn], from its first [await] to its
    return or throw, with nothing else running in between. *)
Fixpoint run {A} (conn : nat) (p : Prog num A) w : Result A * World num :=
  match p with
  | Ret r => (r, w)
  | Vis c k => run conn (k (handle conn c w).1) (handle conn c w).2
  end.

(** Several requests, request [i] on query runner [i]: [step i] lets
    request [i] run up to its next [await]. *)
Definition step {A} (i : nat) (s : list (Prog num A) * World num)
  : list (Prog num A) * World num :=
  match s.1 !! i with
  | Some (Vis c k) => (<[i := k (handle i c s.2).1]> s.1, (handle i c s.2).2)
  | _ => s
  end.

Definition run_schedule {A} (schedule : list nat) (s : list (Prog num A) * World num)
  : list (Prog num A) * World num :=
  foldl (λ s i, step i s) s schedule.
End Stores.

(** ** The services *)

Section Services.
Context {num : Type} `{!JsRuntime num}.
Local Open Scope prog_scope.

Definition STOCK_LOCK_PREFIX : string := "stock_lock:".
Definition STOCK_LOCK_TTL : Z := 30.
Definition PRODUCT_CACHE_PREFIX : string := "product:".
Definition PRODUCT_CACHE_TTL : Z := 3600.

(** [`${this.STOCK_LOCK_PREFIX}${item.productId}`] *)
Definition lockKey (productId : string) : string := STOCK_LOCK_PREFIX +:+ productId.

(** [`product:${item.productId}`] in [OrderService],
    [`${PRODUCT_CACHE_PREFIX}${productId}`] in [ProductService]. *)
Definition cacheKey (productId : string) : string := PRODUCT_CACHE_PREFIX +:+ productId.

(** [createOrder]'s argument. *)
Record CreateOrderData := mkCreateOrderData {
  userId : string;
  items : list ItemReq;
}.

(** The quantity of product [pid] asked for by a list of lines. *)
Fixpoint reserved_qty (pid : string) (items : list ItemReq) : Z :=
  match items with
  | [] => 0
  | it :: rest =>
      (if decide (productId it = pid) then quantity it else 0) + reserved_qty pid rest
  end.

(** [if (cond) { throw new Error(...) }] *)
Definition throw_if (cond : bool) (e : Error) : Prog num unit :=
  if cond then throw e else ret tt.

(** [if (!x) { throw new Error(...) }], after which [x] is not null. *)
Definition throw_unless {A} (x : option A) (e : Error) : Prog num A :=
  match x with
  | Some a => ret a
  | None => throw e
  end.

(** [product.stock -= q; product.reservedStock += q] *)
Definition reserve (q : Z) (p : Product num) : Product num :=
  mkProduct (p_id p) (p_name p) (p_price p)
            (p_stock p - q) (p_reservedStock p + q) (p_isActive p).

(** [product.stock += q; product.reservedStock -= q] *)
Definition restore (q : Z) (p : Product num) : Product num :=
  mkProduct (p_id p) (p_name p) (p_price p)
            (p_stock p + q) (p_reservedStock p - q) (p_isActive p).

(** The [try] block inside the reservation loop of [createOrder], between
    acquiring and releasing the lock (lines 54-81). *)
Definition reserveUnderLock (item : ItemReq)
    (reservations : gmap string Z) (totalPrice : num)
  : Prog num (gmap string Z * num) :=
  (* Get product with lock (using transaction) *)
  product <- call (QrFindProduct (productId item)) ;
  product <- throw_unless product (EProductNotFound (productId item)) ;
  _ <- throw_if (p_stock product <? quantity item)
         (EInsufficientStock (p_name product) (p_stock product) (quantity item)) ;
  (* Reserve stock (update in transaction) *)
  product <- call (QrSaveProduct (reserve (quantity item) product)) ;
  let reservations := <[productId item := quantity item]> reservations in
  let totalPrice := nadd totalPrice (nmul (p_price product) (quantity item)) in
  (* Invalidate product cache *)
  _ <- call (RedisDel (cacheKey (productId item))) ;
  ret (reservations, totalPrice).

(** Step 2 of [createOrder]: [for (const item of data.items)], lines 40-85. *)
Fixpoint reserveItems (items : list ItemReq)
    (reservations : gmap string Z) (totalPrice : num)
  : Prog num (gmap string Z * num) :=
  match items with
  | [] => ret (reservations, totalPrice)
  | item :: rest =>
      (* Try to acquire lock *)
      token <- call Uuidv4 ;
      locked <- call (RedisSet (lockKey (productId item)) token
                        (Some STOCK_LOCK_TTL) true) ;
      _ <- throw_if (negb locked) (ELockNotAcquired (productId item)) ;
      st <- try_finally (reserveUnderLock item reservations totalPrice)
              (* Release lock *)
              (call (RedisDel (lockKey (productId item)))) ;
      reserveItems rest st.1 st.2
  end.

(** Step 4 of [createOrder]: the second loop over [data.items],
    lines 100-116. *)
Fixpoint createOrderItems (orderId : string) (items : list ItemReq)
    (orderItems : list (OrderItem num)) : Prog num (list (OrderItem num)) :=
  match items with
  | [] => ret orderItems
  | item :: rest =>
      product <- call (QrFindProduct (productId item)) ;
      id <- call Uuidv4 ;
      product <- throw_unless product ENullProduct ;
      saved <- call (QrSaveOrderItem
                 (mkOrderItem id orderId (productId item) (quantity item)
                    (p_price product)
                    (nmul (p_price product) (quantity item)))) ;
      createOrderItems orderId rest (orderItems ++ [saved])
  end.

(** Steps 3 to 6 of [createOrder], lines 87-131: the order, its items and
    its event log are written and the transaction is committed. *)
Definition persistOrder (data : CreateOrderData) (totalPrice : num)
  : Prog num (Order num * string) :=
  (* 3. Create order *)
  now <- call DateNow ;
  u <- call Uuidv4 ;
  let referenceNo := "ORD-" +:+ pretty now +:+ "-" +:+ String.substring 0 8 u in
  id <- call Uuidv4 ;
  savedOrder <- call (QrSaveOrder
                        (mkOrder id (userId data) PENDING totalPrice referenceNo)) ;
  (* 4. Create order items *)
  orderItems <- createOrderItems (o_id savedOrder) (items data) [] ;
  (* 5. Log event *)
  id <- call Uuidv4 ;
  _ <- call (QrSaveEventLog
               (mkEventLog id (o_id savedOrder) ORDER_CREATED
                  (PayloadCreated (items data) totalPrice))) ;
  (* 6. Commit transaction *)
  _ <- call QrCommitTransaction ;
  _ <- call (ConsoleLog ("✅ Order created: " +:+ o_id savedOrder
                         +:+ " (" +:+ referenceNo +:+ ")")) ;
  ret (savedOrder, referenceNo).

(** [assertExchange] of [config/rabbitmq.ts], lines 83-90. *)
Definition assertExchange (name type : string) : Prog num unit :=
  _ <- call GetChannel ;
  call (ChAssertExchange name type).

(** [publishToExchange] of [config/rabbitmq.ts], lines 105-122:
    [getChannel()] throws when the channel is not there, [assertExchange]
    and [ch.publish] may throw, and a full buffer is waited for. *)
Definition publishToExchange (exchange routingKey : string)
    (payload : OrderCreatedMsg num) (type : string) : Prog num unit :=
  _ <- call GetChannel ;
  _ <- assertExchange exchange type ;
  ok <- call (ChPublish (mkPublished exchange routingKey payload type)) ;
  if ok : bool then ret tt else call ChDrain.

(** Step 7 of [createOrder], lines 133-147. *)
Definition publishOrderCreated (data : CreateOrderData) (savedOrder : Order num)
    (referenceNo : string) (totalPrice : num) : Prog num unit :=
  try_catch
    (timestamp <- call DateNow ;
     _ <- publishToExchange "order_events" "order.created"
            (mkOrderCreatedMsg (o_id savedOrder) (userId data) referenceNo
               totalPrice (items data) timestamp)
            "topic" ;
     call (ConsoleLog ("✅ Order event published: " +:+ o_id savedOrder)))
    (λ err,
       (* Don't fail the order creation if event publishing fails *)
       call (ConsoleError "Warning: Failed to publish order event:" err)).

(** The outer [try] block of [createOrder], lines 30-149. *)
Definition createOrderBody (data : CreateOrderData) : Prog num (Order num) :=
  (* 1. Verify user exists *)
  user <- call (UserFindOne (userId data)) ;
  _ <- throw_unless user EUserNotFound ;
  (* 2. Validate and reserve stock with lock *)
  st <- reserveItems (items data) ∅ nzero ;
  (* 3. - 6. *)
  saved <- persistOrder data st.2 ;
  (* 7. Publish event to RabbitMQ (after transaction commits) *)
  _ <- publishOrderCreated data saved.1 saved.2 st.2 ;
  ret saved.1.

(** [catch (error) { await queryRunner.rollbackTransaction();
    console.error(line, error); throw error; }] *)
Definition rollbackAndRethrow {A} (line : string) (error : Error) : Prog num A :=
  _ <- call QrRollbackTransaction ;
  _ <- call (ConsoleError line error) ;
  throw error.

(** [OrderService.createOrder], lines 21-157. *)
Definition createOrder (data : CreateOrderData) : Prog num (Order num) :=
  _ <- call QrConnect ;
  _ <- call QrStartTransaction ;
  try_finally
    (try_catch (createOrderBody data) (rollbackAndRethrow "Error creating order:"))
    (call QrRelease).

(** The loop of [cancelOrder], lines 269-283. *)
Fixpoint restoreStock (items : list (OrderItem num)) : Prog num unit :=
  match items with
  | [] => ret tt
  | item :: rest =>
      product <- call (QrFindProduct (oi_productId item)) ;
      _ <- match product with
           | Some product =>
               _ <- call (QrSaveProduct (restore (oi_quantity item) product)) ;
               (* Invalidate cache *)
               call (RedisDel (cacheKey (oi_productId item)))
           | None => ret tt
           end ;
      restoreStock rest
  end.

Definition set_status (s : OrderStatus) (o : Order num) : Order num :=
  mkOrder (o_id o) (o_userId o) s (o_totalPrice o) (o_referenceNo o).

(** What [cancelOrder] does with the order it found, lines 264-302. *)
Definition cancelFound (orderId : string) (order : Order num)
    (items : list (OrderItem num)) : Prog num (option (Order num)) :=
  _ <- throw_if (bool_decide (o_status order = CANCELLED)) EAlreadyCancelled ;
  (* Restore stock *)
  _ <- restoreStock items ;
  updated <- call (QrSaveOrder (set_status CANCELLED order)) ;
  (* Log cancellation *)
  id <- call Uuidv4 ;
  cancelledAt <- call DateNow ;
  _ <- call (QrSaveEventLog
               (mkEventLog id orderId ORDER_CANCELLED (PayloadCancelled cancelledAt))) ;
  _ <- call QrCommitTransaction ;
  _ <- call (ConsoleLog ("✅ Order cancelled and stock restored: " +:+ orderId)) ;
  ret (Some updated).

(** The [try] block of [cancelOrder], lines 255-302. *)
Definition cancelOrderBody (orderId : string) : Prog num (option (Order num)) :=
  found <- call (QrFindOrderWithItems orderId) ;
  match found with
  | None => ret None
  | Some (order, items) => cancelFound orderId order items
  end.

(** [OrderService.cancelOrder], lines 249-310. *)
Definition cancelOrder (orderId : string) : Prog num (option (Order num)) :=
  _ <- call QrConnect ;
  _ <- call QrStartTransaction ;
  try_finally
    (try_catch (cancelOrderBody orderId) (rollbackAndRethrow "Error cancelling order:"))
    (call QrRelease).

(** [if (cached)]: [null] and the empty string are falsy. *)
Definition truthy (cached : option string) : bool :=
  match cached with
  | Some s => negb (bool_decide (s = ""))
  | None => false
  end.

(** The cache-hit branch of [getProductById], lines 348-351. *)
Definition cacheHit (productId : string) (cached : option string)
  : Prog num (option (Product num)) :=
  _ <- call (ConsoleLog ("✅ Cache HIT for product " +:+ productId)) ;
  p <- throw_unless (cached ≫= JSON_parse) EJsonSyntax ;
  ret (Some p).

(** The cache-miss branch of [getProductById], lines 353-369. *)
Definition cacheMiss (productId : string) : Prog num (option (Product num)) :=
  (* 2. Cache miss - query database *)
  _ <- call (ConsoleLog ("⚠️ Cache MISS for product " +:+ productId)) ;
  product <- call (ProductFindOne productId) ;
  match product with
  | None => ret None
  | Some product =>
      (* 3. Populate cache *)
      _ <- call (RedisSetEx (cacheKey productId) PRODUCT_CACHE_TTL
                   (JSON_stringify product)) ;
      _ <- call (ConsoleLog ("✅ Cached product " +:+ productId +:+ " in Redis")) ;
      ret (Some product)
  end.

(** [ProductService.getProductById], lines 342-374. *)
Definition getProductById (productId : string) : Prog num (option (Product num)) :=
  try_catch
    ((* 1. Check Redis first *)
     cached <- call (RedisGet (cacheKey productId)) ;
     if truthy cached then cacheHit productId cached else cacheMiss productId)
    (λ error,
       _ <- call (ConsoleError "Error getting product:" error) ;
       throw error).
End Services.

(** ** Requests one after another *)

Section Serving.
Context {num : Type} `{!JsRuntime num}.

Inductive Request :=
  | CreateOrder (data : CreateOrderData)
  | CancelOrder (orderId : string).

(** The world after the request [rq], served alone on [conn]. *)
Definition serve (conn : nat) (rq : Request) (w : World num) : World num :=
  match rq with
  | CreateOrder data => (run conn (createOrder data) w).2
  | CancelOrder orderId => (run conn (cancelOrder orderId) w).2
  end.

Definition serve_all (conn : nat) (rqs : list Request) (w : World num) : World num :=
  foldl (λ w rq, serve conn rq w) w rqs.

(** The quantity of product [pid] reserved by those of the orders [datas],
    created one after another from [w], that succeed. *)
Fixpoint reserved_by (conn : nat) (pid : string) (datas : list CreateOrderData)
    (w : World num) : Z :=
  match datas with
  | [] => 0
  | data :: rest =>
      (match (run conn (createOrder data) w).1 with
       | Ok _ => reserved_qty pid (items data)
       | Err _ => 0
       end) + reserved_by conn pid rest (run conn (createOrder data) w).2
  end.
End Serving.

(** ** A small shop, for the examples *)

Module Sample.
Definition widget : Product Z := mkProduct "p1" "Widget" 250 10 0 true.
Definition gadget : Product Z := mkProduct "p2" "Gadget" 100 5 0 true.

(** Prices in integer units; a JSON codec that knows the two products. *)
#[global] Instance runtime : JsRuntime Z := {|
  nzero := 0;
  nadd := Z.add;
  nmul := Z.mul;
  JSON_stringify p := "{" +:+ p_id p +:+ "}";
  JSON_parse s :=
    if decide (s = "{p1}") then Some widget
    else if decide (s = "{p2}") then Some gadget
    else None;
|}.

Definition shop : Db Z :=
  mkDb {[ "u1" ]} {[ "p1" := widget; "p2" := gadget ]} ∅ ∅ ∅.

Definition world : World Z :=
  mkWorld shop ∅ ∅ true [] [] (λ n, "uuid-" +:+ pretty n) 0 1700000000000 [] [] [] [].

(** An order of two lines, one of them for a product that was deleted. *)
Definition orphan_shop : Db Z :=
  mkDb {[ "u1" ]} {[ "p1" := mkProduct "p1" "Widget" 250 8 2 true ]}
       {[ "o1" := mkOrder "o1" "u1" PENDING 600 "ORD-1-abc" ]}
       {[ "i1" := mkOrderItem "i1" "o1" "p1" 2 250 500;
          "i2" := mkOrderItem "i2" "o1" "gone" 1 100 100 ]}
       ∅.

Definition orphan_world : World Z :=
  mkWorld orphan_shop ∅ ∅ true [] [] (λ n, "uuid-" +:+ pretty n) 0 1700000000000 [] [] [] [].

Definition order_of (pid : string) (q : Z) : CreateOrderData :=
  mkCreateOrderData "u1" [mkItemReq pid q].

(** A request of two lines, the second for more than there is. *)
Definition two_lines : CreateOrderData :=
  mkCreateOrderData "u1" [mkItemReq "p1" 1; mkItemReq "p2" 6].

(** A request whose first line is for a product that is not there and
    whose second line asks for more than the stock. *)
Definition two_failures : CreateOrderData :=
  mkCreateOrderData "u1" [mkItemReq "ghost" 1; mkItemReq "p1" 11].

(** The shop when the store refuses the sixth I/O call: for a request
    whose first line can be reserved, the save of the product. *)
Definition write_failure_world : World Z :=
  with_faults [false; false; false; false; false; true] world.

(** The shop while somebody holds the lock of p1. *)
Definition locked_world : World Z :=
  with_redis {[ lockKey "p1" := mkRedisEntry "held" (Some 30) ]} world.

(** Schedules of two requests, each of one line.  [queued]: request 0
    runs to its end, then request 1.  [contended]: request 1 asks for the
    lock while request 0 holds it.  [race]: request 0 runs until it has
    released the lock (9 commands: connect, begin, user, uuid, SET, read,
    save, DEL cache, DEL lock), request 1 runs until it has read the
    product (6 commands), request 0 runs to its end and commits, request 1
    runs to its end.  Every switch is at an [await]. *)
Definition queued : list nat := replicate 27 0%nat ++ replicate 27 1%nat.
Definition contended : list nat :=
  replicate 5 0%nat ++ replicate 5 1%nat ++ replicate 25 0%nat ++ replicate 18 1%nat.
Definition race : list nat :=
  replicate 9 0%nat ++ replicate 6 1%nat ++ replicate 18 0%nat ++ replicate 21 1%nat.
End Sample.

(** ** Vocabulary of the specifications *)

Section Vocabulary.
Context {num : Type} `{!JsRuntime num}.
Implicit Types (w : World num) (c : Cmd num) (V : gmap string (Product num)).

(** [wp conn p Q w]: the request [p], run alone on query runner [conn]
    from the world [w], ends with an outcome and a world that satisfy [Q]. *)
Definition wp {A} (conn : nat) (p : Prog num A)
    (Q : Result A → World num → Prop) w : Prop :=
  Q (run conn p w).1 (run conn p w).2.

(** [issues P p]: whatever the answers, [p] only ever awaits commands
    that satisfy [P]. *)
Inductive issues {A} (P : Cmd num → Prop) : Prog num A → Prop :=
  | issues_Ret r : issues P (Ret r)
  | issues_Vis c k : P c → (∀ r, issues P (k r)) → issues P (Vis c k).

Definition is_redis c : bool :=
  match c with
  | RedisSet _ _ _ _ | RedisGet _ | RedisSetEx _ _ _ | RedisDel _ => true
  | _ => false
  end.

(** The commands of [publishToExchange]. *)
Definition is_publish c : bool :=
  match c with
  | GetChannel | ChAssertExchange _ _ | ChPublish _ | ChDrain => true
  | _ => false
  end.

(** A transaction is open on [conn]. *)
Definition tx_open (conn : nat) w : Prop := is_Some (txs w !! conn).

(** Writes that commute with laying the transaction over the store. *)
Definition is_put (f : Db num → Db num) : Prop :=
  ∀ t d, overlay (f t) d = f (overlay t d).

(** No fault is pending if none was at the start ([ff]). *)
Definition no_new_fault (ff : Prop) w : Prop := ff → faults w = [].

(** What a proof tracks of the world while a transaction is open on
    [conn]: the committed rows [d], the rows [v] the transaction reads
    and the Redis keys [r]. *)
Definition at_state conn w (d v : Db num) (r : gmap string RedisEntry)
    (ff : Prop) : Prop :=
  db w = d ∧ tx_open conn w ∧ tx_view conn w = v ∧ redis w = r ∧
  no_new_fault ff w.

(** What it tracks once the request has thrown. *)
Definition err_state w (d : Db num) (ff : Prop) : Prop :=
  db w = d ∧ no_new_fault ff w.

(** *** Reservation *)

(** [V'] is [V] with every product's reservation of [items] applied. *)
Definition reserved_view (items : list ItemReq) V V' : Prop :=
  ∀ pid, find_product V' pid = reserve (reserved_qty pid items) <$> find_product V pid.

(** [totalPrice] after the lines [items], from [acc]: the running sum
    [acc + price * quantity], in the order of the lines. *)
Fixpoint order_total V (items : list ItemReq) (acc : num) : option num :=
  match items with
  | [] => Some acc
  | it :: rest =>
      p ← find_product V (productId it);
      order_total V rest (nadd acc (nmul (p_price p) (quantity it)))
  end.

(** No reservation of [items] takes a product below zero. *)
Definition stock_suffices (items : list ItemReq) V : Prop :=
  ∀ pid p, find_product V pid = Some p → 0 ≤ p_stock p →
    0 ≤ p_stock p - reserved_qty pid items.

Definition same_rows (d d' : Db num) : Prop :=
  users d' = users d ∧ orders d' = orders d ∧
  orderItems d' = orderItems d ∧ eventLogs d' = eventLogs d.

(** When the body of the reservation loop throws [e] on the line [it]. *)
Definition item_error V (faulted : Prop) (it : ItemReq) (e : Error) : Prop :=
  match e with
  | EProductNotFound pid => productId it = pid ∧ find_product V pid = None
  | EInsufficientStock name available requested =>
      ∃ p, quantity it = requested ∧ find_product V (productId it) = Some p ∧
        p_name p = name ∧ available = p_stock p ∧ available < requested
  | EDriver => faulted
  | _ => False
  end.

(** When the reservation loop throws [e]: the line [it] it stopped at,
    the lines [pre] it had reserved before. *)
Definition reserve_error V (r : gmap string RedisEntry) (faulted : Prop)
    (items : list ItemReq) (e : Error) : Prop :=
  match e with
  | ELockNotAcquired pid =>
      ∃ pre it post, items = pre ++ it :: post ∧ productId it = pid ∧
        is_Some (r !! lockKey pid)
  | EProductNotFound pid =>
      ∃ pre it post, items = pre ++ it :: post ∧ productId it = pid ∧
        find_product V pid = None
  | EInsufficientStock name available requested =>
      ∃ pre it post p, items = pre ++ it :: post ∧ quantity it = requested ∧
        find_product V (productId it) = Some p ∧ p_name p = name ∧
        available = p_stock p - reserved_qty (productId it) pre ∧
        available < requested
  | EDriver => faulted
  | _ => False
  end.

(** *** Persistence *)

(** The order item [createOrder] writes for the requested line [req]. *)
Definition item_of (orderId : string) V (i : OrderItem num) (req : ItemReq) : Prop :=
  oi_orderId i = orderId ∧ oi_productId i = productId req ∧
  oi_quantity i = quantity req ∧
  oi_totalPrice i = nmul (oi_unitPrice i) (oi_quantity i) ∧
  p_price <$> find_product V (productId req) = Some (oi_unitPrice i).

Definition put_orderItems (its : list (OrderItem num)) (d : Db num) : Db num :=
  foldl (λ d i, put_orderItem i d) d its.

(** When [persistOrder] throws [e]. *)
Definition persist_error V (faulted : Prop) (items : list ItemReq) (e : Error) : Prop :=
  e = EDriver ∧ faulted ∨
  e = ENullProduct ∧ ∃ it, it ∈ items ∧ find_product V (productId it) = None.

(** The sum over order items of [unitPrice * quantity], in their order. *)
Definition items_total (its : list (OrderItem num)) : num :=
  foldl (λ acc i, nadd acc (nmul (oi_unitPrice i) (oi_quantity i))) nzero its.

(** What [createOrder] has committed when it returns the order [o]:
    [d] are the rows before, [d'] the rows after. *)
Definition createOrder_ok (d d' : Db num) (data : CreateOrderData)
    (o : Order num) : Prop :=
  ∃ its l,
    userId data ∈ users d ∧ users d' = users d ∧
    reserved_view (items data) (products d) (products d') ∧
    stock_suffices (items data) (products d) ∧
    orders d' = <[o_id o := o]> (orders d) ∧
    orderItems d' = foldl (λ m i, <[oi_id i := i]> m) (orderItems d) its ∧
    eventLogs d' = <[e_id l := l]> (eventLogs d) ∧
    o_userId o = userId data ∧ o_status o = PENDING ∧
    o_totalPrice o = items_total its ∧
    Forall2 (item_of (o_id o) (products d)) its (items data) ∧
    e_orderId l = o_id o ∧ e_eventType l = ORDER_CREATED ∧
    e_payload l = PayloadCreated (items data) (o_totalPrice o).

(** When [createOrder] throws [e]: [d] and [r] are the rows and the
    Redis keys before the request. *)
Definition createOrder_error (d : Db num) (r : gmap string RedisEntry)
    (faulted : Prop) (data : CreateOrderData) (e : Error) : Prop :=
  match e with
  | EUserNotFound => userId data ∉ users d
  | ELockNotAcquired _ | EProductNotFound _ | EInsufficientStock _ _ _ =>
      userId data ∈ users d ∧ reserve_error (products d) r faulted (items data) e
  | EDriver => faulted
  | _ => False
  end.

(** *** Publishing *)

(** Two worlds with the same stores, ids, clock and pending faults: they
    may differ in the channel, in what was published and logged, and in
    the trace. *)
Definition stores_eq w1 w2 : Prop :=
  db w1 = db w2 ∧ txs w1 = txs w2 ∧ redis w1 = redis w2 ∧
  uuid_source w1 = uuid_source w2 ∧ uuid_next w1 = uuid_next w2 ∧
  clock w1 = clock w2 ∧ faults w1 = faults w2.

(** Commands that touch neither the store nor Redis, draw no uuid and use
    up no entry of [faults]. *)
Definition is_quiet c : bool :=
  match c with
  | DateNow | ConsoleLog _ | ConsoleError _ _
  | GetChannel | ChAssertExchange _ _ | ChPublish _ | ChDrain => true
  | _ => false
  end.

(** [p] ends the same way from both worlds, with the same stores. *)
Definition agree {A} conn (p : Prog num A) w1 w2 : Prop :=
  (run conn p w1).1 = (run conn p w2).1 ∧
  stores_eq (run conn p w1).2 (run conn p w2).2.

(** Why [publishToExchange] throws, if it does, when the channel is there
    or not ([ch]) and amqplib answers [a]: the channel is missing, or
    [assertExchange] is rejected, or [ch.publish] throws. *)
Definition publish_error (ch : bool) (a : list AmqpAnswer) : option Error :=
  if ch then
    match a with
    | AmqpThrows :: _ => Some EDriver
    | _ :: AmqpThrows :: _ => Some EDriver
    | _ => None
    end
  else Some EChannelNotInitialized.

(** The line [console.error('Warning: Failed to publish order event:', err)]
    and the line [console.log(`✅ Order event published: ${savedOrder.id}`)]. *)
Definition publish_warning (err : Error) : string * option Error :=
  ("Warning: Failed to publish order event:", Some err).
Definition published_line (orderId : string) : string * option Error :=
  ("✅ Order event published: " +:+ orderId, None).

(** What the broker side of the world is. *)
Definition broker_is (ch : bool) (a : list AmqpAnswer) (l : list (Published num)) w
  : Prop :=
  channel w = ch ∧ amqplib w = a ∧ published w = l.

(** The same with the lines of the console, for the steps of the
    publication itself. *)
Definition bk_state (ch : bool) (a : list AmqpAnswer) (l : list (Published num))
    (cs : list (string * option Error)) w : Prop :=
  channel w = ch ∧ amqplib w = a ∧ published w = l ∧ console w = cs.

(** What step 7 of [createOrder] leaves behind for the order [o], from a
    broker side [ch], [a], [l]: when the publish throws, nothing is
    published and the console ends with the warning; otherwise one
    message of the order is added and the console ends with the line of
    the success. *)
Definition publish_outcome (data : CreateOrderData) (o : Order num)
    (ch : bool) (a : list AmqpAnswer) (l : list (Published num)) w' : Prop :=
  match publish_error ch a with
  | Some err => published w' = l ∧ last (console w') = Some (publish_warning err)
  | None =>
      (∃ m, published w' = l ++ [m] ∧
         pub_exchange m = "order_events" ∧ pub_routingKey m = "order.created" ∧
         m_orderId (pub_payload m) = o_id o ∧ m_userId (pub_payload m) = userId data ∧
         m_items (pub_payload m) = items data) ∧
      last (console w') = Some (published_line (o_id o))
  end.

(** *** The read path *)

Definition is_store_read c : bool :=
  match c with
  | UserFindOne _ | ProductFindOne _ | QrFindProduct _ | QrFindOrderWithItems _ => true
  | _ => false
  end.

Definition is_cache_write c : bool :=
  match c with
  | RedisSet _ _ _ _ | RedisSetEx _ _ _ => true
  | _ => false
  end.

Definition store_reads (tr : list (Cmd num)) : nat := length (filter is_store_read tr).
Definition cache_writes (tr : list (Cmd num)) : nat := length (filter is_cache_write tr).

(** Between [w] and [w'] the committed rows did not change, and the
    commands issued read the store [reads] times and wrote Redis [writes]
    times. *)
Definition read_outcome w w' (reads writes : nat) : Prop :=
  db w' = db w ∧
  ∃ tr, trace w' = trace w ++ tr ∧ store_reads tr = reads ∧ cache_writes tr = writes.

(** *** Cancellation *)

(** The quantity of product [pid] in a list of order items. *)
Fixpoint restored_qty (pid : string) (its : list (OrderItem num)) : Z :=
  match its with
  | [] => 0
  | i :: rest =>
      (if decide (oi_productId i = pid) then oi_quantity i else 0) + restored_qty pid rest
  end.

(** [V'] is [V] with the quantities of [its] given back to every product
    that exists. *)
Definition restored_view (its : list (OrderItem num)) V V' : Prop :=
  ∀ pid, find_product V' pid = restore (restored_qty pid its) <$> find_product V pid.

(** What [cancelOrder] has committed when it returns the order [o']. *)
Definition cancelOrder_ok (d d' : Db num) (orderId : string) (o' : Order num) : Prop :=
  ∃ o l,
    find_order (orders d) orderId = Some o ∧ o_status o ≠ CANCELLED ∧
    o' = set_status CANCELLED o ∧
    users d' = users d ∧
    restored_view (items_of (orderItems d) orderId) (products d) (products d') ∧
    orders d' = <[orderId := o']> (orders d) ∧
    orderItems d' = orderItems d ∧
    eventLogs d' = <[e_id l := l]> (eventLogs d) ∧
    e_orderId l = orderId ∧ e_eventType l = ORDER_CANCELLED.

(** When [cancelOrder] throws [e]. *)
Definition cancelOrder_error (d : Db num) (faulted : Prop) (orderId : string)
    (e : Error) : Prop :=
  match e with
  | EAlreadyCancelled =>
      ∃ o, find_order (orders d) orderId = Some o ∧ o_status o = CANCELLED
  | EDriver => faulted
  | _ => False
  end.
(** *** Orders against stock *)

(** The quantity of product [pid] in the order items of [d]. *)
Definition ordered_qty (pid : string) (d : Db num) : Z :=
  foldr (λ i acc, if decide (oi_productId i = pid) then oi_quantity i + acc else acc)
        0 (map_to_list (orderItems d)).*2.

(** *** The lock *)

(** The Redis commands among the commands [tr], in their order. *)
Fixpoint redis_cmds (tr : list (Cmd num)) : list (Cmd num) :=
  match tr with
  | [] => []
  | c :: tr => if is_redis c then c :: redis_cmds tr else redis_cmds tr
  end.

(** The Redis commands [createOrder] may issue for the lines [items] when
    its next [uuidv4()] is the [n]-th of [src]: for a line, one
    [SET lockKey token EX 30 NX] whose token is that fresh uuid; after it
    either nothing more (the lock was refused, or the client threw), or
    the deletion of the cache key if the line was reserved, then the
    deletion of the lock key, then the commands of the lines that
    follow. *)
Inductive lock_trace (src : nat → string) : nat → list ItemReq → list (Cmd num) → Prop :=
  | lock_trace_end n items : lock_trace src n items []
  | lock_trace_stop n it rest :
      lock_trace src n (it :: rest)
        [RedisSet (lockKey (productId it)) (src n) (Some STOCK_LOCK_TTL) true]
  | lock_trace_held n it rest body tr :
      body = [] ∨ body = [RedisDel (cacheKey (productId it))] →
      lock_trace src (S n) rest tr →
      lock_trace src n (it :: rest)
        (RedisSet (lockKey (productId it)) (src n) (Some STOCK_LOCK_TTL) true
           :: body ++ RedisDel (lockKey (productId it)) :: tr).

(** The index of the next uuid after the command [c]. *)
Definition next_uuid c (n : nat) : nat :=
  match c with Uuidv4 => S n | _ => n end.

(** What a proof tracks of the world for the commands issued: the source
    of uuids, the index of the next one, the commands so far. *)
Definition tr_state (src : nat → string) (n : nat) (tr : list (Cmd num)) w : Prop :=
  uuid_source w = src ∧ uuid_next w = n ∧ trace w = tr.

(** Since the commands [tr0], the world [w'] has seen Redis commands that
    make a [lock_trace] of [items]. *)
Definition traced (src : nat → string) (n : nat) (tr0 : list (Cmd num))
    (items : list ItemReq) w' : Prop :=
  uuid_source w' = src ∧
  ∃ tr, trace w' = tr0 ++ tr ∧ lock_trace src n items (redis_cmds tr).

(** *** The lock, answer by answer *)

(** The first check of the reservation loop that fails, if one does, when
    the products are [V] and the Redis keys [r] before the request, and
    the lines [pre] have been reserved: for each line in turn, the lock
    (is its key free?), the product (is there one?), the stock (is what the
    earlier lines have left enough?). *)
Fixpoint line_failure V (r : gmap string RedisEntry) (pre items : list ItemReq)
  : option Error :=
  match items with
  | [] => None
  | it :: rest =>
      if bool_decide (is_Some (r !! lockKey (productId it)))
      then Some (ELockNotAcquired (productId it))
      else match find_product V (productId it) with
           | None => Some (EProductNotFound (productId it))
           | Some p =>
               let available := p_stock p - reserved_qty (productId it) pre in
               if available <? quantity it
               then Some (EInsufficientStock (p_name p) available (quantity it))
               else line_failure V r (pre ++ [it]) rest
           end
  end.

(** The first check of [createOrder] that fails: the user, then the lines. *)
Definition first_failure (d : Db num) (r : gmap string RedisEntry)
    (data : CreateOrderData) : option Error :=
  if decide (userId data ∈ users d)
  then line_failure (products d) r [] (items data)
  else Some EUserNotFound.

(** The Redis commands of the reservation loop when no command is refused:
    for each line [SET lockKey token EX 30 NX] with the next uuid as token;
    no more if the key is held; else, if the line fails, the deletion of the
    lock key, and if it is reserved the deletion of the cache key, that of
    the lock key, and the commands of the next lines. *)
Fixpoint lock_cmds (src : nat → string) (n : nat) V (r : gmap string RedisEntry)
    (pre items : list ItemReq) : list (Cmd num) :=
  match items with
  | [] => []
  | it :: rest =>
      RedisSet (lockKey (productId it)) (src n) (Some STOCK_LOCK_TTL) true ::
      if bool_decide (is_Some (r !! lockKey (productId it))) then []
      else match find_product V (productId it) with
           | None => [RedisDel (lockKey (productId it))]
           | Some p =>
               if p_stock p - reserved_qty (productId it) pre <? quantity it
               then [RedisDel (lockKey (productId it))]
               else RedisDel (cacheKey (productId it))
                      :: RedisDel (lockKey (productId it))
                      :: lock_cmds src (S n) V r (pre ++ [it]) rest
           end
  end.

(** How a request that met no refusal ended ([res]) and what it sent to
    Redis since the commands [tr0], against the first failing check [f]
    and the commands [cmds] that are expected. *)
Definition exact_run {A} (f : option Error) (cmds tr0 : list (Cmd num))
    (res : Result A) w' : Prop :=
  f = match res with Ok _ => None | Err e => Some e end ∧
  ∃ tr, trace w' = tr0 ++ tr ∧ redis_cmds tr = cmds.

(** *** The release of the locks *)





(** *** Columns *)

(** The values of an [int] column ([stock], [reservedStock], [quantity]). *)
Definition int4 (z : Z) : Prop := -2147483648 ≤ z ≤ 2147483647.
End Vocabulary.

(** ** The repositories

    The other methods of [OrderService] and [ProductService] use no query
    runner: they go through the repositories of [AppDataSource], where
    every statement commits on its own, and through two more commands of
    [redisClient].  A statement that the database rejects, whether over a
    constraint or a lost connection, is a command that throws: an entry
    [true] of [faults]. *)

Inductive RepoCmd {num : Type} :=
  (* orderRepository, eventLogRepository, productRepository *)
  | OrderFindOne (id : string)
  | OrderSave (o : Order num)
  | EventLogSave (l : EventLog num)
  | ProductSave (p : Product num)
  | ProductDelete (id : string)
  (* redisClient.keys(`${prefix}*`), redisClient.del(keys) *)
  | RedisKeys (prefix : string)
  | RedisDelKeys (keys : list string).
Global Arguments RepoCmd : clear implicits.

(** An [await] of these methods: a command of [createOrder] and its
    like, or a command of a repository. *)
Definition SCmd (num : Type) : Type := Cmd num + RepoCmd num.

Definition RepoResp {num} (c : RepoCmd num) : Type :=
  match c with
  | OrderFindOne _ => option (Order num)
  | OrderSave _ => Order num
  | EventLogSave _ => EventLog num
  | ProductSave _ => Product num
  | ProductDelete _ => Z            (* [DeleteResult.affected] *)
  | RedisKeys _ => list string
  | RedisDelKeys _ => unit
  end.

Definition SResp {num} (c : SCmd num) : Type :=
  match c with
  | inl c => Resp c
  | inr c => RepoResp c
  end.

Inductive SProg {num : Type} (A : Type) : Type :=
  | SRet (r : Result A)
  | SVis (c : SCmd num) (k : Result (SResp c) → SProg A).
Global Arguments SProg : clear implicits.
Global Arguments SRet {num A}.
Global Arguments SVis {num A}.

Section RepoPrograms.
Context {num : Type}.
Implicit Types (w : World num).

Definition sret {A} (a : A) : SProg num A := SRet (Ok a).
Definition sthrow {A} (e : Error) : SProg num A := SRet (Err e).

(** [await] of a command of the first kind, and of a repository. *)
Definition scall (c : Cmd num) : SProg num (Resp c) := SVis (inl c) SRet.
Definition rcall (c : RepoCmd num) : SProg num (RepoResp c) := SVis (inr c) SRet.

Fixpoint sbind {A B} (p : SProg num A) (f : A → SProg num B) : SProg num B :=
  match p with
  | SRet (Ok a) => f a
  | SRet (Err e) => SRet (Err e)
  | SVis c k => SVis c (λ r, sbind (k r) f)
  end.

(** [try { p } catch (error) { h error }] *)
Fixpoint stry_catch {A} (p : SProg num A) (h : Error → SProg num A) : SProg num A :=
  match p with
  | SRet (Ok a) => SRet (Ok a)
  | SRet (Err e) => h e
  | SVis c k => SVis c (λ r, stry_catch (k r) h)
  end.

(** [DELETE FROM products WHERE id = $1]. *)
Definition del_product (id : string) (d : Db num) : Db num :=
  match find_product (products d) id with
  | Some _ => mkDb (users d) (delete id (products d)) (orders d) (orderItems d) (eventLogs d)
  | None => d
  end.

(** [KEYS prefix*], for a prefix without glob characters: the keys that
    begin with it. *)
Definition keys_with (prefix : string) (r : gmap string RedisEntry) : list string :=
  filter (λ k, String.prefix prefix k = true) (map_to_list r).*1.

(** The effect of a repository command that was not refused. *)
Definition repo_exec (c : RepoCmd num) w : Result (RepoResp c) * World num :=
  match c as c0 return Result (RepoResp c0) * World num with
  | OrderFindOne id => (Ok (find_order (orders (db w)) id), w)
  | OrderSave o => (Ok o, with_db (put_order o (db w)) w)
  | EventLogSave l => (Ok l, with_db (put_eventLog l (db w)) w)
  | ProductSave p => (Ok p, with_db (put_product p (db w)) w)
  | ProductDelete id =>
      (Ok (match find_product (products (db w)) id with Some _ => 1 | None => 0 end),
       with_db (del_product id (db w)) w)
  | RedisKeys prefix => (Ok (keys_with prefix (redis w)), w)
  | RedisDelKeys keys => (Ok tt, with_redis (foldr delete (redis w) keys) w)
  end.

(** One [await].  A repository command is I/O: it uses up the next entry
    of [faults] and throws when that entry says so. *)
Definition shandle (conn : nat) (c : SCmd num) w : Result (SResp c) * World num :=
  match c as c0 return Result (SResp c0) * World num with
  | inl c => handle conn c w
  | inr c =>
      if bool_decide (head (faults w) = Some true)
      then (Err EDriver, with_faults (tail (faults w)) w)
      else repo_exec c (with_faults (tail (faults w)) w)
  end.

(** One call of a method, from its first [await] to its return or throw,
    with nothing else running in between. *)
Fixpoint srun {A} (conn : nat) (p : SProg num A) w : Result A * World num :=
  match p with
  | SRet r => (r, w)
  | SVis c k => srun conn (k (shandle conn c w).1) (shandle conn c w).2
  end.
End RepoPrograms.

Global Arguments sbind {num A B} & p f.
Global Arguments stry_catch {num A} & p h.

Declare Scope sprog_scope.
Delimit Scope sprog_scope with sprog.
Notation "x <- p ; q" := (sbind p (λ x, q))
  (at level 20, p at level 100, q at level 200, only parsing) : sprog_scope.

Section RepoServices.
Context {num : Type} `{!JsRuntime num}.
Local Open Scope sprog_scope.

(** The value of the enum [OrderStatus], as [console.log] prints it. *)
Definition status_name (s : OrderStatus) : string :=
  match s with
  | PENDING => "PENDING"
  | CONFIRMED => "CONFIRMED"
  | FAILED => "FAILED"
  | CANCELLED => "CANCELLED"
  | COMPLETED => "COMPLETED"
  end.

(** [catch (error) { console.error(line, error); throw error; }] *)
Definition logAndRethrow {A} (line : string) (error : Error) : SProg num A :=
  _ <- scall (ConsoleError line error) ;
  sthrow error.

(** [OrderService.updateOrderStatus], lines 216-244. *)
Definition updateOrderStatus (orderId : string) (newStatus : OrderStatus)
  : SProg num (option (Order num)) :=
  stry_catch
    (order <- rcall (OrderFindOne orderId) ;
     match order with
     | None => sret None
     | Some order =>
         let oldStatus := o_status order in
         updated <- rcall (OrderSave (set_status newStatus order)) ;
         (* Log status change *)
         id <- scall Uuidv4 ;
         _ <- rcall (EventLogSave
                       (mkEventLog id orderId ORDER_CONFIRMED
                          (PayloadStatus oldStatus newStatus))) ;
         _ <- scall (ConsoleLog ("✅ Order status updated: " +:+ orderId +:+ " ("
                                 +:+ status_name oldStatus +:+ " → "
                                 +:+ status_name newStatus +:+ ")")) ;
         sret (Some updated)
     end)
    (logAndRethrow "Error updating order status:").

(** [createProduct]'s argument, in the columns of [Product] that are kept. *)
Record ProductData := mkProductData {
  pd_name : string;
  pd_price : num;
  pd_stock : Z;
}.

(** [ProductService.createProduct], lines 396-427.  [reservedStock] and
    [isActive] are not given: the row gets the defaults of the columns,
    [0] and [true]. *)
Definition createProduct (data : ProductData) : SProg num (Product num) :=
  stry_catch
    (id <- scall Uuidv4 ;
     savedProduct <- rcall (ProductSave
                       (mkProduct id (pd_name data) (pd_price data) (pd_stock data) 0 true)) ;
     _ <- scall (ConsoleLog ("✅ Product created in DB: " +:+ p_id savedProduct)) ;
     (* Cache in Redis *)
     _ <- scall (RedisSetEx (cacheKey (p_id savedProduct)) PRODUCT_CACHE_TTL
                   (JSON_stringify savedProduct)) ;
     _ <- scall (ConsoleLog ("✅ Product cached in Redis: " +:+ p_id savedProduct)) ;
     sret savedProduct)
    (logAndRethrow "Error creating product:").

(** [Partial<Product>], in the columns of [Product] that are kept. *)
Record ProductPatch := mkProductPatch {
  pp_id : option string;
  pp_name : option string;
  pp_price : option num;
  pp_stock : option Z;
  pp_reservedStock : option Z;
  pp_isActive : option bool;
}.

(** [Object.assign(product, data)] *)
Definition assign (product : Product num) (data : ProductPatch) : Product num :=
  mkProduct (default (p_id product) (pp_id data))
            (default (p_name product) (pp_name data))
            (default (p_price product) (pp_price data))
            (default (p_stock product) (pp_stock data))
            (default (p_reservedStock product) (pp_reservedStock data))
            (default (p_isActive product) (pp_isActive data)).

(** [ProductService.updateProduct], lines 432-462. *)
Definition updateProduct (productId : string) (data : ProductPatch)
  : SProg num (option (Product num)) :=
  stry_catch
    (product <- scall (ProductFindOne productId) ;
     match product with
     | None => sret None
     | Some product =>
         updatedProduct <- rcall (ProductSave (assign product data)) ;
         (* Invalidate cache *)
         _ <- scall (RedisDel (cacheKey productId)) ;
         _ <- scall (ConsoleLog ("✅ Cache invalidated for product " +:+ productId)) ;
         (* Repopulate cache *)
         _ <- scall (RedisSetEx (cacheKey productId) PRODUCT_CACHE_TTL
                       (JSON_stringify updatedProduct)) ;
         sret (Some updatedProduct)
     end)
    (logAndRethrow "Error updating product:").

(** [ProductService.deleteProduct], lines 467-485. *)
Definition deleteProduct (productId : string) : SProg num bool :=
  stry_catch
    (affected <- rcall (ProductDelete productId) ;
     if affected =? 0 then sret false
     else
       (* Invalidate cache *)
       _ <- scall (RedisDel (cacheKey productId)) ;
       _ <- scall (ConsoleLog ("✅ Product deleted and cache invalidated: "
                               +:+ productId)) ;
       sret true)
    (logAndRethrow "Error deleting product:").

(** [ProductService.clearCache], lines 518-528: the [catch] logs and does
    not throw. *)
Definition clearCache : SProg num unit :=
  stry_catch
    (keys <- rcall (RedisKeys PRODUCT_CACHE_PREFIX) ;
     if (0 <? length keys)%nat then
       _ <- rcall (RedisDelKeys keys) ;
       scall (ConsoleLog ("✅ Cleared " +:+ pretty (length keys)
                          +:+ " product cache entries"))
     else sret tt)
    (λ error, scall (ConsoleError "Error clearing cache:" error)).

End RepoServices.

(** [swp conn p Q w]: the call [p], run alone from the world [w], ends
    with an outcome and a world that satisfy [Q]. *)
Section RepoVocabulary.
Context {num : Type}.
Definition swp {A} (conn : nat) (p : SProg num A)
    (Q : Result A → World num → Prop) (w : World num) : Prop :=
  Q (srun conn p w).1 (srun conn p w).2.
End RepoVocabulary.

(** ** The controllers *)

(** [String.prototype.includes] *)
Fixpoint includes (s pat : string) : bool :=
  String.prefix pat s ||
  match s with
  | EmptyString => false
  | String _ s' => includes s' pat
  end.

(** The status [OrderController.createOrder] answers with when the
    service threw an error with the given message, lines 38-51. *)
Definition createOrderErrorStatus (message : string) : Z :=
  if includes message "not found" || includes message "Insufficient stock" then 400
  else if includes message "lock" then 409
  else 500.

(** The same of [OrderController.cancelOrder], lines 242-252. *)
Definition cancelOrderErrorStatus (message : string) : Z :=
  if includes message "already cancelled" then 400 else 500.

(** [pat] and [u] differ at a place where both have a character. *)
Fixpoint clash (pat u : string) : bool :=
  match pat, u with
  | String a pat', String b u' =>
      if Ascii.ascii_dec a b then clash pat' u' else true
  | _, _ => false
  end.

(** [pat] clashes with every tail of [u] that is not empty. *)
Fixpoint tails_clash (pat u : string) : bool :=
  match u with
  | EmptyString => true
  | String _ u' => clash pat u && tails_clash pat u'
  end.

(** No tail of [p1 ++ " " ++ p2] that still has the space begins [post]. *)
Fixpoint tails_miss (p1 p2 post : string) : bool :=
  negb (String.prefix (p1 +:+ " " +:+ p2) post) &&
  match p1 with
  | EmptyString => true
  | String _ p1' => tails_miss p1' p2 post
  end.

(** What a handler answers: the status and the fields of the JSON body. *)
Record Response {D : Type} := mkResponse {
  rs_status : Z;
  rs_success : bool;
  rs_data : option D;
  rs_error : option string;
  rs_details : list string;
  rs_message : option string;
}.
Global Arguments Response : clear implicits.
Global Arguments mkResponse {D}.

Section Controllers.
Context {num : Type} `{!JsRuntime num}.
Local Open Scope prog_scope.

(** [OrderController.createOrder], lines 12-52.  [validated] is what
    [validateCreateOrder(req.body)] gave: the messages of [error.details],
    or [value].  What is caught is an [Error] here, so that [message] is
    [error.message]; the answer is the status and the body that [res] is
    given. *)
Definition controller_createOrder (validated : list string + CreateOrderData)
  : Prog num (Response (Order num)) :=
  try_catch
    (match validated with
     | inl details =>
         ret (mkResponse 400 false None (Some "Validation failed") details None)
     | inr value =>
         order <- createOrder (mkCreateOrderData (userId value) (items value)) ;
         ret (mkResponse 201 true (Some order) None []
                (Some "Order created successfully. Processing in background..."))
     end)
    (λ error,
       _ <- call (ConsoleError "Error creating order:" error) ;
       (* Return appropriate status based on error *)
       ret (mkResponse (createOrderErrorStatus (message error)) false None
              (Some (message error)) [] None)).

(** [OrderController.cancelOrder], lines 222-253.  [id] is
    [req.params.id]; [trim] is [String.prototype.trim]. *)
Definition controller_cancelOrder (trim : string → string) (id : option string)
  : Prog num (Response (Order num)) :=
  try_catch
    (match id with
     | Some id =>
         if bool_decide (id = "") || bool_decide (trim id = "") then
           ret (mkResponse 400 false None (Some "Order ID is required") [] None)
         else
           cancelled <- cancelOrder id ;
           match cancelled with
           | None => ret (mkResponse 404 false None (Some "Order not found") [] None)
           | Some cancelled =>
               ret (mkResponse 200 true (Some cancelled) None []
                      (Some "Order cancelled successfully"))
           end
     | None => ret (mkResponse 400 false None (Some "Order ID is required") [] None)
     end)
    (λ error,
       _ <- call (ConsoleError "Error cancelling order:" error) ;
       ret (mkResponse (cancelOrderErrorStatus (message error)) false None
              (Some (message error)) [] None)).
End Controllers.

(** ** Validation and paging *)

(** [updateOrderStatusSchema], [validators/OrderValidator.ts] lines 30-38:
    the strings that [Joi.string().valid(...)] lets through as [status].
    The handler passes the string on to [updateOrderStatus] as it is. *)
Definition updateOrderStatusSchema_valid : list string :=
  ["PENDING"; "CONFIRMED"; "SHIPPED"; "CANCELLED"].

(** [const skip = (page - 1) * limit], in [getOrdersByUser], [getAllOrders]
    and [getAllProducts]; [findAndCount] then takes [limit] rows from row
    [skip] on. *)
Definition skipOf (page limit : Z) : Z := (page - 1) * limit.

(** [pages: Math.ceil(total / limit)], in the handlers that list orders
    and products, on integers; [limit] is at least 1 there and [total] is
    the count of the rows. *)
Definition pagesOf (total limit : Z) : Z := - ((- total) / limit).

(** ** [config/rabbitmq.ts]: connecting and reconnecting *)

Inductive RabbitError :=
  | EUrlNotSet        (* "RABBITMQ_URL is not set" *)
  | EAmqplib.         (* an error thrown by amqplib *)

Inductive Outcome (A : Type) := Done (a : A) | Thrown (e : RabbitError).
Global Arguments Done {A}.
Global Arguments Thrown {A}.

(** The variables of the module, and what surrounds it. *)
Record Rabbit := mkRabbit {
  rb_url : string;          (* [process.env.RABBITMQ_URL || ""] *)
  rb_connection : bool;     (* [connection] is not null *)
  rb_channel : bool;        (* [channel] is not null *)
  rb_connecting : bool;
  rb_watched : bool;        (* [connection] has the handlers of "close" and "error" *)
  rb_faults : list bool;    (* which of the coming calls of amqplib throw *)
  rb_slept : list Z;        (* the delays of [setTimeout] awaited so far, in ms *)
  rb_log : list string;     (* the first argument of each [console] call *)
}.

Definition rb_set_connection (b : bool) (s : Rabbit) : Rabbit :=
  mkRabbit (rb_url s) b (rb_channel s) (rb_connecting s) (rb_watched s)
           (rb_faults s) (rb_slept s) (rb_log s).
Definition rb_set_channel (b : bool) (s : Rabbit) : Rabbit :=
  mkRabbit (rb_url s) (rb_connection s) b (rb_connecting s) (rb_watched s)
           (rb_faults s) (rb_slept s) (rb_log s).
Definition rb_set_connecting (b : bool) (s : Rabbit) : Rabbit :=
  mkRabbit (rb_url s) (rb_connection s) (rb_channel s) b (rb_watched s)
           (rb_faults s) (rb_slept s) (rb_log s).
Definition rb_set_watched (b : bool) (s : Rabbit) : Rabbit :=
  mkRabbit (rb_url s) (rb_connection s) (rb_channel s) (rb_connecting s) b
           (rb_faults s) (rb_slept s) (rb_log s).
Definition rb_sleep (ms : Z) (s : Rabbit) : Rabbit :=
  mkRabbit (rb_url s) (rb_connection s) (rb_channel s) (rb_connecting s) (rb_watched s)
           (rb_faults s) (rb_slept s ++ [ms]) (rb_log s).
Definition rb_logged (line : string) (s : Rabbit) : Rabbit :=
  mkRabbit (rb_url s) (rb_connection s) (rb_channel s) (rb_connecting s) (rb_watched s)
           (rb_faults s) (rb_slept s) (rb_log s ++ [line]).

(** One call of amqplib: whether it throws, and the world after it. *)
Definition amqp (s : Rabbit) : bool * Rabbit :=
  (bool_decide (head (rb_faults s) = Some true),
   mkRabbit (rb_url s) (rb_connection s) (rb_channel s) (rb_connecting s) (rb_watched s)
            (tail (rb_faults s)) (rb_slept s) (rb_log s)).

Definition prefetch : Z := 1.
Definition maxDelay : Z := 10000.

(** The [try] block of [initRabbitMQ], lines 24-43. *)
Definition connect (s : Rabbit) : Outcome unit * Rabbit :=
  (* const conn = await amqplib.connect(url) *)
  let (thrown, s) := amqp s in
  if thrown : bool then (Thrown EAmqplib, s) else
  (* const ch = await conn.createChannel() *)
  let (thrown, s) := amqp s in
  if thrown : bool then (Thrown EAmqplib, s) else
  (* connection = conn; channel = ch *)
  let s := rb_set_watched false (rb_set_channel true (rb_set_connection true s)) in
  (* await ch.prefetch(prefetch) *)
  let (thrown, s) := amqp s in
  if thrown : bool then (Thrown EAmqplib, s) else
  (* register handlers safely *)
  let s := rb_set_watched true s in
  (Done tt, rb_logged ("[RabbitMQ] Connected. Prefetch=" +:+ pretty prefetch) s).

(** [initRabbitMQ], lines 12-50, with nothing else running while it
    waits. *)
Definition initRabbitMQ (s : Rabbit) : Outcome unit * Rabbit :=
  if rb_channel s && rb_connection s then (Done tt, s) else
  let waited := rb_connecting s in
  let s := if waited then rb_sleep 250 s else s in
  if waited && (rb_channel s && rb_connection s) then (Done tt, s) else
  if bool_decide (rb_url s = "") then (Thrown EUrlNotSet, s) else
  let s := rb_set_connecting true s in
  match connect s with
  | (Done a, s) => (Done a, rb_set_connecting false s)
  | (Thrown e, s) =>
      (Thrown e, rb_set_connecting false (rb_logged "[RabbitMQ] connect error:" s))
  end.

(** The loop of [reconnect], lines 60-70; [fuel] bounds its turns, and
    [None] says that they did not suffice. *)
Fixpoint reconnectLoop (fuel : nat) (delay : Z) (s : Rabbit) : option Rabbit :=
  match fuel with
  | O => None
  | S fuel =>
      if negb (rb_connection s) || negb (rb_channel s) then
        match initRabbitMQ s with
        | (Done _, s) => Some (rb_logged "[RabbitMQ] Reconnected." s)
        | (Thrown _, s) =>
            let s := rb_logged "[RabbitMQ] Reconnect failed:" s in
            let s := rb_sleep delay s in
            reconnectLoop fuel (Z.min (delay * 2) maxDelay) s
        end
      else Some s
  end.

(** [reconnect], lines 52-71. *)
Definition reconnect (fuel : nat) (s : Rabbit) : option Rabbit :=
  let s := rb_set_watched false (rb_set_channel false (rb_set_connection false s)) in
  (* backoff: 1s, 2s, 4s, max 10s *)
  reconnectLoop fuel 1000 s.

(** The delays of [k] turns of the loop that fail, from [delay]. *)
Fixpoint delays (k : nat) (delay : Z) : list Z :=
  match k with
  | O => []
  | S k => delay :: delays k (Z.min (delay * 2) maxDelay)
  end.

(** ** Worlds for the cases below *)

Module Cases.
(** The shop of [Sample] with product p1 in the cache. *)
Definition cached_world : World Z :=
  with_redis {[ cacheKey "p1" := mkRedisEntry "{p1}" (Some 3600) ]} Sample.world.

(** The same while somebody holds the lock of p1. *)
Definition cached_locked_world : World Z :=
  with_redis {[ cacheKey "p1" := mkRedisEntry "{p1}" (Some 3600);
                lockKey "p1" := mkRedisEntry "held" (Some 30) ]} Sample.world.

(** Worlds in which the third, or the second, I/O call to come throws. *)
Definition third_fails (w : World Z) : World Z := with_faults [false; false; true] w.
Definition second_fails (w : World Z) : World Z := with_faults [false; true] w.

Definition screw : ProductData (num := Z) := mkProductData "Screw" 5 100.

(** A patch that changes the price and nothing else. *)
Definition new_price : ProductPatch (num := Z) :=
  mkProductPatch None None (Some 300) None None None.

(** No connection yet, and a broker that takes the first one. *)
Definition down_broker : Rabbit :=
  mkRabbit "amqp://localhost" false false false false [false; false; false] [] [].

(** A broker that refuses two connections and then takes one. *)
Definition broker : Rabbit :=
  mkRabbit "amqp://localhost" true true false true
           [true; true; false; false; false] [] [].

(** A broker whose next channel refuses [prefetch]. *)
Definition picky_broker : Rabbit :=
  mkRabbit "amqp://localhost" true true false true [false; false; true] [] [].
End Cases.

(** ** Reasoning about requests *)

Section Reasoning.
Context {num : Type}.
Implicit Types (w : World num) (c : Cmd num).

Lemma run_bind {A B} conn (p : Prog num A) (f : A → Prog num B) w :
  run conn (bind p f) w =
    match (run conn p w).1 with
    | Ok a => run conn (f a) (run conn p w).2
    | Err e => (Err e, (run conn p w).2)
    end.
Proof.
  revert w. induction p as [[a|e]|c k IH]; intros w; simpl; auto.
Qed.

Lemma run_try_catch {A} conn (p : Prog num A) h w :
  run conn (try_catch p h) w =
    match (run conn p w).1 with
    | Ok a => (Ok a, (run conn p w).2)
    | Err e => run conn (h e) (run conn p w).2
    end.
Proof.
  revert w. induction p as [[a|e]|c k IH]; intros w; simpl; auto.
Qed.

Lemma run_try_finally {A} conn (p : Prog num A) f w :
  run conn (try_finally p f) w =
    match (run conn f (run conn p w).2).1 with
    | Ok _ => ((run conn p w).1, (run conn f (run conn p w).2).2)
    | Err e => (Err e, (run conn f (run conn p w).2).2)
    end.
Proof.
  revert w. induction p as [r|c k IH]; intros w; simpl; auto.
  rewrite run_bind. destruct (run conn f w).1; reflexivity.
Qed.

Lemma run_call conn c w : run conn (call c) w = handle conn c w.
Proof. simpl. destruct (handle conn c w); reflexivity. Qed.

Lemma wp_ret {A} conn (a : A) Q w : Q (Ok a) w → wp conn (ret a) Q w.
Proof. auto. Qed.

Lemma wp_throw {A} conn e (Q : Result A → World num → Prop) w :
  Q (Err e) w → wp conn (throw e) Q w.
Proof. auto. Qed.

Lemma wp_bind {A B} conn (p : Prog num A) (f : A → Prog num B) Q w :
  wp conn p (λ r w', match r with
                     | Ok a => wp conn (f a) Q w'
                     | Err e => Q (Err e) w'
                     end) w →
  wp conn (bind p f) Q w.
Proof.
  unfold wp. rewrite run_bind. destruct (run conn p w).1; auto.
Qed.

Lemma wp_try_catch {A} conn (p : Prog num A) h Q w :
  wp conn p (λ r w', match r with
                     | Ok a => Q (Ok a) w'
                     | Err e => wp conn (h e) Q w'
                     end) w →
  wp conn (try_catch p h) Q w.
Proof.
  unfold wp. rewrite run_try_catch. destruct (run conn p w).1; auto.
Qed.

Lemma wp_try_finally {A} conn (p : Prog num A) f Q w :
  wp conn p (λ r w', wp conn f (λ rf w'', match rf with
                                          | Ok _ => Q r w''
                                          | Err e => Q (Err e) w''
                                          end) w') w →
  wp conn (try_finally p f) Q w.
Proof.
  unfold wp. rewrite run_try_finally.
  destruct (run conn f (run conn p w).2).1; auto.
Qed.

Lemma wp_call conn c (Q : Result (Resp c) → World num → Prop) w :
  (faulty c w = true → Q (Err EDriver) (refuse c (consume c w))) →
  (faulty c w = false →
     Q (exec conn c (consume c w)).1 (exec conn c (consume c w)).2) →
  wp conn (call c) Q w.
Proof.
  unfold wp. rewrite run_call. unfold handle.
  destruct (faulty c w); auto.
Qed.

(** A command that is no I/O answers. *)
Lemma wp_call_pure conn c (Q : Result (Resp c) → World num → Prop) w :
  is_io c = false →
  Q (exec conn c (consume c w)).1 (exec conn c (consume c w)).2 →
  wp conn (call c) Q w.
Proof.
  intros Hio HQ. apply wp_call; [|done].
  unfold faulty. by rewrite Hio.
Qed.

Lemma wp_mono {A} conn (p : Prog num A) (Q Q' : Result A → World num → Prop) w :
  wp conn p Q w → (∀ r w', Q r w' → Q' r w') → wp conn p Q' w.
Proof. unfold wp. auto. Qed.

Lemma wp_throw_if conn b e (Q : Result unit → World num → Prop) w :
  (b = true → Q (Err e) w) → (b = false → Q (Ok tt) w) →
  wp conn (throw_if b e) Q w.
Proof. destruct b; unfold wp; simpl; auto. Qed.

Lemma wp_throw_unless {A} conn (x : option A) e
    (Q : Result A → World num → Prop) w :
  (x = None → Q (Err e) w) → (∀ a, x = Some a → Q (Ok a) w) →
  wp conn (throw_unless x e) Q w.
Proof. destruct x; unfold wp; simpl; auto. Qed.

Lemma issues_call P c : issues P (call c) ↔ P c.
Proof.
  split.
  - by inversion 1.
  - intros. constructor; [done|]. intros. constructor.
Qed.

Lemma issues_bind {A B} P (p : Prog num A) (f : A → Prog num B) :
  issues P p → (∀ a, issues P (f a)) → issues P (bind p f).
Proof.
  induction 1 as [[a|e]|c k Hc Hk IH]; intros Hf; simpl; auto; constructor; auto.
Qed.

Lemma issues_try_catch {A} P (p : Prog num A) h :
  issues P p → (∀ e, issues P (h e)) → issues P (try_catch p h).
Proof.
  induction 1 as [[a|e]|c k Hc Hk IH]; intros Hf; simpl; auto; constructor; auto.
Qed.

Lemma issues_try_finally {A} P (p : Prog num A) f :
  issues P p → issues P f → issues P (try_finally p f).
Proof.
  induction 1 as [r|c k Hc Hk IH]; intros Hf; simpl.
  - apply issues_bind; [done|]. intros. constructor.
  - constructor; auto.
Qed.

Lemma issues_throw_if P b e : issues P (throw_if (num:=num) b e).
Proof. destruct b; constructor. Qed.

Lemma issues_throw_unless {A} P (x : option A) e :
  issues P (throw_unless (num:=num) x e).
Proof. destruct x; constructor. Qed.

(** A property of the world that every command a request may await
    preserves is preserved by the request. *)
Lemma wp_issues {A} (P : Cmd num → Prop) (I : World num → Prop) conn
    (p : Prog num A) w :
  issues P p →
  (∀ c w, P c → I w → I (handle conn c w).2) →
  I w → wp conn p (λ _ w', I w') w.
Proof.
  intros Hp Hh. revert w. induction Hp as [r|c k Hc Hk IH]; intros w Hw.
  - done.
  - unfold wp. simpl. apply IH. by apply Hh.
Qed.

Lemma overlay_empty (d : Db num) : overlay empty_db d = d.
Proof.
  destruct d. unfold overlay, empty_db. simpl.
  f_equal; apply (left_id_L ∅ (∪)).
Qed.

Lemma is_put_product p : is_put (put_product (num:=num) p).
Proof. intros t d. unfold overlay, put_product. simpl. by rewrite insert_union_l. Qed.

Lemma is_put_order o : is_put (put_order (num:=num) o).
Proof. intros t d. unfold overlay, put_order. simpl. by rewrite insert_union_l. Qed.

Lemma is_put_orderItem i : is_put (put_orderItem (num:=num) i).
Proof. intros t d. unfold overlay, put_orderItem. simpl. by rewrite insert_union_l. Qed.

Lemma is_put_eventLog l : is_put (put_eventLog (num:=num) l).
Proof. intros t d. unfold overlay, put_eventLog. simpl. by rewrite insert_union_l. Qed.

Lemma tx_write_open conn f w :
  tx_open conn w → is_put f →
  db (tx_write conn f w) = db w ∧
  tx_view conn (tx_write conn f w) = f (tx_view conn w) ∧
  tx_open conn (tx_write conn f w).
Proof.
  intros [t Ht] Hf. unfold tx_write, tx_view, tx_open. rewrite Ht. simpl.
  rewrite lookup_insert_eq. split; [done|]. split; [apply Hf|by eexists].
Qed.

Lemma tx_write_rest conn f w :
  redis (tx_write conn f w) = redis w ∧
  channel (tx_write conn f w) = channel w ∧
  published (tx_write conn f w) = published w ∧
  console (tx_write conn f w) = console w ∧
  uuid_source (tx_write conn f w) = uuid_source w ∧
  uuid_next (tx_write conn f w) = uuid_next w ∧
  clock (tx_write conn f w) = clock w ∧
  faults (tx_write conn f w) = faults w ∧
  trace (tx_write conn f w) = trace w.
Proof. unfold tx_write. destruct (txs w !! conn); simpl; tauto. Qed.

Lemma tx_write_oracles conn f w :
  amqplib (tx_write conn f w) = amqplib w ∧
  refused (tx_write conn f w) = refused w.
Proof. unfold tx_write. destruct (txs w !! conn); simpl; tauto. Qed.

(** *** Tracking the stores along a request *)

Lemma at_state_consume conn c w d v r ff :
  at_state conn w d v r ff → at_state conn (consume c w) d v r ff.
Proof.
  intros (?&?&?&?&Hf). repeat split; try done.
  intros ?. simpl. rewrite (Hf ltac:(done)). by destruct (is_io c).
Qed.

Lemma at_state_with_redis conn r' w d v r ff :
  at_state conn w d v r ff → at_state conn (with_redis r' w) d v r' ff.
Proof. by intros (?&?&?&?&?). Qed.

Lemma at_state_with_uuid_next conn n w d v r ff :
  at_state conn w d v r ff → at_state conn (with_uuid_next n w) d v r ff.
Proof. by intros (?&?&?&?&?). Qed.

Lemma at_state_with_console conn l w d v r ff :
  at_state conn w d v r ff → at_state conn (with_console l w) d v r ff.
Proof. by intros (?&?&?&?&?). Qed.

Lemma at_state_with_published conn l w d v r ff :
  at_state conn w d v r ff → at_state conn (with_published l w) d v r ff.
Proof. by intros (?&?&?&?&?). Qed.

Lemma at_state_tx_write conn f w d v r ff :
  is_put f → at_state conn w d v r ff →
  at_state conn (tx_write conn f w) d (f v) r ff.
Proof.
  intros Hf (Hd&Ho&Hv&Hr&Hff).
  destruct (tx_write_open conn f w Ho Hf) as (?&?&?).
  destruct (tx_write_rest conn f w) as (?&_&_&_&_&_&_&Hfl&_).
  repeat split; try congruence. intros ?. rewrite Hfl. by apply Hff.
Qed.

Lemma at_state_refuse conn c w d v r ff :
  at_state conn w d v r ff → at_state conn (refuse c w) d v r ff.
Proof. by intros (?&?&?&?&?). Qed.

Lemma err_state_refuse c w d ff : err_state w d ff → err_state (refuse c w) d ff.
Proof. by intros (?&?). Qed.

Lemma at_state_err conn w d v r ff : at_state conn w d v r ff → err_state w d ff.
Proof. by intros (?&?&?&?&?). Qed.

Lemma err_state_consume c w d ff : err_state w d ff → err_state (consume c w) d ff.
Proof.
  intros (?&Hf). split; [done|].
  intros ?. simpl. rewrite (Hf ltac:(done)). by destruct (is_io c).
Qed.

Lemma err_state_with_txs t w d ff : err_state w d ff → err_state (with_txs t w) d ff.
Proof. by intros (?&?). Qed.

Lemma err_state_with_console l w d ff :
  err_state w d ff → err_state (with_console l w) d ff.
Proof. by intros (?&?). Qed.

(** The client library threw: a fault was pending. *)
Lemma no_new_fault_faulty c w (ff : Prop) :
  no_new_fault ff w → faulty c w = true → ¬ ff.
Proof.
  intros Hf Hc Hff. unfold faulty in Hc. rewrite (Hf Hff) in Hc.
  by rewrite andb_false_r in Hc.
Qed.

Lemma faulty_nil c w : faults w = [] → faulty c w = false.
Proof. intros Hf. unfold faulty. rewrite Hf. apply andb_false_r. Qed.

Lemma at_state_fault conn c w d v r (ff : Prop) :
  at_state conn w d v r ff → faulty c w = true →
  err_state (refuse c (consume c w)) d ff ∧ redis (refuse c (consume c w)) = r ∧ ¬ ff.
Proof.
  intros Hst Hc. assert (¬ ff).
  { destruct Hst as (?&?&?&?&?). by eapply no_new_fault_faulty. }
  destruct Hst as (?&?&?&?&?). split; [|done]. split; [done|]. by intros ?.
Qed.

Lemma err_state_fault c w d (ff : Prop) :
  err_state w d ff → faulty c w = true →
  err_state (refuse c (consume c w)) d ff ∧ ¬ ff.
Proof.
  intros [Hd Hf] Hc. assert (¬ ff) by (by eapply no_new_fault_faulty).
  split; [|done]. split; [done|]. by intros ?.
Qed.

Lemma tx_view_consume conn c w : tx_view conn (consume c w) = tx_view conn w.
Proof. reflexivity. Qed.

Lemma tx_view_with_redis conn r w : tx_view conn (with_redis r w) = tx_view conn w.
Proof. reflexivity. Qed.

Lemma tx_view_with_uuid_next conn n w :
  tx_view conn (with_uuid_next n w) = tx_view conn w.
Proof. reflexivity. Qed.

Lemma tx_view_with_console conn l w :
  tx_view conn (with_console l w) = tx_view conn w.
Proof. reflexivity. Qed.
End Reasoning.

Global Arguments wp : simpl never.
Global Arguments run : simpl never.
Global Arguments bind : simpl never.
Global Arguments try_catch : simpl never.
Global Arguments try_finally : simpl never.
Global Arguments call : simpl never.
Global Arguments ret : simpl never.
Global Arguments throw : simpl never.
Global Arguments throw_if : simpl never.
Global Arguments throw_unless : simpl never.
Global Arguments lockKey : simpl never.
Global Arguments cacheKey : simpl never.

Create HintDb at_state discriminated.
#[global] Hint Resolve at_state_consume at_state_with_redis at_state_with_uuid_next
  at_state_with_console at_state_with_published at_state_tx_write
  at_state_refuse err_state_refuse
  at_state_err err_state_consume err_state_with_txs err_state_with_console
  is_put_product is_put_order is_put_orderItem is_put_eventLog : at_state.

(** [issues_call_tac]: the side condition of one awaited command. *)
Ltac issues_call_tac :=
  lazymatch goal with
  | |- @issues _ _ ?P (@call _ ?c) =>
      apply (proj2 (issues_call P c)); by repeat split
  end.

(** [wp_call_tac]: one [await]; an I/O command leaves the case where the
    client library throws and the case where it answers. *)
Ltac wp_call_tac :=
  lazymatch goal with
  | |- @wp _ _ ?conn (@call _ ?c) ?Q ?w =>
      first [ apply (wp_call_pure conn c Q w); [reflexivity|]
            | apply (wp_call conn c Q w); intros ? ]
  end.

(** [wp_nofault Hf]: the client library cannot have thrown, as no fault is
    pending ([Hf : faults w = []]). *)
Ltac wp_nofault Hf :=
  lazymatch goal with
  | Hc : faulty _ _ = true |- _ =>
      exfalso; rewrite faulty_nil in Hc; [discriminate|simpl; by rewrite Hf]
  end.

(** [wp_norm H]: state the answer of the last [await] in terms of what
    [H : at_state ...] tracks. *)
Ltac wp_norm H :=
  simpl;
  rewrite ?tx_view_consume, ?tx_view_with_redis, ?tx_view_with_uuid_next,
          ?tx_view_with_console;
  let Hd := fresh in let Hv := fresh in let Hr := fresh in
  pose proof H as (Hd & _ & Hv & Hr & _);
  rewrite ?Hd, ?Hv, ?Hr; clear Hd Hv Hr.

(** [wp_fault H]: the case where the client library threw. *)
Ltac wp_fault H :=
  lazymatch goal with
  | Hf : faulty ?c ?w = true |- _ =>
      first [ destruct (at_state_fault _ c w _ _ _ _ H Hf) as ([??]&?&?)
            | destruct (err_state_fault c w _ _ H Hf) as ([??]&?) ]
  end.

(** [wp_forget H]: after an [await], keep of the new world what [at_state]
    tracks and forget how it was built. *)
Ltac wp_forget H :=
  lazymatch goal with
  | |- wp ?conn _ _ ?w1 =>
      let H' := fresh "Hst" in
      assert (H' : at_state conn w1 _ _ _ _) by (eauto 10 with at_state);
      generalize H'; clear H'; generalize w1; clear H;
      let w' := fresh "w" in intros w' H
  end.

(** ** [createOrder], step by step *)

Section CreateOrder.
Context {num : Type} `{!JsRuntime num}.
Implicit Types (w : World num) (c : Cmd num) (V : gmap string (Product num)).

Lemma find_product_Some V pid p : find_product V pid = Some p → p_id p = pid.
Proof.
  unfold find_product. destruct (V !! pid) as [p'|]; [|done].
  case_decide; [|done]. congruence.
Qed.

Lemma find_product_insert V p pid :
  find_product (<[p_id p := p]> V) pid =
    if decide (p_id p = pid) then Some p else find_product V pid.
Proof.
  unfold find_product. case_decide as Hp.
  - subst pid. rewrite lookup_insert_eq. by case_decide.
  - by rewrite lookup_insert_ne.
Qed.

Lemma reserve_0 (p : Product num) : reserve 0 p = p.
Proof. destruct p. unfold reserve. simpl. f_equal; lia. Qed.

Lemma reserve_reserve q1 q2 (p : Product num) :
  reserve q2 (reserve q1 p) = reserve (q1 + q2) p.
Proof. unfold reserve. simpl. f_equal; lia. Qed.

Lemma reserved_view_nil V : reserved_view [] V V.
Proof.
  intros pid. simpl. destruct (find_product V pid); simpl; [|done].
  by rewrite reserve_0.
Qed.

Lemma reserved_view_cons it items V V' p :
  find_product V (productId it) = Some p →
  reserved_view items (<[p_id p := reserve (quantity it) p]> V) V' →
  reserved_view (it :: items) V V'.
Proof.
  intros Hp Hv pid. rewrite Hv. simpl.
  pose proof (find_product_insert V (reserve (quantity it) p) pid) as Hi.
  simpl in Hi. rewrite Hi. apply find_product_Some in Hp as Hid.
  rewrite Hid. destruct (decide (productId it = pid)) as [<-|Hd].
  - rewrite Hp. simpl. by rewrite reserve_reserve.
  - destruct (find_product V pid); simpl; [|done]. do 2 f_equal.
Qed.

Lemma reserved_view_price items V V' pid :
  reserved_view items V V' →
  p_price <$> find_product V' pid = p_price <$> find_product V pid.
Proof. intros Hv. rewrite Hv. by destruct (find_product V pid). Qed.

Lemma order_total_ext V V' items acc :
  (∀ pid, p_price <$> find_product V' pid = p_price <$> find_product V pid) →
  order_total V' items acc = order_total V items acc.
Proof.
  intros Hp. revert acc. induction items as [|it items IH]; intros acc; [done|].
  simpl. specialize (Hp (productId it)).
  destruct (find_product V' (productId it)) as [p'|],
           (find_product V (productId it)) as [p|]; simplify_eq/=; try done.
  rewrite Hp. apply IH.
Qed.

Lemma order_total_found V items acc tp it :
  order_total V items acc = Some tp → it ∈ items →
  is_Some (find_product V (productId it)).
Proof.
  revert acc. induction items as [|it' items IH]; intros acc Htot Hin.
  - by apply elem_of_nil in Hin.
  - simpl in Htot. destruct (find_product V (productId it')) as [p|] eqn:Hp; [|done].
    apply elem_of_cons in Hin as [->|Hin]; [by rewrite Hp|]. by eapply IH.
Qed.

Lemma item_error_first V r faulted it items e :
  item_error V faulted it e → reserve_error V r faulted (it :: items) e.
Proof.
  destruct e; simpl; try done.
  - intros [Hid Hp]. by exists [], it, items.
  - intros (p & Hq & Hp & Hn & Ha & Hlt). exists [], it, items, p.
    simpl. repeat split; try done. lia.
Qed.

Lemma reserve_error_cons V r r1 faulted it items p e :
  find_product V (productId it) = Some p → r1 ⊆ r →
  reserve_error (<[p_id p := reserve (quantity it) p]> V) r1 faulted items e →
  reserve_error V r faulted (it :: items) e.
Proof.
  intros Hp Hr. apply find_product_Some in Hp as Hid.
  destruct e; simpl; try done.
  - intros (pre & it' & post & -> & Hpid & Hlk).
    exists (it :: pre), it', post. repeat split; try done.
    by eapply lookup_weaken_is_Some.
  - intros (pre & it' & post & -> & Hpid & Hnone).
    exists (it :: pre), it', post. repeat split; try done.
    pose proof (find_product_insert V (reserve (quantity it) p) productId0) as Hi.
    simpl in Hi. rewrite Hi in Hnone. by case_decide.
  - intros (pre & it' & post & p1 & -> & Hq & Hp1 & Hn & Ha & Hlt).
    pose proof (find_product_insert V (reserve (quantity it) p) (productId it')) as Hi.
    simpl in Hi. rewrite Hi, Hid in Hp1.
    destruct (decide (productId it = productId it')) as [Heq|Hne].
    + simplify_eq/=. exists (it :: pre), it', post, p.
      rewrite <-Heq. repeat split; try done.
      * simpl. rewrite decide_True by done. lia.
      * simpl in *. rewrite Heq in *. lia.
    + exists (it :: pre), it', post, p1. repeat split; try done.
      simpl. rewrite decide_False by done. lia.
Qed.

Lemma stock_suffices_cons it items V p :
  find_product V (productId it) = Some p → quantity it ≤ p_stock p →
  stock_suffices items (<[p_id p := reserve (quantity it) p]> V) →
  stock_suffices (it :: items) V.
Proof.
  intros Hp Hge Hs pid p0 Hp0 Hpos. simpl.
  pose proof (find_product_insert V (reserve (quantity it) p) pid) as Hi.
  simpl in Hi. apply find_product_Some in Hp as Hid. rewrite Hid in Hi, Hs.
  destruct (decide (productId it = pid)) as [<-|Hd].
  - simplify_eq. specialize (Hs _ _ Hi). simpl in Hs. lia.
  - rewrite Hp0 in Hi. specialize (Hs _ _ Hi Hpos). lia.
Qed.

Lemma lock_cycle_subseteq (r : gmap string RedisEntry) lk ck e :
  delete lk (delete ck (<[lk := e]> r)) ⊆ r.
Proof.
  rewrite (delete_delete _ lk ck), delete_insert_eq.
  etrans; apply delete_subseteq.
Qed.

Lemma reserveUnderLock_spec conn it res tp w d v r ff :
  at_state conn w d v r ff →
  wp conn (reserveUnderLock it res tp) (λ res w',
    match res with
    | Ok st =>
        ∃ p, find_product (products v) (productId it) = Some p ∧
          quantity it ≤ p_stock p ∧
          at_state conn w' d (put_product (reserve (quantity it) p) v)
                   (delete (cacheKey (productId it)) r) ff ∧
          st.2 = nadd tp (nmul (p_price p) (quantity it))
    | Err e =>
        (∃ v' r', at_state conn w' d v' r' ff ∧ r' ⊆ r) ∧
        item_error (products v) (¬ ff) it e
    end) w.
Proof.
  intros Hst. unfold reserveUnderLock.
  apply wp_bind. wp_call_tac.
  { split; [eauto 10 with at_state|]. simpl. wp_fault Hst. done. }
  wp_norm Hst. wp_forget Hst.
  apply wp_bind, wp_throw_unless.
  { intros Hp. split; [eauto 10|]. done. }
  intros p Hp.
  apply wp_bind, wp_throw_if.
  { intros Hlt%Z.ltb_lt. split; [eauto 10|]. simpl. eauto 10. }
  intros Hge%Z.ltb_ge.
  apply wp_bind. wp_call_tac.
  { split; [eauto 10 with at_state|]. simpl. wp_fault Hst. done. }
  wp_norm Hst. wp_forget Hst.
  apply wp_bind. wp_call_tac.
  { split; [|simpl; wp_fault Hst; done].
    eexists _, _. split; [eauto 10 with at_state|done]. }
  wp_norm Hst. wp_forget Hst. apply wp_ret.
  exists p. done.
Qed.

Lemma reserveItems_spec conn items : ∀ res tp w d v r ff,
  at_state conn w d v r ff →
  wp conn (reserveItems items res tp) (λ res w',
    match res with
    | Ok st =>
        ∃ v' r', at_state conn w' d v' r' ff ∧ r' ⊆ r ∧ same_rows v v' ∧
          reserved_view items (products v) (products v') ∧
          stock_suffices items (products v) ∧
          order_total (products v) items tp = Some st.2
    | Err e => err_state w' d ff ∧ reserve_error (products v) r (¬ ff) items e
    end) w.
Proof.
  induction items as [|it items IH]; intros res tp w d v r ff Hst.
  - apply wp_ret. exists v, r. split; [done|]. split; [done|]. split; [done|].
    split; [apply reserved_view_nil|]. split; [|done].
    intros pid p _ ?. simpl. lia.
  - cbn [reserveItems].
    apply wp_bind. wp_call_tac. wp_norm Hst. wp_forget Hst.
    apply wp_bind. wp_call_tac.
    { wp_fault Hst. done. }
    wp_norm Hst.
    destruct (bool_decide (is_Some (r !! lockKey (productId it)))) eqn:Hlk; simpl.
    { apply bool_decide_eq_true in Hlk. apply wp_bind, wp_throw_if; [intros _|done].
      split; [eauto with at_state|]. by exists [], it, items. }
    clear Hlk. wp_forget Hst. apply wp_bind, wp_throw_if; [done|intros _].
    apply wp_bind, wp_try_finally.
    eapply wp_mono; [by apply reserveUnderLock_spec|].
    intros [st|e] wl.
    + intros (p & Hp & Hge & Hst1 & Htp).
      wp_call_tac.
      { wp_fault Hst1. done. }
      wp_norm Hst1. wp_forget Hst1.
      eapply wp_mono; [by apply IH|].
      pose proof (lock_cycle_subseteq r (lockKey (productId it))
                    (cacheKey (productId it))
                    (mkRedisEntry (uuid_source w (uuid_next w)) (Some STOCK_LOCK_TTL)))
        as Hsub.
      intros [st'|e] w'; simpl.
      * intros (v' & r' & Hst' & Hr' & Hrows & Hview & Hsuf & Htot).
        exists v', r'. split; [done|]. split; [by etrans|].
        split; [done|]. split; [by eapply reserved_view_cons|].
        split; [by eapply stock_suffices_cons|].
        rewrite Hp. simpl. rewrite <-Htot, <-Htp.
        symmetry. apply order_total_ext. intros pid.
        pose proof (find_product_insert (products v) (reserve (quantity it) p) pid) as Hi.
        simpl in Hi. rewrite Hi. case_decide as Hd; [|done].
        apply find_product_Some in Hp as Hid. rewrite <-Hd, Hid, Hp. done.
      * intros [Hd He]. split; [done|]. by eapply reserve_error_cons.
    + intros [(v' & r' & Hst' & Hr') He].
      wp_call_tac.
      { wp_fault Hst'. done. }
      simpl. split; [eauto with at_state|]. by apply item_error_first.
Qed.

Lemma products_put_orderItems its (d : Db num) :
  products (put_orderItems its d) = products d.
Proof. revert d. induction its as [|i its IH]; intros d; [done|]. simpl. by rewrite IH. Qed.

Lemma createOrderItems_spec conn oid items : ∀ acc w d v r ff,
  at_state conn w d v r ff →
  wp conn (createOrderItems oid items acc) (λ res w',
    match res with
    | Ok l =>
        ∃ its, l = acc ++ its ∧
          at_state conn w' d (put_orderItems its v) r ff ∧
          Forall2 (item_of oid (products v)) its items
    | Err e => err_state w' d ff ∧ persist_error (products v) (¬ ff) items e
    end) w.
Proof.
  induction items as [|it items IH]; intros acc w d v r ff Hst.
  - apply wp_ret. exists []. rewrite app_nil_r.
    split; [done|]. split; [done|]. constructor.
  - cbn [createOrderItems].
    apply wp_bind. wp_call_tac.
    { wp_fault Hst. split; [done|]. by left. }
    wp_norm Hst. wp_forget Hst.
    apply wp_bind. wp_call_tac. wp_norm Hst. wp_forget Hst.
    apply wp_bind, wp_throw_unless.
    { intros Hp. split; [eauto with at_state|].
      right. split; [done|]. exists it. split; [left|done]. }
    intros p Hp.
    apply wp_bind. wp_call_tac.
    { wp_fault Hst. split; [done|]. by left. }
    wp_norm Hst. wp_forget Hst.
    eapply wp_mono; [by apply IH|].
    intros [l|e] w'; simpl.
    + intros (its & -> & Hst' & Hits). eexists (_ :: its).
      rewrite <-app_assoc. split; [done|]. split; [done|].
      constructor; [|done]. unfold item_of. simpl. by rewrite Hp.
    + intros (Hd & He). split; [done|].
      destruct He as [He|[-> (it' & Hin & Hnone)]]; [by left|right].
      split; [done|]. exists it'. split; [by right|done].
Qed.

Lemma persistOrder_spec conn data tp w d v r ff :
  at_state conn w d v r ff →
  wp conn (persistOrder data tp) (λ res w',
    match res with
    | Ok saved =>
        ∃ its l,
          db w' = put_eventLog l (put_orderItems its (put_order saved.1 v)) ∧
          redis w' = r ∧ no_new_fault ff w' ∧
          o_userId saved.1 = userId data ∧ o_status saved.1 = PENDING ∧
          o_totalPrice saved.1 = tp ∧
          Forall2 (item_of (o_id saved.1) (products v)) its (items data) ∧
          e_orderId l = o_id saved.1 ∧ e_eventType l = ORDER_CREATED ∧
          e_payload l = PayloadCreated (items data) tp
    | Err e => err_state w' d ff ∧ persist_error (products v) (¬ ff) (items data) e
    end) w.
Proof.
  intros Hst. unfold persistOrder.
  apply wp_bind. wp_call_tac. wp_norm Hst. wp_forget Hst.
  apply wp_bind. wp_call_tac. wp_norm Hst. wp_forget Hst.
  apply wp_bind. wp_call_tac. wp_norm Hst. wp_forget Hst.
  apply wp_bind. wp_call_tac.
  { wp_fault Hst. split; [done|]. by left. }
  wp_norm Hst. wp_forget Hst.
  apply wp_bind. eapply wp_mono; [by apply createOrderItems_spec|].
  intros [l|e] w'; [|done].
  intros (its & _ & Hst' & Hits). clear Hst.
  apply wp_bind. wp_call_tac. wp_norm Hst'. wp_forget Hst'.
  apply wp_bind. wp_call_tac.
  { wp_fault Hst'. split; [done|]. by left. }
  wp_norm Hst'. wp_forget Hst'.
  apply wp_bind. wp_call_tac.
  { wp_fault Hst'. split; [done|]. by left. }
  wp_norm Hst'.
  apply wp_bind. wp_call_tac. simpl. apply wp_ret. simpl.
  eexists its, _. split; [done|].
  destruct Hst' as (?&?&?&?&Hf). split; [done|].
  split; [intros Hff; simpl; by rewrite (Hf Hff)|]. done.
Qed.
End CreateOrder.

Section CreateOrderSpec.
Context {num : Type} `{!JsRuntime num}.
Implicit Types (w : World num) (c : Cmd num) (V : gmap string (Product num)).

Lemma handle_quiet conn c w : is_quiet c = true → stores_eq (handle conn c w).2 w.
Proof.
  destruct c; try done; intros _; unfold handle, faulty; simpl;
    repeat case_match; done.
Qed.

Lemma issues_publishOrderCreated data o ref tp :
  issues (λ c, is_quiet c = true) (publishOrderCreated data o ref tp).
Proof.
  unfold publishOrderCreated, publishToExchange, assertExchange.
  apply issues_try_catch; [|intros; issues_call_tac].
  apply issues_bind; [issues_call_tac|intros].
  apply issues_bind; [|intros; issues_call_tac].
  apply issues_bind; [issues_call_tac|intros].
  apply issues_bind.
  { apply issues_bind; [issues_call_tac|intros; issues_call_tac]. }
  intros. apply issues_bind; [issues_call_tac|intros [|]]; [constructor|issues_call_tac].
Qed.

(** Step 7 never throws and touches neither store. *)
Lemma publishOrderCreated_spec conn data o ref tp w :
  wp conn (publishOrderCreated data o ref tp)
     (λ r w', r = Ok tt ∧ stores_eq w' w) w.
Proof.
  unfold wp. split.
  - unfold publishOrderCreated. rewrite run_try_catch.
    destruct (run conn _ w).1 as [[]|e]; [done|]. cbv beta.
    by rewrite (run_call conn (ConsoleError "Warning: Failed to publish order event:" e)).
  - apply (wp_issues (λ c, is_quiet c = true) (λ w', stores_eq w' w) conn _ w);
      [apply issues_publishOrderCreated| |done].
    intros c w' Hc (?&?&?&?&?&?&?).
    destruct (handle_quiet conn c w' Hc) as (?&?&?&?&?&?&?).
    repeat split; congruence.
Qed.

Lemma orders_put_orderItems its (d : Db num) :
  orders (put_orderItems its d) = orders d.
Proof. revert d. induction its as [|i its IH]; intros d; [done|]. simpl. by rewrite IH. Qed.

Lemma users_put_orderItems its (d : Db num) :
  users (put_orderItems its d) = users d.
Proof. revert d. induction its as [|i its IH]; intros d; [done|]. simpl. by rewrite IH. Qed.

Lemma eventLogs_put_orderItems its (d : Db num) :
  eventLogs (put_orderItems its d) = eventLogs d.
Proof. revert d. induction its as [|i its IH]; intros d; [done|]. simpl. by rewrite IH. Qed.

Lemma orderItems_put_orderItems its (d : Db num) :
  orderItems (put_orderItems its d) =
    foldl (λ m i, <[oi_id i := i]> m) (orderItems d) its.
Proof. revert d. induction its as [|i its IH]; intros d; [done|]. simpl. by rewrite IH. Qed.

Lemma item_of_ext oid V V' its items :
  (∀ pid, p_price <$> find_product V' pid = p_price <$> find_product V pid) →
  Forall2 (item_of oid V') its items → Forall2 (item_of oid V) its items.
Proof.
  intros Hp Hits. eapply Forall2_impl; [exact Hits|].
  intros i req (?&?&?&?&Hpr). repeat split; try done. by rewrite <-Hp.
Qed.

(** The running sum of step 2 is the sum over the items of step 4. *)
Lemma order_total_items oid V its items : ∀ acc,
  Forall2 (item_of oid V) its items →
  order_total V items acc =
    Some (foldl (λ acc i, nadd acc (nmul (oi_unitPrice i) (oi_quantity i))) acc its).
Proof.
  intros acc Hits. revert acc.
  induction Hits as [|i req its items (_&_&Hq&_&Hpr) _ IH]; intros acc; [done|].
  simpl. destruct (find_product V (productId req)) as [p|]; [|done].
  simpl in *. rewrite IH. injection Hpr as ->. by rewrite Hq.
Qed.

Lemma createOrderBody_spec conn data w d r ff :
  at_state conn w d d r ff →
  wp conn (createOrderBody data) (λ res w',
    match res with
    | Ok o => createOrder_ok d (db w') data o ∧ redis w' ⊆ r ∧ no_new_fault ff w'
    | Err e => err_state w' d ff ∧ createOrder_error d r (¬ ff) data e
    end) w.
Proof.
  intros Hst. unfold createOrderBody.
  apply wp_bind. wp_call_tac.
  { by wp_fault Hst. }
  wp_norm Hst. wp_forget Hst.
  apply wp_bind, wp_throw_unless.
  { intros Hu. case_decide; [done|]. split; [eauto with at_state|done]. }
  intros u Hu. case_decide as Huser; [clear u Hu|done].
  apply wp_bind. eapply wp_mono; [by apply reserveItems_spec|].
  intros [st|e] w1; simpl.
  2:{ intros [He Hre]. split; [done|]. by destruct e. }
  intros (v1 & r1 & Hst1 & Hr1 & Hrows & Hview & Hsuf & Htot). clear Hst.
  apply wp_bind. eapply wp_mono; [by apply persistOrder_spec|].
  intros [saved|e] w2; simpl.
  2:{ intros [He [[-> Hf]|[-> (it & Hin & Hnone)]]]; [done|].
      destruct (order_total_found _ _ _ _ it Htot Hin) as [p Hp].
      by rewrite Hview, Hp in Hnone. }
  intros (its & l & Hdb & Hr2 & Hf2 & Huid & Hstatus & Htp & Hits & Hl1 & Hl2 & Hl3).
  apply wp_bind. eapply wp_mono; [apply publishOrderCreated_spec|].
  intros res w3 (-> & Hdb3 & _ & Hr3 & _ & _ & _ & Hf3). apply wp_ret.
  assert (Forall2 (item_of (o_id saved.1) (products d)) its (items data)) as Hits'.
  { eapply item_of_ext; [|done]. intros pid. by eapply reserved_view_price. }
  destruct Hrows as (Hu1 & Ho1 & Hi1 & Hl).
  split; [|split; [by rewrite Hr3, Hr2 | intros ?; rewrite Hf3; by apply Hf2]].
  exists its, l. rewrite Hdb3, Hdb. simpl.
  rewrite users_put_orderItems, products_put_orderItems, orders_put_orderItems,
          orderItems_put_orderItems, eventLogs_put_orderItems. simpl.
  rewrite Hu1, Ho1, Hi1, Hl, Htp.
  repeat split; try done.
  rewrite (order_total_items _ _ _ _ _ Hits') in Htot. by simplify_eq.
Qed.

(** [createOrder] from any world: what it has committed when it returns,
    and why it threw when it throws. *)
Lemma createOrder_spec conn data w :
  wp conn (createOrder data) (λ res w',
    match res with
    | Ok o => createOrder_ok (db w) (db w') data o ∧ redis w' ⊆ redis w
    | Err e =>
        db w' = db w ∧ createOrder_error (db w) (redis w) (faults w ≠ []) data e
    end) w.
Proof.
  assert (err_state w (db w) (faults w = [])) as Hst0
    by (split; [done|by intros ?]).
  unfold createOrder.
  apply wp_bind. wp_call_tac.
  { by wp_fault Hst0. }
  simpl. apply wp_bind. wp_call_tac.
  { assert (err_state (consume QrConnect w) (db w) (faults w = [])) as Hst1
      by eauto with at_state.
    by wp_fault Hst1. }
  simpl.
  apply wp_try_finally, wp_try_catch.
  eapply wp_mono.
  { apply (createOrderBody_spec _ _ _ (db w) (redis w) (faults w = [])).
    repeat split; simpl.
    - unfold tx_open. simpl. rewrite lookup_insert_eq. eauto.
    - unfold tx_view. simpl. rewrite lookup_insert_eq. apply overlay_empty.
    - intros Hf. simpl. by rewrite Hf. }
  intros [o|e] w1; simpl.
  - intros (Hok & Hr & Hf). by wp_call_tac.
  - intros [Hst He]. unfold rollbackAndRethrow.
    apply wp_bind. wp_call_tac.
    { wp_fault Hst. by wp_call_tac. }
    simpl. apply wp_bind. wp_call_tac. simpl. apply wp_throw.
    wp_call_tac. simpl. split; [by destruct Hst|].
    destruct e; simpl in *; try done.
Qed.
End CreateOrderSpec.

(** ** [cancelOrder], step by step *)

Section CancelOrderSpec.
Context {num : Type} `{!JsRuntime num}.
Implicit Types (w : World num) (c : Cmd num) (V : gmap string (Product num)).

Lemma find_order_Some (t : gmap string (Order num)) id o :
  find_order t id = Some o → o_id o = id ∧ t !! id = Some o.
Proof.
  unfold find_order. destruct (t !! id) as [o'|]; [|done].
  case_decide; [|done]. by intros [= ->].
Qed.

Lemma restore_0 (p : Product num) : restore 0 p = p.
Proof. destruct p. unfold restore. simpl. f_equal; lia. Qed.

Lemma restore_restore q1 q2 (p : Product num) :
  restore q2 (restore q1 p) = restore (q1 + q2) p.
Proof. unfold restore. simpl. f_equal; lia. Qed.

Lemma restored_view_nil V : restored_view [] V V.
Proof.
  intros pid. simpl. destruct (find_product V pid); simpl; [|done].
  by rewrite restore_0.
Qed.

Lemma restored_view_cons_Some i its V V' p :
  find_product V (oi_productId i) = Some p →
  restored_view its (<[p_id p := restore (oi_quantity i) p]> V) V' →
  restored_view (i :: its) V V'.
Proof.
  intros Hp Hv pid. rewrite Hv. simpl.
  pose proof (find_product_insert V (restore (oi_quantity i) p) pid) as Hi.
  simpl in Hi. rewrite Hi. apply find_product_Some in Hp as Hid.
  rewrite Hid. destruct (decide (oi_productId i = pid)) as [<-|Hd].
  - rewrite Hp. simpl. by rewrite restore_restore.
  - destruct (find_product V pid); simpl; [|done]. do 2 f_equal.
Qed.

Lemma restored_view_cons_None i its V V' :
  find_product V (oi_productId i) = None →
  restored_view its V V' → restored_view (i :: its) V V'.
Proof.
  intros Hp Hv pid. rewrite Hv. simpl.
  destruct (decide (oi_productId i = pid)) as [<-|Hd].
  - by rewrite Hp.
  - destruct (find_product V pid); simpl; [|done]. do 2 f_equal.
Qed.

Lemma restoreStock_spec conn its : ∀ w d v r ff,
  at_state conn w d v r ff →
  wp conn (restoreStock its) (λ res w',
    match res with
    | Ok _ =>
        ∃ v' r', at_state conn w' d v' r' ff ∧ r' ⊆ r ∧ same_rows v v' ∧
          restored_view its (products v) (products v')
    | Err e => err_state w' d ff ∧ e = EDriver ∧ ¬ ff
    end) w.
Proof.
  induction its as [|i its IH]; intros w d v r ff Hst.
  - apply wp_ret. exists v, r. split; [done|]. split; [done|]. split; [done|].
    apply restored_view_nil.
  - cbn [restoreStock].
    apply wp_bind. wp_call_tac.
    { by wp_fault Hst. }
    wp_norm Hst. wp_forget Hst.
    destruct (find_product (products v) (oi_productId i)) as [p|] eqn:Hp.
    + apply wp_bind, wp_bind. wp_call_tac.
      { by wp_fault Hst. }
      wp_norm Hst. wp_forget Hst.
      wp_call_tac.
      { by wp_fault Hst. }
      wp_norm Hst. wp_forget Hst.
      eapply wp_mono; [by apply IH|].
      intros [[]|e] w'; simpl; [|done].
      intros (v' & r' & Hst' & Hr' & Hrows & Hview).
      exists v', r'. split; [done|].
      split; [etrans; [done|apply delete_subseteq]|].
      split; [done|]. by eapply restored_view_cons_Some.
    + apply wp_bind, wp_ret.
      eapply wp_mono; [by apply IH|].
      intros [[]|e] w'; simpl; [|done].
      intros (v' & r' & Hst' & Hr' & Hrows & Hview).
      exists v', r'. split; [done|]. split; [done|]. split; [done|].
      by apply restored_view_cons_None.
Qed.

Lemma cancelFound_spec conn orderId o its w d v r ff :
  at_state conn w d v r ff →
  wp conn (cancelFound orderId o its) (λ res w',
    match res with
    | Ok found =>
        ∃ v1 l,
          found = Some (set_status CANCELLED o) ∧ o_status o ≠ CANCELLED ∧
          db w' = put_eventLog l (put_order (set_status CANCELLED o) v1) ∧
          redis w' ⊆ r ∧ same_rows v v1 ∧
          restored_view its (products v) (products v1) ∧
          e_orderId l = orderId ∧ e_eventType l = ORDER_CANCELLED
    | Err e =>
        err_state w' d ff ∧
        match e with
        | EAlreadyCancelled => o_status o = CANCELLED ∧ redis w' = r
        | EDriver => ¬ ff
        | _ => False
        end
    end) w.
Proof.
  intros Hst. unfold cancelFound.
  apply wp_bind, wp_throw_if.
  { intros Hc%bool_decide_eq_true. split; [eauto with at_state|].
    split; [done|]. by destruct Hst as (?&?&?&?&?). }
  intros Hc%bool_decide_eq_false.
  apply wp_bind. eapply wp_mono; [by apply restoreStock_spec|].
  intros [[]|e] w1; simpl.
  2:{ by intros (? & -> & ?). }
  intros (v1 & r1 & Hst1 & Hr1 & Hrows & Hview). clear Hst.
  apply wp_bind. wp_call_tac.
  { by wp_fault Hst1. }
  wp_norm Hst1. wp_forget Hst1.
  apply wp_bind. wp_call_tac. wp_norm Hst1. wp_forget Hst1.
  apply wp_bind. wp_call_tac. wp_norm Hst1. wp_forget Hst1.
  apply wp_bind. wp_call_tac.
  { by wp_fault Hst1. }
  wp_norm Hst1. wp_forget Hst1.
  apply wp_bind. wp_call_tac.
  { by wp_fault Hst1. }
  wp_norm Hst1.
  apply wp_bind. wp_call_tac. simpl. apply wp_ret. simpl.
  eexists v1, _. destruct Hst1 as (?&?&?&Hr&?).
  split; [done|]. split; [done|]. split; [done|].
  split; [by rewrite Hr|]. done.
Qed.

(** [cancelOrder] from any world. *)
Lemma cancelOrder_spec conn orderId w :
  wp conn (cancelOrder orderId) (λ res w',
    match res with
    | Ok None =>
        find_order (orders (db w)) orderId = None ∧
        db w' = db w ∧ redis w' = redis w
    | Ok (Some o') => cancelOrder_ok (db w) (db w') orderId o' ∧ redis w' ⊆ redis w
    | Err e =>
        db w' = db w ∧ cancelOrder_error (db w) (faults w ≠ []) orderId e ∧
        (e = EAlreadyCancelled → redis w' = redis w)
    end) w.
Proof.
  assert (err_state w (db w) (faults w = [])) as Hst0
    by (split; [done|by intros ?]).
  unfold cancelOrder.
  apply wp_bind. wp_call_tac.
  { by wp_fault Hst0. }
  simpl. apply wp_bind. wp_call_tac.
  { assert (err_state (consume QrConnect w) (db w) (faults w = [])) as Hst1
      by eauto with at_state.
    by wp_fault Hst1. }
  simpl.
  apply wp_try_finally, wp_try_catch.
  match goal with |- wp _ _ _ ?w2 =>
    assert (at_state conn w2 (db w) (db w) (redis w) (faults w = [])) as Hst
  end.
  { repeat split; simpl.
    - unfold tx_open. simpl. rewrite lookup_insert_eq. eauto.
    - unfold tx_view. simpl. rewrite lookup_insert_eq. apply overlay_empty.
    - intros Hf. simpl. by rewrite Hf. }
  wp_forget Hst. clear Hst0.
  (* the handler and the release, after the body has thrown *)
  assert (∀ e w1 (P : Prop), err_state w1 (db w) (faults w = []) →
            cancelOrder_error (db w) (faults w ≠ []) orderId e →
            (e = EAlreadyCancelled → redis w1 = redis w) →
            wp conn (rollbackAndRethrow "Error cancelling order:" e)
              (λ (r : Result (option (Order num))) w',
                 wp conn (call QrRelease)
                   (λ rf w'',
                      match rf with
                      | Ok _ =>
                          match r with
                          | Ok _ => P
                          | Err e =>
                              db w'' = db w ∧
                              cancelOrder_error (db w) (faults w ≠ []) orderId e ∧
                              (e = EAlreadyCancelled → redis w'' = redis w)
                          end
                      | Err e => P
                      end) w') w1) as Hcatch.
  { intros e w1 P Herr He Hr. unfold rollbackAndRethrow.
    apply wp_bind. wp_call_tac.
    { wp_fault Herr. by wp_call_tac. }
    simpl. apply wp_bind. wp_call_tac. simpl. apply wp_throw.
    wp_call_tac. simpl. by destruct Herr. }
  unfold cancelOrderBody.
  apply wp_bind. wp_call_tac.
  { wp_fault Hst. eapply wp_mono; [by apply (Hcatch _ _ False)|].
    intros [?|?] w'; simpl; intros Hw; eapply wp_mono; try exact Hw;
      by intros [[]|?] ?. }
  wp_norm Hst. wp_forget Hst.
  destruct (find_order (orders (db w)) orderId) as [o|] eqn:Ho; simpl.
  - apply find_order_Some in Ho as Hoid. destruct Hoid as [Hoid Hlook].
    rewrite Hoid.
    eapply wp_mono; [by apply cancelFound_spec|].
    intros [found|e] wf; simpl.
    + intros (v1 & l & -> & Hnc & Hdb & Hr & Hrows & Hview & Hl1 & Hl2).
      wp_call_tac. simpl. split; [|done].
      exists o, l. rewrite Hdb. destruct Hrows as (Hu1 & Ho1 & Hi1 & Hlg). simpl.
      rewrite Hu1, Ho1, Hi1, Hlg, Hoid. by repeat split.
    + intros [Herr He].
      eapply wp_mono.
      { apply (Hcatch e wf False); [done| |].
        - destruct e; simpl in *; try done. exists o. by destruct He.
        - intros ->. by destruct He. }
      intros [?|?] w'; simpl; intros Hw; eapply wp_mono; try exact Hw;
        by intros [[]|?] ?.
  - apply wp_ret. wp_call_tac. simpl.
    destruct Hst as (?&?&?&?&?). done.
Qed.
End CancelOrderSpec.

(** ** The properties of the order workflow *)

Section OrderWorkflow.
Context {num : Type} `{!JsRuntime num}.
Implicit Types (w : World num) (c : Cmd num) (V : gmap string (Product num)).

Lemma createOrder_cases conn data w :
  match (run conn (createOrder data) w).1 with
  | Ok o =>
      createOrder_ok (db w) (db (run conn (createOrder data) w).2) data o
  | Err e =>
      db (run conn (createOrder data) w).2 = db w ∧
      createOrder_error (db w) (redis w) (faults w ≠ []) data e
  end.
Proof.
  pose proof (createOrder_spec conn data w) as H. unfold wp in H.
  destruct (run conn (createOrder data) w).1; [by destruct H|done].
Qed.

Lemma cancelOrder_cases conn orderId w :
  match (run conn (cancelOrder orderId) w).1 with
  | Ok None =>
      find_order (orders (db w)) orderId = None ∧
      db (run conn (cancelOrder orderId) w).2 = db w
  | Ok (Some o') =>
      cancelOrder_ok (db w) (db (run conn (cancelOrder orderId) w).2) orderId o'
  | Err e =>
      db (run conn (cancelOrder orderId) w).2 = db w ∧
      cancelOrder_error (db w) (faults w ≠ []) orderId e ∧
      (e = EAlreadyCancelled → redis (run conn (cancelOrder orderId) w).2 = redis w)
  end.
Proof.
  pose proof (cancelOrder_spec conn orderId w) as H. unfold wp in H.
  destruct (run conn (cancelOrder orderId) w).1 as [[o'|]|e]; [by destruct H| |done].
  by destruct H as (?&?&?).
Qed.

Lemma createOrder_conserves conn data w pid p :
  find_product (products (db w)) pid = Some p →
  ∃ p', find_product (products (db (run conn (createOrder data) w).2)) pid = Some p' ∧
    p_stock p' + p_reservedStock p' = p_stock p + p_reservedStock p ∧
    (0 ≤ p_stock p → 0 ≤ p_stock p') ∧
    (∀ o, (run conn (createOrder data) w).1 = Ok o →
       p_stock p' = p_stock p - reserved_qty pid (items data) ∧
       p_reservedStock p' = p_reservedStock p + reserved_qty pid (items data)).
Proof.
  intros Hp. pose proof (createOrder_cases conn data w) as H.
  destruct (run conn (createOrder data) w).1 as [o|e].
  - destruct H as (its & l & _ & _ & Hview & Hsuf & _).
    exists (reserve (reserved_qty pid (items data)) p).
    rewrite Hview, Hp. simpl. split; [done|]. split; [lia|].
    split; [by apply Hsuf|]. done.
  - destruct H as [-> _]. exists p. by repeat split.
Qed.

Lemma cancelOrder_conserves conn orderId w pid p :
  find_product (products (db w)) pid = Some p →
  ∃ p', find_product (products (db (run conn (cancelOrder orderId) w).2)) pid = Some p' ∧
    p_stock p' + p_reservedStock p' = p_stock p + p_reservedStock p ∧
    (∀ o', (run conn (cancelOrder orderId) w).1 = Ok (Some o') →
       p_stock p' = p_stock p + restored_qty pid (items_of (orderItems (db w)) orderId) ∧
       p_reservedStock p' =
         p_reservedStock p - restored_qty pid (items_of (orderItems (db w)) orderId)).
Proof.
  intros Hp. pose proof (cancelOrder_cases conn orderId w) as H.
  destruct (run conn (cancelOrder orderId) w).1 as [[o'|]|e].
  - destruct H as (o & l & _ & _ & _ & _ & Hview & _).
    exists (restore (restored_qty pid (items_of (orderItems (db w)) orderId)) p).
    rewrite Hview, Hp. simpl. split; [done|]. split; [lia|done].
  - destruct H as [_ ->]. exists p. by repeat split.
  - destruct H as [-> _]. exists p. by repeat split.
Qed.

(** Served one after another, the orders that are created never reserve
    more of a product than it had in stock. *)
Lemma serial_never_oversells conn pid datas : ∀ w p,
  find_product (products (db w)) pid = Some p → 0 ≤ p_stock p →
  reserved_by conn pid datas w ≤ p_stock p.
Proof.
  induction datas as [|data datas IH]; intros w p Hp Hnn; simpl; [done|].
  destruct (createOrder_conserves conn data w pid p Hp) as (p' & Hp' & _ & Hnn' & Hok).
  specialize (IH _ _ Hp' (Hnn' Hnn)).
  pose proof (createOrder_cases conn data w) as Hc.
  destruct (run conn (createOrder data) w).1 as [o|e].
  - destruct (Hok o eq_refl) as [Hs _]. lia.
  - destruct Hc as [Hdb _]. rewrite Hdb, Hp in Hp'. simplify_eq. lia.
Qed.

(** C2 (stock/reservedStock conservation). Every [createOrder] and every
    [cancelOrder] keeps [stock + reservedStock] of every product: an order
    that is created moves the pair by (-q, +q), with q the quantity its
    lines ask of the product; a cancellation moves it by (+q, -q), with q
    the quantity of the order's items of that product; a request that
    fails leaves the pair as it was.  Hence after any requests served one
    after another the sum is what it was before them. *)
Theorem stock_plus_reserved_conserved conn w pid p :
  find_product (products (db w)) pid = Some p →
  (∀ data,
     ∃ p', find_product (products (db (run conn (createOrder data) w).2)) pid = Some p' ∧
       p_stock p' + p_reservedStock p' = p_stock p + p_reservedStock p ∧
       (∀ o, (run conn (createOrder data) w).1 = Ok o →
          p_stock p' = p_stock p - reserved_qty pid (items data) ∧
          p_reservedStock p' = p_reservedStock p + reserved_qty pid (items data))) ∧
  (∀ orderId,
     ∃ p', find_product (products (db (run conn (cancelOrder orderId) w).2)) pid = Some p' ∧
       p_stock p' + p_reservedStock p' = p_stock p + p_reservedStock p ∧
       (∀ o', (run conn (cancelOrder orderId) w).1 = Ok (Some o') →
          p_stock p' =
            p_stock p + restored_qty pid (items_of (orderItems (db w)) orderId) ∧
          p_reservedStock p' =
            p_reservedStock p - restored_qty pid (items_of (orderItems (db w)) orderId))) ∧
  (∀ rqs,
     ∃ p', find_product (products (db (serve_all conn rqs w))) pid = Some p' ∧
       p_stock p' + p_reservedStock p' = p_stock p + p_reservedStock p).
Proof.
  intros Hp. split; [|split].
  - intros data. destruct (createOrder_conserves conn data w pid p Hp)
      as (p' & ? & ? & _ & ?). by exists p'.
  - intros orderId. apply cancelOrder_conserves, Hp.
  - intros rqs. revert w p Hp.
    induction rqs as [|rq rqs IH]; intros w p Hp; [by exists p|].
    simpl. assert (∃ p1, find_product (products (db (serve conn rq w))) pid = Some p1 ∧
                     p_stock p1 + p_reservedStock p1 = p_stock p + p_reservedStock p)
      as (p1 & Hp1 & Hsum).
    { destruct rq as [data|orderId]; simpl.
      - destruct (createOrder_conserves conn data w pid p Hp) as (p' & ? & ? & _).
        by exists p'.
      - destruct (cancelOrder_conserves conn orderId w pid p Hp) as (p' & ? & ? & _).
        by exists p'. }
    destruct (IH _ _ Hp1) as (p' & ? & ?). exists p'. split; [done|]. lia.
Qed.

(** C8 (prices). For an order that was created: the rows of its items are
    added to the order items, one per requested line and in the order of
    the lines; each has the quantity of its line, as unit price the price
    of the product as it stood when the request reserved the stock, and as
    total price unit price * quantity; the order's total price is the sum
    of unit price * quantity over these items. *)
Theorem createOrder_prices conn data w o :
  (run conn (createOrder data) w).1 = Ok o →
  ∃ its,
    orderItems (db (run conn (createOrder data) w).2) =
      foldl (λ m i, <[oi_id i := i]> m) (orderItems (db w)) its ∧
    orders (db (run conn (createOrder data) w).2) !! o_id o = Some o ∧
    Forall2 (λ i req,
               oi_orderId i = o_id o ∧ oi_productId i = productId req ∧
               oi_quantity i = quantity req ∧
               oi_totalPrice i = nmul (oi_unitPrice i) (oi_quantity i) ∧
               ∃ p, find_product (products (db w)) (productId req) = Some p ∧
                    oi_unitPrice i = p_price p)
            its (items data) ∧
    o_totalPrice o =
      foldl (λ acc i, nadd acc (nmul (oi_unitPrice i) (oi_quantity i))) nzero its.
Proof.
  intros Ho. pose proof (createOrder_cases conn data w) as H.
  rewrite Ho in H.
  destruct H as (its & l & _ & _ & _ & _ & Hord & Hits & _ & _ & _ & Htot & Hitems & _).
  exists its. split; [done|]. split; [by rewrite Hord, lookup_insert_eq|].
  split; [|done].
  eapply Forall2_impl; [exact Hitems|].
  intros i req (?&?&?&?&Hpr). repeat split; try done.
  destruct (find_product (products (db w)) (productId req)) as [p|]; [|done].
  exists p. split; [done|]. by simplify_eq/=.
Qed.

(** Without faults, [createOrder] fails only on one of its checks. *)
Lemma createOrder_succeeds conn data w :
  faults w = [] → userId data ∈ users (db w) →
  (∀ it, it ∈ items data → redis w !! lockKey (productId it) = None) →
  (∀ pre it post, items data = pre ++ it :: post →
     ∃ p, find_product (products (db w)) (productId it) = Some p ∧
          quantity it ≤ p_stock p - reserved_qty (productId it) pre) →
  ∃ o, (run conn (createOrder data) w).1 = Ok o.
Proof.
  intros Hf Hu Hlocks Hstock. pose proof (createOrder_cases conn data w) as H.
  destruct (run conn (createOrder data) w).1 as [o|e]; [by exists o|].
  exfalso. destruct H as [_ He]. destruct e; simpl in He; try done.
  - destruct He as (_ & pre & it & post & Hit & <- & Hlk).
    rewrite Hlocks in Hlk; [by destruct Hlk|].
    rewrite Hit. apply elem_of_app. right. left.
  - destruct He as (_ & pre & it & post & Hit & <- & Hnone).
    destruct (Hstock _ _ _ Hit) as (p & Hp & _). congruence.
  - destruct He as (_ & pre & it & post & p & Hit & <- & Hp & _ & -> & Hlt).
    destruct (Hstock _ _ _ Hit) as (p' & Hp' & Hle). simplify_eq. lia.
Qed.

(** Without faults, an order that is there and not cancelled is cancelled. *)
Lemma cancelOrder_succeeds conn orderId w o :
  faults w = [] → find_order (orders (db w)) orderId = Some o →
  o_status o ≠ CANCELLED →
  (run conn (cancelOrder orderId) w).1 = Ok (Some (set_status CANCELLED o)) ∧
  cancelOrder_ok (db w) (db (run conn (cancelOrder orderId) w).2) orderId
                 (set_status CANCELLED o).
Proof.
  intros Hf Ho Hs. pose proof (cancelOrder_cases conn orderId w) as H.
  destruct (run conn (cancelOrder orderId) w).1 as [[o'|]|e].
  - destruct H as (o0 & l & Ho0 & Hs0 & -> & H). simplify_eq.
    split; [done|]. exists o, l. by repeat split; try apply H.
  - destruct H as [H _]. congruence.
  - destruct H as (_ & H & _). destruct e; simpl in H; try done.
    destruct H as (o0 & ? & ?). by simplify_eq.
Qed.

(** What [cancelOrder] does to an order that is there. *)
Lemma cancelOrder_found conn orderId w o :
  find_order (orders (db w)) orderId = Some o → faults w = [] →
  (o_status o ≠ CANCELLED →
     (run conn (cancelOrder orderId) w).1 = Ok (Some (set_status CANCELLED o)) ∧
     orders (db (run conn (cancelOrder orderId) w).2) =
       <[orderId := set_status CANCELLED o]> (orders (db w)) ∧
     orderItems (db (run conn (cancelOrder orderId) w).2) = orderItems (db w) ∧
     (∀ pid, find_product (products (db (run conn (cancelOrder orderId) w).2)) pid =
               restore (restored_qty pid (items_of (orderItems (db w)) orderId))
                 <$> find_product (products (db w)) pid) ∧
     ∃ l, eventLogs (db (run conn (cancelOrder orderId) w).2) =
            <[e_id l := l]> (eventLogs (db w)) ∧
          e_orderId l = orderId ∧ e_eventType l = ORDER_CANCELLED) ∧
  (o_status o = CANCELLED →
     (run conn (cancelOrder orderId) w).1 = Err EAlreadyCancelled ∧
     db (run conn (cancelOrder orderId) w).2 = db w ∧
     redis (run conn (cancelOrder orderId) w).2 = redis w).
Proof.
  intros Ho Hf. split.
  - intros Hs. destruct (cancelOrder_succeeds conn orderId w o Hf Ho Hs)
      as [Hr (o0 & l & _ & _ & _ & _ & Hview & Hord & Hits & Hlogs & Hl1 & Hl2)].
    split; [done|]. split; [done|]. split; [done|]. split; [done|]. by exists l.
  - intros Hs. pose proof (cancelOrder_cases conn orderId w) as H.
    destruct (run conn (cancelOrder orderId) w).1 as [[o'|]|e].
    + destruct H as (o0 & l & Ho0 & Hs0 & _). by simplify_eq.
    + destruct H as [H _]. congruence.
    + destruct H as (Hd & H & Hr). destruct e; simpl in H; try done.
      by rewrite Hr.
Qed.

(** C10 (items of deleted products). When an item of the order refers to a
    product that is no longer there, [cancelOrder] still returns the
    cancelled order, with the order row set to CANCELLED and the
    ORDER_CANCELLED event log written; for that item nothing is restored
    (no product row appears for it) and nothing is thrown, while the
    products that are there get their quantities back. *)
Theorem cancelOrder_skips_missing_product conn orderId w o i :
  faults w = [] → find_order (orders (db w)) orderId = Some o →
  o_status o ≠ CANCELLED →
  i ∈ items_of (orderItems (db w)) orderId →
  find_product (products (db w)) (oi_productId i) = None →
  (run conn (cancelOrder orderId) w).1 = Ok (Some (set_status CANCELLED o)) ∧
  orders (db (run conn (cancelOrder orderId) w).2) !! orderId =
    Some (set_status CANCELLED o) ∧
  (∃ l, eventLogs (db (run conn (cancelOrder orderId) w).2) !! e_id l = Some l ∧
        e_orderId l = orderId ∧ e_eventType l = ORDER_CANCELLED) ∧
  find_product (products (db (run conn (cancelOrder orderId) w).2)) (oi_productId i) = None ∧
  (∀ pid p, find_product (products (db w)) pid = Some p →
     find_product (products (db (run conn (cancelOrder orderId) w).2)) pid =
       Some (restore (restored_qty pid (items_of (orderItems (db w)) orderId)) p)).
Proof.
  intros Hf Ho Hs Hi Hnone.
  destruct (cancelOrder_found conn orderId w o Ho Hf) as [H _].
  destruct (H Hs) as (Hr & Hord & _ & Hview & l & Hlogs & Hl1 & Hl2).
  split; [done|]. split; [by rewrite Hord, lookup_insert_eq|].
  split; [exists l; by rewrite Hlogs, lookup_insert_eq|].
  split; [by rewrite Hview, Hnone|].
  intros pid p Hp. by rewrite Hview, Hp.
Qed.
End OrderWorkflow.

(** ** The product read path *)

Section ReadPath.
Context {num : Type} `{!JsRuntime num}.
Implicit Types (w : World num) (c : Cmd num).

Lemma getProductById_hit conn pid w e :
  faults w = [] → redis w !! cacheKey pid = Some e → r_value e ≠ "" →
  wp conn (getProductById pid) (λ r w',
    r = match JSON_parse (r_value e) with
        | Some p => Ok (Some p)
        | None => Err EJsonSyntax
        end ∧
    redis w' = redis w ∧ faults w' = [] ∧ read_outcome w w' 0 0) w.
Proof.
  intros Hf He Hne. unfold getProductById, cacheHit.
  apply wp_try_catch, wp_bind. wp_call_tac.
  { wp_nofault Hf. }
  simpl. rewrite He. simpl. rewrite bool_decide_eq_false_2 by done. simpl.
  apply wp_bind. wp_call_tac. simpl.
  apply wp_bind, wp_throw_unless.
  - intros ->. apply wp_bind. wp_call_tac. simpl. apply wp_throw.
    split; [done|]. split; [done|]. split; [simpl; by rewrite Hf|]. split; [done|].
    eexists. split; [simpl; by rewrite <-!app_assoc|done].
  - intros p ->. apply wp_ret.
    split; [done|]. split; [done|]. split; [simpl; by rewrite Hf|]. split; [done|].
    eexists. split; [simpl; by rewrite <-!app_assoc|done].
Qed.

Lemma getProductById_miss conn pid w :
  faults w = [] → truthy (r_value <$> redis w !! cacheKey pid) = false →
  wp conn (getProductById pid) (λ r w',
    r = Ok (find_product (products (db w)) pid) ∧ faults w' = [] ∧
    match find_product (products (db w)) pid with
    | Some p =>
        redis w' = <[cacheKey pid :=
                       mkRedisEntry (JSON_stringify p) (Some PRODUCT_CACHE_TTL)]> (redis w) ∧
        read_outcome w w' 1 1
    | None => redis w' = redis w ∧ read_outcome w w' 1 0
    end) w.
Proof.
  intros Hf He. unfold getProductById, cacheMiss.
  apply wp_try_catch, wp_bind. wp_call_tac.
  { wp_nofault Hf. }
  simpl. rewrite He.
  apply wp_bind. wp_call_tac. simpl.
  apply wp_bind. wp_call_tac.
  { wp_nofault Hf. }
  simpl. destruct (find_product (products (db w)) pid) as [p|].
  - apply wp_bind. wp_call_tac.
    { wp_nofault Hf. }
    simpl. apply wp_bind. wp_call_tac. simpl. apply wp_ret.
    split; [done|]. split; [simpl; by rewrite Hf|]. split; [done|]. split; [done|].
    eexists. split; [simpl; by rewrite <-!app_assoc|done].
  - apply wp_ret.
    split; [done|]. split; [simpl; by rewrite Hf|]. split; [done|]. split; [done|].
    eexists. split; [simpl; by rewrite <-!app_assoc|done].
Qed.

(** C7 (cache-aside read).  With no fault pending: on a hit (the key holds
    a non-empty string) [getProductById] returns what [JSON.parse] makes of
    the cached string, reads no row of the store and leaves Redis as it
    is, the time to live included; on a miss it reads the store once,
    returns null without writing Redis when the product is absent, and
    otherwise returns the product after one write of its serialisation
    under the key with 3600 seconds to live.  So a call on a cold cache
    makes one store read and one cache write, and the call right after it
    makes no store read. *)
Theorem getProductById_cache_aside conn pid w :
  faults w = [] →
  (∀ e, redis w !! cacheKey pid = Some e → r_value e ≠ "" →
     (run conn (getProductById pid) w).1 =
       match JSON_parse (r_value e) with
       | Some p => Ok (Some p)
       | None => Err EJsonSyntax
       end ∧
     redis (run conn (getProductById pid) w).2 = redis w ∧
     read_outcome w (run conn (getProductById pid) w).2 0 0) ∧
  (truthy (r_value <$> redis w !! cacheKey pid) = false →
     (run conn (getProductById pid) w).1 = Ok (find_product (products (db w)) pid) ∧
     match find_product (products (db w)) pid with
     | Some p =>
         redis (run conn (getProductById pid) w).2 =
           <[cacheKey pid := mkRedisEntry (JSON_stringify p) (Some 3600)]> (redis w) ∧
         read_outcome w (run conn (getProductById pid) w).2 1 1
     | None =>
         redis (run conn (getProductById pid) w).2 = redis w ∧
         read_outcome w (run conn (getProductById pid) w).2 1 0
     end) ∧
  (∀ p, redis w !! cacheKey pid = None →
     find_product (products (db w)) pid = Some p → JSON_stringify p ≠ "" →
     read_outcome w (run conn (getProductById pid) w).2 1 1 ∧
     read_outcome (run conn (getProductById pid) w).2
       (run conn (getProductById pid) (run conn (getProductById pid) w).2).2 0 0).
Proof.
  intros Hf. split; [|split].
  - intros e He Hne. pose proof (getProductById_hit conn pid w e Hf He Hne) as H.
    unfold wp in H. by destruct H as (?&?&?&?).
  - intros He. pose proof (getProductById_miss conn pid w Hf He) as H.
    unfold wp in H. by destruct H as (?&?&?).
  - intros p He Hp Hne.
    assert (truthy (r_value <$> redis w !! cacheKey pid) = false) as Hmiss
      by by rewrite He.
    pose proof (getProductById_miss conn pid w Hf Hmiss) as H.
    unfold wp in H. rewrite Hp in H. destruct H as (_ & Hf1 & Hr1 & Hout1).
    split; [done|].
    pose proof (getProductById_hit conn pid (run conn (getProductById pid) w).2
                  (mkRedisEntry (JSON_stringify p) (Some PRODUCT_CACHE_TTL)) Hf1) as H.
    unfold wp in H. rewrite Hr1, lookup_insert_eq in H.
    by destruct (H eq_refl Hne) as (_&_&_&?).
Qed.
End ReadPath.

(** [issues_tac]: the commands a sequence of [await]s may issue. *)
Ltac issues_tac :=
  repeat first
    [ assumption
    | issues_call_tac
    | apply issues_throw_if
    | apply issues_throw_unless
    | apply issues_Ret
    | apply issues_try_finally
    | apply issues_try_catch; [|intros]
    | apply issues_bind; [|intros] ].

(** ** Publishing after the commit *)

Section Publishing.
Context {num : Type} `{!JsRuntime num}.
Implicit Types (w : World num) (c : Cmd num).

Lemma issues_any {A} (p : Prog num A) : issues (λ _, True) p.
Proof. induction p; by constructor. Qed.

Lemma issues_reserveItems items res tp :
  issues (λ c, is_publish c = false) (reserveItems items res tp).
Proof.
  revert res tp. induction items as [|it items IH]; intros res tp;
    cbn [reserveItems]; [apply issues_Ret|].
  unfold reserveUnderLock. issues_tac. apply IH.
Qed.

Lemma issues_createOrderItems oid items acc :
  issues (λ c, is_publish c = false ∧ is_redis c = false)
         (createOrderItems oid items acc).
Proof.
  revert acc. induction items as [|it items IH]; intros acc;
    cbn [createOrderItems]; [apply issues_Ret|].
  issues_tac. apply IH.
Qed.

Lemma issues_persistOrder data tp :
  issues (λ c, is_publish c = false ∧ is_redis c = false) (persistOrder data tp).
Proof. unfold persistOrder. issues_tac. apply issues_createOrderItems. Qed.

Lemma issues_weaken {A} (P P' : Cmd num → Prop) (p : Prog num A) :
  issues P p → (∀ c, P c → P' c) → issues P' p.
Proof. induction 1; constructor; auto. Qed.

Lemma stores_eq_trans w1 w2 w3 : stores_eq w1 w2 → stores_eq w2 w3 → stores_eq w1 w3.
Proof. intros (?&?&?&?&?&?&?) (?&?&?&?&?&?&?). repeat split; congruence. Qed.

Lemma stores_eq_sym w1 w2 : stores_eq w1 w2 → stores_eq w2 w1.
Proof. intros (?&?&?&?&?&?&?). by repeat split. Qed.

(** No command but the publish looks at the channel, at what was
    published or at the console. *)
Lemma handle_stores_eq conn c w1 w2 :
  is_publish c = false → stores_eq w1 w2 →
  (handle conn c w1).1 = (handle conn c w2).1 ∧
  stores_eq (handle conn c w1).2 (handle conn c w2).2.
Proof.
  intros Hc. destruct w1, w2. unfold stores_eq. simpl.
  intros (?&?&?&?&?&?&?). subst.
  unfold handle, faulty. simpl.
  destruct (is_io c && _); [done|].
  destruct c; simpl in *; try done;
    try (unfold tx_write, tx_view; simpl; by destruct (_ !! conn)).
  by destruct (_ && _).
Qed.

Lemma agree_issues {A} conn (p : Prog num A) w1 w2 :
  issues (λ c, is_publish c = false) p → stores_eq w1 w2 → agree conn p w1 w2.
Proof.
  intros Hp. revert w1 w2. induction Hp as [r|c k Hc Hk IH]; intros w1 w2 Hw.
  - done.
  - destruct (handle_stores_eq conn c w1 w2 Hc Hw) as [Hr Hs].
    unfold agree. change (run conn (Vis c k) ?w) with
      (run conn (k (handle conn c w).1) (handle conn c w).2).
    rewrite Hr. by apply IH.
Qed.

Lemma agree_bind {A B} conn (p : Prog num A) (f : A → Prog num B) w1 w2 :
  agree conn p w1 w2 →
  (∀ a w1' w2', stores_eq w1' w2' → agree conn (f a) w1' w2') →
  agree conn (bind p f) w1 w2.
Proof.
  intros [Hr Hs] Hf. unfold agree. rewrite !run_bind, Hr.
  destruct (run conn p w2).1; [by apply Hf|done].
Qed.

Lemma agree_try_catch {A} conn (p : Prog num A) h w1 w2 :
  agree conn p w1 w2 →
  (∀ e w1' w2', stores_eq w1' w2' → agree conn (h e) w1' w2') →
  agree conn (try_catch p h) w1 w2.
Proof.
  intros [Hr Hs] Hf. unfold agree. rewrite !run_try_catch, Hr.
  destruct (run conn p w2).1; [done|by apply Hf].
Qed.

Lemma agree_try_finally {A} conn (p : Prog num A) f w1 w2 :
  agree conn p w1 w2 →
  (∀ w1' w2', stores_eq w1' w2' → agree conn f w1' w2') →
  agree conn (try_finally p f) w1 w2.
Proof.
  intros [Hr Hs] Hf. unfold agree. rewrite !run_try_finally, Hr.
  destruct (Hf _ _ Hs) as [Hr' Hs']. rewrite Hr'.
  by destruct (run conn f (run conn p w2).2).1.
Qed.

Lemma agree_publish conn data o ref tp w1 w2 :
  stores_eq w1 w2 → agree conn (publishOrderCreated data o ref tp) w1 w2.
Proof.
  intros Hw.
  pose proof (publishOrderCreated_spec conn data o ref tp w1) as H1.
  pose proof (publishOrderCreated_spec conn data o ref tp w2) as H2.
  unfold wp in *. destruct H1 as (Hr1 & Hs1), H2 as (Hr2 & Hs2).
  split; [congruence|].
  eapply stores_eq_trans; [done|]. eapply stores_eq_trans; [done|].
  by apply stores_eq_sym.
Qed.

(** What [createOrder] returns and leaves in the stores does not depend
    on the channel, on what was published or on what was logged. *)
Lemma agree_createOrder conn data w1 w2 :
  stores_eq w1 w2 → agree conn (createOrder data) w1 w2.
Proof.
  intros Hw. unfold createOrder.
  apply agree_bind; [apply agree_issues; [issues_tac|done]|intros _ w1a w2a Ha].
  apply agree_bind; [apply agree_issues; [issues_tac|done]|intros _ w1b w2b Hb].
  apply agree_try_finally; [|intros; apply agree_issues; [issues_tac|done]].
  apply agree_try_catch;
    [|intros; apply agree_issues; [unfold rollbackAndRethrow; issues_tac|done]].
  unfold createOrderBody.
  apply agree_bind; [apply agree_issues; [issues_tac|done]|intros user w1c w2c Hc].
  apply agree_bind; [apply agree_issues; [issues_tac|done]|intros _ w1d w2d Hd].
  apply agree_bind;
    [apply agree_issues; [apply issues_reserveItems|done]|intros st w1e w2e He].
  apply agree_bind; [apply agree_issues; [|done]|intros saved w1f w2f Hf].
  { eapply issues_weaken; [apply issues_persistOrder|]. by intros c []. }
  apply agree_bind; [by apply agree_publish|intros _ w1g w2g Hg].
  by apply agree_issues; [issues_tac|].
Qed.

(** No command but those of the publish touches the broker side. *)
Lemma handle_broker_is conn c w ch a l :
  is_publish c = false → broker_is ch a l w → broker_is ch a l (handle conn c w).2.
Proof.
  intros Hc (Hch & Ha & Hp). unfold handle, broker_is. destruct (faulty c w); [done|].
  destruct c; simpl in *; try done;
    try (destruct (tx_write_rest conn (put_product p) (consume (QrSaveProduct p) w))
           as (_&->&->&_);
         by destruct (tx_write_oracles conn (put_product p) (consume (QrSaveProduct p) w))
           as (->&_));
    try (destruct (tx_write_rest conn (put_order o) (consume (QrSaveOrder o) w))
           as (_&->&->&_);
         by destruct (tx_write_oracles conn (put_order o) (consume (QrSaveOrder o) w))
           as (->&_));
    try (destruct (tx_write_rest conn (put_orderItem i) (consume (QrSaveOrderItem i) w))
           as (_&->&->&_);
         by destruct (tx_write_oracles conn (put_orderItem i) (consume (QrSaveOrderItem i) w))
           as (->&_));
    try (destruct (tx_write_rest conn (put_eventLog l0) (consume (QrSaveEventLog l0) w))
           as (_&->&->&_);
         by destruct (tx_write_oracles conn (put_eventLog l0) (consume (QrSaveEventLog l0) w))
           as (->&_)).
  by destruct (_ && _).
Qed.

Lemma wp_broker_is {A} conn (p : Prog num A) w ch a l :
  issues (λ c, is_publish c = false) p → broker_is ch a l w →
  wp conn p (λ _ w', broker_is ch a l w') w.
Proof.
  intros Hp Hw.
  apply (wp_issues (λ c, is_publish c = false) (broker_is ch a l)); [done| |done].
  intros c w0 Hc. by apply handle_broker_is.
Qed.

(** Step 7, in each of its outcomes. *)
Lemma wp_call_GetChannel conn (Q : Result unit → World num → Prop) w ch a l cs :
  bk_state ch a l cs w →
  (∀ w', bk_state ch a l cs w' →
     Q (if ch then Ok tt else Err EChannelNotInitialized) w') →
  wp conn (call GetChannel) Q w.
Proof.
  intros (<- & <- & <- & <-) HQ. unfold wp. rewrite run_call. unfold handle. simpl.
  destruct (channel w) eqn:Hc; simpl; apply HQ; by repeat split.
Qed.

Lemma wp_call_ChAssertExchange conn n ty (Q : Result unit → World num → Prop) w ch a l cs :
  bk_state ch a l cs w →
  (∀ w', bk_state ch (tail a) l cs w' →
     Q (match head a with Some AmqpThrows => Err EDriver | _ => Ok tt end) w') →
  wp conn (call (ChAssertExchange n ty)) Q w.
Proof.
  intros (<- & <- & <- & <-) HQ. unfold wp.
  rewrite (run_call conn (ChAssertExchange n ty)). unfold handle. simpl.
  destruct (amqplib w) as [|[] ?]; simpl; apply HQ; by repeat split.
Qed.

Lemma wp_call_ChPublish conn m (Q : Result bool → World num → Prop) w ch a l cs :
  bk_state ch a l cs w →
  (∀ w',
     match head a with
     | Some AmqpThrows => bk_state ch (tail a) l cs w' → Q (Err EDriver) w'
     | Some AmqpFull => bk_state ch (tail a) (l ++ [m]) cs w' → Q (Ok false) w'
     | _ => bk_state ch (tail a) (l ++ [m]) cs w' → Q (Ok true) w'
     end) →
  wp conn (call (ChPublish m)) Q w.
Proof.
  intros (<- & <- & <- & <-) HQ. unfold wp.
  rewrite (run_call conn (ChPublish m)). unfold handle. simpl.
  destruct (amqplib w) as [|[] ?] eqn:Ha; simpl;
    specialize (HQ (exec conn (ChPublish m) (consume (ChPublish m) w)).2);
    simpl in HQ; rewrite Ha in HQ; simpl in HQ; apply HQ; by repeat split.
Qed.

Lemma wp_call_ChDrain conn (Q : Result unit → World num → Prop) w ch a l cs :
  bk_state ch a l cs w → (∀ w', bk_state ch a l cs w' → Q (Ok tt) w') →
  wp conn (call ChDrain) Q w.
Proof.
  intros (<- & <- & <- & <-) HQ. unfold wp. rewrite run_call. unfold handle. simpl.
  apply HQ; by repeat split.
Qed.

Lemma wp_call_DateNow conn (Q : Result Z → World num → Prop) w ch a l cs :
  bk_state ch a l cs w → (∀ z w', bk_state ch a l cs w' → Q (Ok z) w') →
  wp conn (call DateNow) Q w.
Proof.
  intros (<- & <- & <- & <-) HQ. unfold wp. rewrite run_call. unfold handle. simpl.
  apply HQ; by repeat split.
Qed.

Lemma wp_call_ConsoleLog conn line (Q : Result unit → World num → Prop) w ch a l cs :
  bk_state ch a l cs w → (∀ w', bk_state ch a l (cs ++ [(line, None)]) w' → Q (Ok tt) w') →
  wp conn (call (ConsoleLog line)) Q w.
Proof.
  intros (<- & <- & <- & <-) HQ. unfold wp.
  rewrite (run_call conn (ConsoleLog line)). unfold handle. simpl.
  apply HQ; by repeat split.
Qed.

Lemma wp_call_ConsoleError conn line e (Q : Result unit → World num → Prop) w ch a l cs :
  bk_state ch a l cs w →
  (∀ w', bk_state ch a l (cs ++ [(line, Some e)]) w' → Q (Ok tt) w') →
  wp conn (call (ConsoleError line e)) Q w.
Proof.
  intros (<- & <- & <- & <-) HQ. unfold wp.
  rewrite (run_call conn (ConsoleError line e)). unfold handle. simpl.
  apply HQ; by repeat split.
Qed.

Lemma publishOrderCreated_outcome conn data o ref tp w :
  wp conn (publishOrderCreated data o ref tp)
     (λ _ w', publish_outcome data o (channel w) (amqplib w) (published w) w') w.
Proof.
  assert (bk_state (channel w) (amqplib w) (published w) (console w) w) as Hb by done.
  revert Hb. generalize (console w) (published w) (amqplib w) (channel w).
  intros cs l a ch Hb.
  unfold publish_outcome, publish_error, publish_warning, published_line.
  unfold publishOrderCreated, publishToExchange, assertExchange.
  apply wp_try_catch, wp_bind.
  eapply wp_call_DateNow; [exact Hb|]. clear w Hb. intros z w Hb.
  apply wp_bind, wp_bind.
  eapply wp_call_GetChannel; [exact Hb|]. clear w Hb. intros w Hb.
  destruct ch.
  2: { eapply wp_call_ConsoleError; [exact Hb|]. intros w' (_&_&->&->).
       split; [done|]. apply last_snoc. }
  apply wp_bind, wp_bind.
  eapply wp_call_GetChannel; [exact Hb|]. clear w Hb. intros w Hb. cbv beta iota.
  eapply wp_call_ChAssertExchange; [exact Hb|]. clear w Hb. intros w Hb.
  destruct a as [|a1 [|a2 a]]; [|destruct a1|destruct a1, a2]; simpl in *.
  all: try (eapply wp_call_ConsoleError; [exact Hb|]; intros w' (_&_&->&->);
            split; [done|]; apply last_snoc).
  all: apply wp_bind; eapply wp_call_ChPublish; [exact Hb|]; clear w Hb; intros w;
       simpl; intros Hb.
  all: try (eapply wp_call_ConsoleError; [exact Hb|]; intros w' (_&_&->&->);
            split; [done|]; apply last_snoc).
  all: try apply wp_ret.
  all: try (eapply wp_call_ChDrain; [exact Hb|]; clear w Hb; intros w Hb).
  all: eapply wp_call_ConsoleLog; [exact Hb|]; intros w' (_&_&->&->).
  all: (split; [eexists; repeat split; done|apply last_snoc]).
Qed.

(** The broker side of a whole [createOrder] that returns an order. *)
Lemma createOrder_publish conn data w :
  wp conn (createOrder data) (λ r w',
    match r with
    | Ok o => publish_outcome data o (channel w) (amqplib w) (published w) w'
    | Err _ => True
    end) w.
Proof.
  assert (broker_is (channel w) (amqplib w) (published w) w) as Hb by done.
  revert Hb. generalize (published w) (amqplib w) (channel w). intros l a ch Hb.
  unfold createOrder.
  apply wp_bind. eapply wp_mono; [apply wp_broker_is; [issues_tac|exact Hb]|].
  clear w Hb. intros [[]|?] w Hb; [|done].
  apply wp_bind. eapply wp_mono; [apply wp_broker_is; [issues_tac|exact Hb]|].
  clear w Hb. intros [[]|?] w Hb; [|done].
  apply wp_try_finally, wp_try_catch. unfold createOrderBody.
  assert (∀ e w0, wp conn (rollbackAndRethrow (A:=Order num) "Error creating order:" e)
            (λ r w', wp conn (call QrRelease)
               (λ rf w'',
                  match rf with
                  | Ok _ => match r with
                            | Ok o => publish_outcome data o ch a l w''
                            | Err _ => True
                            end
                  | Err _ => True
                  end) w') w0) as Hcatch.
  { intros e w0. unfold rollbackAndRethrow.
    apply wp_bind. wp_call_tac; [by wp_call_tac|]. simpl.
    apply wp_bind. wp_call_tac. simpl. apply wp_throw. by wp_call_tac. }
  apply wp_bind. eapply wp_mono; [apply wp_broker_is; [issues_tac|exact Hb]|].
  clear w Hb. intros [user|?] w Hb; [|apply Hcatch].
  apply wp_bind. eapply wp_mono; [apply wp_broker_is; [issues_tac|exact Hb]|].
  clear w Hb. intros [?|?] w Hb; [|apply Hcatch].
  apply wp_bind.
  eapply wp_mono; [apply wp_broker_is; [apply issues_reserveItems|exact Hb]|].
  clear w Hb. intros [st|?] w Hb; [|apply Hcatch].
  apply wp_bind. eapply wp_mono; [apply wp_broker_is; [|exact Hb]|].
  { eapply issues_weaken; [apply issues_persistOrder|]. by intros c []. }
  clear w Hb. intros [saved|?] w (<- & <- & <-); [|apply Hcatch].
  apply wp_bind. eapply wp_mono; [apply publishOrderCreated_outcome|].
  intros [[]|e] w' Hout; cbv beta iota.
  - apply wp_ret. wp_call_tac. simpl.
    unfold publish_outcome in *. by destruct (publish_error _ _).
  - eapply wp_mono; [apply Hcatch|]. by intros [?|?] ?.
Qed.

(** C6 (publish failures are swallowed).  Take any world and change the
    broker side at will: the channel there or not, amqplib rejecting
    [assertExchange], throwing in [ch.publish], answering that its buffer
    is full (the drain that is then waited for comes), or accepting.  [createOrder] returns the same as before and
    leaves the same committed rows, the same open transactions and the
    same Redis keys.  When it returns an order, that order is stored under
    its id; and if the publish threw, for whichever of its three reasons,
    nothing was published and the last line of the console is the warning
    with the error that was caught, while otherwise one message of the
    order went to the exchange and the last line tells so. *)
Theorem publish_failure_is_swallowed conn data w ch a :
  (run conn (createOrder data) (with_amqplib a (with_channel ch w))).1 =
    (run conn (createOrder data) w).1 ∧
  db (run conn (createOrder data) (with_amqplib a (with_channel ch w))).2 =
    db (run conn (createOrder data) w).2 ∧
  txs (run conn (createOrder data) (with_amqplib a (with_channel ch w))).2 =
    txs (run conn (createOrder data) w).2 ∧
  redis (run conn (createOrder data) (with_amqplib a (with_channel ch w))).2 =
    redis (run conn (createOrder data) w).2 ∧
  (∀ o, (run conn (createOrder data) (with_amqplib a (with_channel ch w))).1 = Ok o →
     orders (db (run conn (createOrder data) (with_amqplib a (with_channel ch w))).2)
       !! o_id o = Some o ∧
     publish_outcome data o ch a (published w)
       (run conn (createOrder data) (with_amqplib a (with_channel ch w))).2).
Proof.
  destruct (agree_createOrder conn data (with_amqplib a (with_channel ch w)) w)
    as (Hr & Hdb & Htx & Hredis & _); [done|].
  split; [done|]. split; [done|]. split; [done|]. split; [done|].
  intros o Ho. split.
  - pose proof (createOrder_cases conn data (with_amqplib a (with_channel ch w))) as H.
    rewrite Ho in H. destruct H as (its & l & _ & _ & _ & _ & -> & _).
    apply lookup_insert_eq.
  - pose proof (createOrder_publish conn data (with_amqplib a (with_channel ch w))) as H.
    unfold wp in H. by rewrite Ho in H.
Qed.
End Publishing.

(** ** The stock lock *)

Section Locking.
Context {num : Type} `{!JsRuntime num}.
Implicit Types (w : World num) (c : Cmd num).

Lemma redis_cmds_app (tr1 tr2 : list (Cmd num)) :
  redis_cmds (tr1 ++ tr2) = redis_cmds tr1 ++ redis_cmds tr2.
Proof.
  induction tr1 as [|c tr1 IH]; [done|]. simpl. rewrite IH. by destruct (is_redis c).
Qed.

Lemma trace_tx_write conn f w : trace (tx_write conn f w) = trace w.
Proof. by destruct (tx_write_rest conn f w) as (_&_&_&_&_&_&_&_&->). Qed.
Lemma uuid_source_tx_write conn f w : uuid_source (tx_write conn f w) = uuid_source w.
Proof. by destruct (tx_write_rest conn f w) as (_&_&_&_&->&_). Qed.
Lemma uuid_next_tx_write conn f w : uuid_next (tx_write conn f w) = uuid_next w.
Proof. by destruct (tx_write_rest conn f w) as (_&_&_&_&_&->&_). Qed.

(** Every [await] is recorded, and only [uuidv4()] draws a uuid. *)
Lemma handle_trace conn c w :
  uuid_source (handle conn c w).2 = uuid_source w ∧
  uuid_next (handle conn c w).2 = next_uuid c (uuid_next w) ∧
  trace (handle conn c w).2 = trace w ++ [c].
Proof.
  unfold handle. destruct (faulty c w) eqn:Hf.
  - by destruct c.
  - destruct c; simpl;
      rewrite ?trace_tx_write, ?uuid_source_tx_write, ?uuid_next_tx_write;
      repeat case_match; done.
Qed.

(** One [await], whatever it answers. *)
Lemma wp_call_trace conn c (Q : Result (Resp c) → World num → Prop) w src n tr :
  tr_state src n tr w →
  (∀ r w', tr_state src (next_uuid c n) (tr ++ [c]) w' → Q r w') →
  wp conn (call c) Q w.
Proof.
  intros (<- & <- & <-) HQ. unfold wp. rewrite run_call. apply HQ, handle_trace.
Qed.

Lemma wp_call_uuid conn (Q : Result string → World num → Prop) w src n tr :
  tr_state src n tr w →
  (∀ w', tr_state src (S n) (tr ++ [Uuidv4]) w' → Q (Ok (src n)) w') →
  wp conn (call Uuidv4) Q w.
Proof.
  intros (<- & <- & <-) HQ. unfold wp. rewrite run_call.
  pose proof (handle_trace conn Uuidv4 w) as Hw. by apply HQ in Hw.
Qed.

(** [tr_norm H]: the commands tracked in [H], as one list after the
    commands from before.  [traced_tac H]: the commands tracked in [H] are
    those of the goal.  [wp_trace H H']: one [await], tracked from [H] to
    [H'], in both its outcomes.  [held_tac body]: the commands of a line
    whose lock was set, [body] being what came between [SET] and [DEL]. *)
Ltac tr_norm H := simpl in H; rewrite <-?app_assoc in H; simpl in H.

Ltac traced_tac H :=
  tr_norm H; destruct H as (? & _ & ?); split; [done|];
  eexists; split; [eassumption|]; simpl.

Ltac wp_trace H H' :=
  lazymatch goal with
  | |- @wp _ _ ?conn (@call _ ?c) ?Q ?w =>
      eapply (wp_call_trace conn c Q w); [exact H|];
      let r := fresh "r" in let w' := fresh "w" in
      intros r; destruct r; intros w' H'; cbv beta iota
  end.

Ltac held_tac body :=
  apply (lock_trace_held _ _ _ _ body);
    [first [by left | by right] | first [done | constructor]].

(** The Redis commands of the reservation loop. *)
Lemma reserveItems_trace conn items : ∀ res tp w src n tr0,
  tr_state src n tr0 w →
  wp conn (reserveItems items res tp) (λ _ w', traced src n tr0 items w') w.
Proof.
  induction items as [|it items IH]; intros res tp w src n tr0 H0.
  - apply wp_ret. destruct H0 as (? & _ & ?). split; [done|].
    exists []. rewrite app_nil_r. split; [done|constructor].
  - cbn [reserveItems].
    eapply wp_bind, wp_call_uuid; [exact H0|]. intros w1 H1.
    apply wp_bind. wp_trace H1 H2.
    2: { traced_tac H2. constructor. }
    apply wp_bind, wp_throw_if; intros _.
    { traced_tac H2. constructor. }
    apply wp_bind, wp_try_finally. unfold reserveUnderLock.
    apply wp_bind. wp_trace H2 H3.
    2: { wp_trace H3 H4; traced_tac H4; held_tac (@nil (Cmd num)). }
    apply wp_bind, wp_throw_unless.
    { intros _. wp_trace H3 H4; traced_tac H4; held_tac (@nil (Cmd num)). }
    intros p _. apply wp_bind, wp_throw_if.
    { intros _. wp_trace H3 H4; traced_tac H4; held_tac (@nil (Cmd num)). }
    intros _. apply wp_bind. wp_trace H3 H4.
    2: { wp_trace H4 H5; traced_tac H5; held_tac (@nil (Cmd num)). }
    apply wp_bind. wp_trace H4 H5.
    2: { wp_trace H5 H6; traced_tac H6;
         held_tac [RedisDel (num:=num) (cacheKey (productId it))]. }
    apply wp_ret. wp_trace H5 H6.
    2: { traced_tac H6; held_tac [RedisDel (num:=num) (cacheKey (productId it))]. }
    tr_norm H6. eapply wp_mono; [apply IH, H6|].
    intros _ wl [Hsrc (tr & Htr & Hlt)]. split; [done|].
    eexists. split; [by rewrite Htr, <-app_assoc|].
    simpl. by held_tac [RedisDel (num:=num) (cacheKey (productId it))].
Qed.

(** Commands that are not for Redis do not show in a [lock_trace]. *)
Lemma traced_handle conn c w src n tr0 items :
  is_redis c = false → traced src n tr0 items w →
  traced src n tr0 items (handle conn c w).2.
Proof.
  intros Hc [Hs (tr & Ht & Hl)].
  destruct (handle_trace conn c w) as (Hs' & _ & Ht').
  split; [congruence|]. exists (tr ++ [c]).
  split; [by rewrite Ht', Ht, app_assoc|].
  rewrite redis_cmds_app. simpl. rewrite Hc. by rewrite app_nil_r.
Qed.

Lemma traced_quiet {A} conn (p : Prog num A) w src n tr0 items :
  issues (λ c, is_redis c = false) p → traced src n tr0 items w →
  wp conn p (λ _ w', traced src n tr0 items w') w.
Proof.
  intros Hp Hw.
  apply (wp_issues (λ c, is_redis c = false) (traced src n tr0 items)); [done| |done].
  intros c' w' Hc Hw'. by apply traced_handle.
Qed.

Lemma traced_prefix src n tr0 pre items w :
  redis_cmds pre = [] → traced src n (tr0 ++ pre) items w → traced src n tr0 items w.
Proof.
  intros Hp [Hs (tr & Ht & Hl)]. split; [done|]. exists (pre ++ tr).
  rewrite app_assoc. split; [done|]. by rewrite redis_cmds_app, Hp.
Qed.

Lemma createOrderBody_trace conn data w src n tr0 :
  tr_state src n tr0 w →
  wp conn (createOrderBody data) (λ _ w', traced src n tr0 (items data) w') w.
Proof.
  intros H0. unfold createOrderBody.
  apply wp_bind. wp_trace H0 H1.
  2: { traced_tac H1. constructor. }
  apply wp_bind, wp_throw_unless.
  { intros _. traced_tac H1. constructor. }
  intros _ _. apply wp_bind.
  eapply wp_mono; [apply reserveItems_trace, H1|].
  intros [st|e] wl Hl; cbv beta iota;
    apply (traced_prefix _ _ _ [UserFindOne (userId data)]); try done.
  apply traced_quiet; [|done].
  apply issues_bind; [|intros saved].
  - eapply issues_weaken; [apply issues_persistOrder|]. by intros c [_ ?].
  - apply issues_bind; [|intros; issues_tac].
    eapply issues_weaken; [apply issues_publishOrderCreated|]. by intros [].
Qed.

(** The Redis commands of a whole [createOrder]: those of its loop. *)
Lemma createOrder_trace conn data w :
  wp conn (createOrder data)
     (λ _ w', traced (uuid_source w) (uuid_next w) (trace w) (items data) w') w.
Proof.
  assert (tr_state (uuid_source w) (uuid_next w) (trace w) w) as H0 by done.
  unfold createOrder.
  apply wp_bind. wp_trace H0 H1.
  2: { traced_tac H1. constructor. }
  apply wp_bind. wp_trace H1 H2.
  2: { traced_tac H2. constructor. }
  apply wp_try_finally, wp_try_catch. tr_norm H2.
  eapply wp_mono; [apply createOrderBody_trace, H2|].
  assert (∀ wl, traced (uuid_source w) (uuid_next w) (trace w) (items data) wl →
            wp conn (call QrRelease)
               (λ rf wf, match rf with
                         | Ok _ | Err _ =>
                             traced (uuid_source w) (uuid_next w) (trace w) (items data) wf
                         end) wl) as Hrel.
  { intros wl Hl. eapply wp_mono; [apply traced_quiet, Hl; issues_tac|].
    by intros [|]. }
  intros [o|e] wl Hl; cbv beta iota;
    apply (traced_prefix _ _ _ [QrConnect; QrStartTransaction]) in Hl; try done.
  - by apply Hrel.
  - eapply wp_mono; [apply traced_quiet, Hl; unfold rollbackAndRethrow; issues_tac|].
    intros r wf Hf. by apply Hrel.
Qed.

(** [no_fault Hf]: no client library throws when no fault is pending. *)
Ltac no_fault Hf :=
  lazymatch goal with
  | Hc : faulty _ _ = true |- _ =>
      exfalso; unfold faulty in Hc; simpl in Hc; rewrite ?Hf in Hc;
      simpl in Hc; by rewrite ?andb_false_r in Hc
  end.

(** A lock that is held stops the loop at its [SET]. *)
Lemma reserveItems_refused conn it rest res tp w :
  faults w = [] → is_Some (redis w !! lockKey (productId it)) →
  wp conn (reserveItems (it :: rest) res tp) (λ r w',
    r = Err (ELockNotAcquired (productId it)) ∧
    faults w' = [] ∧ redis w' = redis w ∧
    trace w' = trace w ++
      [Uuidv4;
       RedisSet (lockKey (productId it)) (uuid_source w (uuid_next w))
                (Some STOCK_LOCK_TTL) true]) w.
Proof.
  intros Hf Hheld. cbn [reserveItems].
  apply wp_bind. wp_call_tac. simpl.
  apply wp_bind. wp_call_tac; [no_fault Hf|].
  simpl. rewrite bool_decide_true by done. simpl.
  apply wp_bind, wp_throw_if; [intros _|done].
  simpl. rewrite Hf. by rewrite <-app_assoc.
Qed.

(** ... and [createOrder] rethrows the error after the rollback. *)
Lemma createOrder_refused conn data it rest w :
  faults w = [] → userId data ∈ users (db w) → items data = it :: rest →
  is_Some (redis w !! lockKey (productId it)) →
  wp conn (createOrder data) (λ r w',
    r = Err (ELockNotAcquired (productId it)) ∧ redis w' = redis w) w.
Proof.
  intros Hf Hu Hit Hheld. unfold createOrder.
  apply wp_bind. wp_call_tac; [no_fault Hf|]. simpl.
  apply wp_bind. wp_call_tac; [no_fault Hf|]. simpl.
  apply wp_try_finally, wp_try_catch. unfold createOrderBody.
  apply wp_bind. wp_call_tac; [no_fault Hf|]. simpl.
  rewrite decide_True by done.
  apply wp_bind, wp_throw_unless; [done|intros _ _].
  apply wp_bind. rewrite Hit.
  eapply wp_mono; [apply reserveItems_refused; simpl; [by rewrite Hf|done]|].
  simpl. intros r wl (-> & Hfl & Hrl & _). unfold rollbackAndRethrow.
  apply wp_bind. wp_call_tac; [no_fault Hfl|]. simpl.
  apply wp_bind. wp_call_tac. simpl. apply wp_throw.
  wp_call_tac. simpl. by rewrite Hrl.
Qed.

End Locking.

(** ** The rollback *)

Section Rollback.
Context {num : Type} `{!JsRuntime num}.
Implicit Types (w : World num) (c : Cmd num) (V : gmap string (Product num)).

Lemma refused_tx_write conn f w : refused (tx_write conn f w) = refused w.
Proof. by destruct (tx_write_oracles conn f w) as [_ ->]. Qed.

Lemma txs_tx_write conn f w conn' :
  conn' ≠ conn → txs (tx_write conn f w) !! conn' = txs w !! conn'.
Proof.
  intros Hc. unfold tx_write. destruct (txs w !! conn); simpl; [|done].
  by rewrite lookup_insert_ne.
Qed.

(** A command that the client library carried out is not recorded as
    refused. *)
Lemma exec_refused conn c w : refused (exec conn c w).2 = refused w.
Proof.
  destruct c; simpl; rewrite ?refused_tx_write; repeat case_match; done.
Qed.

(** A command touches no transaction but that of its own query runner. *)
Lemma handle_txs_other conn c w conn' :
  conn' ≠ conn → txs (handle conn c w).2 !! conn' = txs w !! conn'.
Proof.
  intros Hc. unfold handle. destruct (faulty c w); [done|].
  destruct c; simpl; rewrite ?txs_tx_write by done; repeat case_match; simpl;
    rewrite ?lookup_insert_ne, ?lookup_delete_ne by done; done.
Qed.

Lemma handle_refused conn c w :
  refused (handle conn c w).2 = refused w ++ (if faulty c w then [c] else []).
Proof.
  unfold handle. destruct (faulty c w); [done|].
  by rewrite exec_refused, app_nil_r.
Qed.

(** What a request leaves of the world it started from, whatever it does:
    the refusals and the commands from before, and the transactions of the
    other query runners. *)
Lemma run_frame {A} conn (p : Prog num A) w :
  ∃ rf tr, refused (run conn p w).2 = refused w ++ rf ∧
    trace (run conn p w).2 = trace w ++ tr ∧
    ∀ conn', conn' ≠ conn → txs (run conn p w).2 !! conn' = txs w !! conn'.
Proof.
  apply (wp_issues (λ _, True)
           (λ w', ∃ rf tr, refused w' = refused w ++ rf ∧ trace w' = trace w ++ tr ∧
              ∀ conn', conn' ≠ conn → txs w' !! conn' = txs w !! conn') conn p w).
  - apply issues_any.
  - intros c w' _ (rf & tr & Hrf & Htr & Htx).
    destruct (handle_trace conn c w') as (_ & _ & Ht).
    exists (rf ++ if faulty c w' then [c] else []), (tr ++ [c]).
    rewrite handle_refused, Hrf, Ht, Htr, <-!app_assoc. split; [done|]. split; [done|].
    intros conn' Hc. by rewrite handle_txs_other, Htx.
  - exists [], []. by rewrite !app_nil_r.
Qed.

Lemma delete_txs_other conn (t t' : gmap nat (Db num)) :
  (∀ conn', conn' ≠ conn → t' !! conn' = t !! conn') → delete conn t' = delete conn t.
Proof.
  intros H. apply map_eq. intros i. destruct (decide (i = conn)) as [->|Hi].
  - by rewrite !lookup_delete_eq.
  - rewrite !lookup_delete_ne by done. by apply H.
Qed.

Lemma createOrder_rollback conn data w :
  wp conn (createOrder data) (λ r w',
    ∃ rf, refused w' = refused w ++ rf ∧
      ∀ e, r = Err e →
        e ≠ EDriver ∨
        ((QrConnect ∉ rf) ∧ (QrStartTransaction ∉ rf) ∧ (QrRollbackTransaction ∉ rf)) →
        txs w' = delete conn (txs w) ∧
        ∃ body, trace w' = trace w ++ QrConnect :: QrStartTransaction :: body ++
                  [QrRollbackTransaction; ConsoleError "Error creating order:" e;
                   QrRelease]) w.
Proof.
  unfold createOrder.
  apply wp_bind. wp_call_tac.
  { exists [QrConnect]. split; [done|]. intros e [= <-] [?|(Hc & _)]; [done|].
    by apply not_elem_of_cons in Hc as [? _]. }
  simpl. apply wp_bind. wp_call_tac.
  { exists [QrStartTransaction]. split; [done|]. intros e [= <-] [?|(_ & Hc & _)]; [done|].
    by apply not_elem_of_cons in Hc as [? _]. }
  simpl.
  assert (∃ w2, w2 = (with_txs (<[conn:=empty_db]> (txs w))
       (consume QrStartTransaction (consume QrConnect w))) ∧
      refused w2 = refused w ∧
      trace w2 = trace w ++ [QrConnect; QrStartTransaction] ∧
      ∀ conn', conn' ≠ conn → txs w2 !! conn' = txs w !! conn') as (w2 & <- & Hrf2 & Htr2 & Htx2).
  { eexists. split; [done|]. simpl. rewrite <-app_assoc. split; [done|]. split; [done|].
    intros conn' Hc. by rewrite lookup_insert_ne. }
  clear H H0. revert Hrf2 Htr2 Htx2. generalize w2. clear w2. intros w2 Hrf2 Htr2 Htx2.
  apply wp_try_finally, wp_try_catch.
  destruct (run_frame conn (createOrderBody data) w2) as (rf & tr & Hrf & Htr & Htx).
  unfold wp at 1.
  revert Hrf Htr Htx. generalize (run conn (createOrderBody data) w2).2 as w3.
  destruct (run conn (createOrderBody data) w2).1 as [o|e]; intros w3 Hrf Htr Htx.
  { wp_call_tac. simpl. exists rf. split; [congruence|]. done. }
  unfold rollbackAndRethrow. apply wp_bind. wp_call_tac.
  { wp_call_tac. simpl. exists (rf ++ [QrRollbackTransaction]).
    rewrite Hrf, Hrf2, <-app_assoc. split; [done|].
    intros e' [= <-] [?|(_ & _ & Hc)]; [done|].
    exfalso. apply Hc, elem_of_app. right. left. }
  simpl. apply wp_bind. wp_call_tac. simpl. apply wp_throw. wp_call_tac. simpl.
  exists rf. split; [congruence|]. intros e' [= <-] _.
  split.
  - apply delete_txs_other. intros conn' Hc. by rewrite Htx, Htx2.
  - exists tr. rewrite Htr, Htr2, <-!app_assoc. done.
Qed.



(** C3 (atomicity).  When [createOrder] throws, at whatever step and after
    whatever it had written in its transaction, the committed rows are
    those from before the request: every product has its earlier stock and
    reservedStock, and there is no order, order item or event log of the
    failed request.  This is the work of the rollback in the [catch]:
    unless the client library refused [connect], [startTransaction] or the
    rollback itself (the error is then the library's), the last three
    commands of the request are the rollback, the line of the error on the
    console and the release of the query runner; no transaction is left
    open on the query runner when it is released, the transactions of the
    other query runners are as they were, and the query runner reads the
    rows from before.  An error of one of the checks of [createOrder] is
    never the library's, so for these the rollback is unconditional. *)
Theorem createOrder_failure_rolls_back conn data w e :
  (run conn (createOrder data) w).1 = Err e →
  db (run conn (createOrder data) w).2 = db w ∧
  ∃ rf, refused (run conn (createOrder data) w).2 = refused w ++ rf ∧
    (e ≠ EDriver ∨
     ((QrConnect ∉ rf) ∧ (QrStartTransaction ∉ rf) ∧ (QrRollbackTransaction ∉ rf)) →
     txs (run conn (createOrder data) w).2 = delete conn (txs w) ∧
     tx_view conn (run conn (createOrder data) w).2 = db w ∧
     ∃ body, trace (run conn (createOrder data) w).2 =
       trace w ++ QrConnect :: QrStartTransaction :: body ++
         [QrRollbackTransaction; ConsoleError "Error creating order:" e; QrRelease]).
Proof.
  intros He.
  assert (db (run conn (createOrder data) w).2 = db w) as Hdb.
  { pose proof (createOrder_spec conn data w) as H. unfold wp in H.
    rewrite He in H. by destruct H. }
  split; [done|].
  destruct (createOrder_rollback conn data w) as (rf & Hrf & Hroll).
  exists rf. split; [done|]. intros Hc.
  destruct (Hroll e He Hc) as [Htx Htr]. split; [done|]. split; [|done].
  unfold tx_view. by rewrite Htx, lookup_delete_eq.
Qed.

End Rollback.

(** ** The release of the locks *)

Section Release.
Context {num : Type} `{!JsRuntime num}.
Implicit Types (w : World num) (c : Cmd num) (V : gmap string (Product num)).

Lemma lockKey_inj pid pid' : lockKey pid = lockKey pid' → pid = pid'.
Proof.
  unfold lockKey, STOCK_LOCK_PREFIX. intros H. cbv [String.append] in H. congruence.
Qed.

Lemma cacheKey_lockKey pid pid' : cacheKey pid ≠ lockKey pid'.
Proof.
  unfold cacheKey, lockKey, PRODUCT_CACHE_PREFIX, STOCK_LOCK_PREFIX.
  intros H. cbv [String.append] in H. congruence.
Qed.













End Release.

(** ** The first check that fails *)

(** [tr_step Ht]: what [Ht : tr_state ...] tracks of the commands, after
    one more [await].  [wp_forget2 H Ht]: as [wp_forget], keeping also what
    [Ht] tracks.  [tr_done Ht]: the commands tracked in [Ht] are those of
    the goal. *)
Ltac tr_step Ht :=
  let Hs := fresh in let Hn := fresh in let Htr := fresh in
  destruct Ht as (Hs & Hn & Htr); unfold tr_state; simpl;
  rewrite ?uuid_source_tx_write, ?uuid_next_tx_write, ?trace_tx_write; simpl;
  rewrite ?Hs, ?Hn, ?Htr; repeat split; reflexivity.

Ltac wp_forget2 H Ht :=
  lazymatch goal with
  | |- wp ?conn _ _ ?w1 =>
      let H' := fresh "Hst" in let Ht' := fresh "Htr" in
      assert (H' : at_state conn w1 _ _ _ _) by (eauto 10 with at_state);
      eassert (Ht' : tr_state _ _ _ w1) by (tr_step Ht);
      generalize Ht'; clear Ht'; generalize H'; clear H'; generalize w1; clear H Ht;
      let w' := fresh "w" in intros w' H Ht
  end.

Ltac tr_done Ht :=
  let Htr := fresh in
  destruct Ht as (_ & _ & Htr); eexists; split;
    [simpl; rewrite ?trace_tx_write; simpl; rewrite Htr, <-?app_assoc; reflexivity
    |simpl; try reflexivity].

Section FirstFailure.
Context {num : Type} `{!JsRuntime num}.
Implicit Types (w : World num) (c : Cmd num) (V : gmap string (Product num)).

Lemma reserved_qty_snoc pid pre it :
  reserved_qty pid (pre ++ [it]) =
    reserved_qty pid pre + (if decide (productId it = pid) then quantity it else 0).
Proof. induction pre as [|it' pre IH]; simpl; [lia|]. rewrite IH. lia. Qed.

Lemma reserved_view_snoc pre it V0 V p :
  reserved_view pre V0 V → find_product V (productId it) = Some p →
  reserved_view (pre ++ [it]) V0 (<[p_id p := reserve (quantity it) p]> V).
Proof.
  intros Hv Hp pid. rewrite reserved_qty_snoc.
  pose proof (find_product_insert V (reserve (quantity it) p) pid) as Hi.
  simpl in Hi. rewrite Hi. apply find_product_Some in Hp as Hid. rewrite Hid.
  destruct (decide (productId it = pid)) as [<-|Hd].
  - rewrite Hv in Hp. destruct (find_product V0 (productId it)) as [p0|]; [|done].
    simpl in *. injection Hp as <-. by rewrite reserve_reserve.
  - rewrite Hv. destruct (find_product V0 pid); simpl; [|done].
    do 2 f_equal. lia.
Qed.

Lemma reserved_view_found pre V0 V pid p :
  reserved_view pre V0 V → find_product V pid = Some p →
  ∃ p0, find_product V0 pid = Some p0 ∧ p_name p = p_name p0 ∧
        p_stock p = p_stock p0 - reserved_qty pid pre.
Proof.
  intros Hv Hp. rewrite Hv in Hp.
  destruct (find_product V0 pid) as [p0|]; [|done].
  injection Hp as <-. by exists p0.
Qed.

Lemma reserved_view_none pre V0 V pid :
  reserved_view pre V0 V → find_product V pid = None → find_product V0 pid = None.
Proof. intros Hv Hp. rewrite Hv in Hp. by destruct (find_product V0 pid). Qed.

Lemma lock_cycle_keys (r r0 : gmap string RedisEntry) pid e :
  (∀ pid', r !! lockKey pid' = r0 !! lockKey pid') → r !! lockKey pid = None →
  ∀ pid', delete (lockKey pid) (delete (cacheKey pid) (<[lockKey pid := e]> r))
            !! lockKey pid' = r0 !! lockKey pid'.
Proof.
  intros Hr Hfree pid'. destruct (decide (pid = pid')) as [<-|Hne].
  - rewrite lookup_delete_eq. by rewrite <-Hr.
  - assert (lockKey pid ≠ lockKey pid') by (by intros ?%lockKey_inj).
    rewrite lookup_delete_ne by done.
    rewrite lookup_delete_ne by apply cacheKey_lockKey.
    by rewrite lookup_insert_ne.
Qed.

Lemma wp_conj {A} conn (p : Prog num A) (Q1 Q2 : Result A → World num → Prop) w :
  wp conn p Q1 w → wp conn p Q2 w → wp conn p (λ r w', Q1 r w' ∧ Q2 r w') w.
Proof. by split. Qed.

Lemma reserveItems_exact conn items : ∀ pre res tp w d v r ff V0 r0 src n tr0,
  at_state conn w d v r ff → tr_state src n tr0 w →
  reserved_view pre V0 (products v) →
  (∀ pid, r !! lockKey pid = r0 !! lockKey pid) →
  wp conn (reserveItems items res tp) (λ res w',
    res = Err EDriver ∧ ¬ ff ∨
    exact_run (line_failure V0 r0 pre items) (lock_cmds src n V0 r0 pre items)
              tr0 res w') w.
Proof.
  induction items as [|it items IH]; intros pre res tp w d v r ff V0 r0 src n tr0
    Hst Htr Hv Hr.
  - apply wp_ret. right. split; [done|]. exists []. split; [|done].
    rewrite app_nil_r. by destruct Htr as (_&_&?).
  - cbn [reserveItems line_failure lock_cmds]. unfold exact_run.
    apply wp_bind. wp_call_tac. wp_norm Hst.
    rewrite (proj1 Htr), (proj1 (proj2 Htr)). wp_forget2 Hst Htr.
    apply wp_bind. wp_call_tac.
    { wp_fault Hst. by left. }
    wp_norm Hst. rewrite <-(Hr (productId it)).
    destruct (bool_decide (is_Some (r !! lockKey (productId it)))) eqn:Hlk; simpl.
    { apply wp_bind, wp_throw_if; [intros _|done]. right. split; [done|]. tr_done Htr. }
    apply bool_decide_eq_false in Hlk. apply eq_None_not_Some in Hlk.
    wp_forget2 Hst Htr. apply wp_bind, wp_throw_if; [done|intros _].
    apply wp_bind, wp_try_finally. unfold reserveUnderLock.
    apply wp_bind. wp_call_tac.
    { wp_fault Hst. wp_call_tac; by left. }
    wp_norm Hst. wp_forget2 Hst Htr.
    apply wp_bind, wp_throw_unless.
    { intros Hp. rewrite (reserved_view_none _ _ _ _ Hv Hp).
      wp_call_tac; [wp_fault Hst; by left|]. right. split; [done|]. tr_done Htr. }
    intros p Hp. destruct (reserved_view_found _ _ _ _ _ Hv Hp) as (p0 & -> & Hname & Hstock).
    rewrite <-Hstock, <-Hname.
    apply wp_bind, wp_throw_if.
    { intros ->. wp_call_tac; [wp_fault Hst; by left|]. right. split; [done|]. tr_done Htr. }
    intros ->.
    apply wp_bind. wp_call_tac.
    { wp_fault Hst. wp_call_tac; by left. }
    wp_norm Hst. wp_forget2 Hst Htr.
    apply wp_bind. wp_call_tac.
    { wp_fault Hst. wp_call_tac; by left. }
    wp_norm Hst. wp_forget2 Hst Htr. apply wp_ret.
    wp_call_tac.
    { wp_fault Hst. by left. }
    wp_norm Hst. wp_forget2 Hst Htr.
    eapply wp_mono.
    { eapply (IH (pre ++ [it])); [exact Hst|exact Htr| |].
      - simpl. by apply reserved_view_snoc.
      - by apply lock_cycle_keys. }
    intros res' w' [?|[Hf (tr' & Ht' & Hc)]]; [by left|right].
    split; [done|]. eexists. split; [by rewrite Ht', <-!app_assoc|].
    simpl. by rewrite Hc.
Qed.

(** Commands that are not for Redis add nothing to the Redis commands. *)
Lemma quiet_cmds {A} conn (p : Prog num A) w tr0 tr :
  issues (λ c, is_redis c = false) p → trace w = tr0 ++ tr →
  wp conn p (λ _ w', ∃ tr', trace w' = tr0 ++ tr' ∧ redis_cmds tr' = redis_cmds tr) w.
Proof.
  intros Hp Hw.
  apply (wp_issues (λ c, is_redis c = false)
           (λ w', ∃ tr', trace w' = tr0 ++ tr' ∧ redis_cmds tr' = redis_cmds tr));
    [done| |by exists tr].
  intros c w' Hc (tr' & Ht & Hr). destruct (handle_trace conn c w') as (_ & _ & Ht').
  exists (tr' ++ [c]). rewrite Ht', Ht, <-app_assoc. split; [done|].
  rewrite redis_cmds_app. simpl. rewrite Hc. by rewrite app_nil_r.
Qed.

Lemma createOrderBody_exact conn data w d r ff src n tr0 :
  at_state conn w d d r ff → tr_state src n tr0 w →
  wp conn (createOrderBody data) (λ res w',
    res = Err EDriver ∧ ¬ ff ∨
    exact_run (first_failure d r data)
      (if decide (userId data ∈ users d)
       then lock_cmds src n (products d) r [] (items data) else [])
      tr0 res w') w.
Proof.
  intros Hst Htr. unfold createOrderBody, first_failure, exact_run.
  apply wp_bind. wp_call_tac.
  { wp_fault Hst. by left. }
  wp_norm Hst. wp_forget2 Hst Htr.
  apply wp_bind, wp_throw_unless.
  { intros Hu. case_decide; [done|]. right. split; [done|]. tr_done Htr. }
  intros u Hu. case_decide as Huser; [clear u Hu|done].
  apply wp_bind. eapply wp_mono.
  { apply wp_conj; [by apply reserveItems_spec|].
    eapply (reserveItems_exact _ _ []); [exact Hst|exact Htr|apply reserved_view_nil|done]. }
  intros [st|e] w1; simpl.
  2: { intros [_ [[[= ->] ?]|[Hf (tr & Ht & Hc)]]]; [by left|right].
       split; [done|]. exists ([UserFindOne (userId data)] ++ tr).
       by rewrite <-app_assoc in Ht. }
  intros [(v1 & r1 & Hst1 & Hr1 & Hrows & Hview & Hsuf & Htot) [[? _]|[Hf (tr & Ht & Hc)]]];
    [done|].
  clear Hst Htr. rewrite <-app_assoc in Ht.
  apply wp_bind. eapply wp_mono.
  { apply wp_conj; [by apply persistOrder_spec|].
    apply (quiet_cmds _ _ _ tr0 ([UserFindOne (userId data)] ++ tr)); [|done].
    eapply issues_weaken; [apply issues_persistOrder|]. by intros c [_ ?]. }
  intros [saved|e] w2; simpl.
  2:{ intros [[He [[-> Hff]|[-> (it & Hin & Hnone)]]] _]; [by left|].
      destruct (order_total_found _ _ _ _ it Htot Hin) as [p Hp].
      by rewrite Hview, Hp in Hnone. }
  intros [_ (tr2 & Ht2 & Hc2)].
  apply wp_bind. eapply wp_mono.
  { apply wp_conj; [apply publishOrderCreated_spec|].
    apply (quiet_cmds _ _ _ tr0 tr2); [|done].
    eapply issues_weaken; [apply issues_publishOrderCreated|]. by intros []. }
  intros res w3 [[-> _] (tr3 & Ht3 & Hc3)]. apply wp_ret. right.
  split; [done|]. exists tr3. split; [done|]. by rewrite Hc3, Hc2.
Qed.

(** [createOrder], when no command is refused: it ends as the first
    failing check says, having sent to Redis the commands of the loop up
    to that check. *)
Lemma createOrder_exact conn data w :
  wp conn (createOrder data) (λ res w',
    res = Err EDriver ∧ faults w ≠ [] ∨
    exact_run (first_failure (db w) (redis w) data)
      (if decide (userId data ∈ users (db w))
       then lock_cmds (uuid_source w) (uuid_next w) (products (db w)) (redis w) []
              (items data)
       else [])
      (trace w) res w') w.
Proof.
  assert (err_state w (db w) (faults w = [])) as Hst0
    by (split; [done|by intros ?]).
  unfold createOrder.
  apply wp_bind. wp_call_tac.
  { wp_fault Hst0. by left. }
  simpl. apply wp_bind. wp_call_tac.
  { assert (err_state (consume QrConnect w) (db w) (faults w = [])) as Hst1
      by eauto with at_state.
    wp_fault Hst1. by left. }
  simpl.
  apply wp_try_finally, wp_try_catch.
  eapply wp_mono.
  { apply wp_conj.
    - apply (createOrderBody_spec _ _ _ (db w) (redis w) (faults w = [])).
      repeat split; simpl.
      + unfold tx_open. simpl. rewrite lookup_insert_eq. eauto.
      + unfold tx_view. simpl. rewrite lookup_insert_eq. apply overlay_empty.
      + intros Hf. simpl. by rewrite Hf.
    - apply (createOrderBody_exact _ _ _ (db w) (redis w) (faults w = [])
               (uuid_source w) (uuid_next w) (trace w ++ [QrConnect; QrStartTransaction])).
      + repeat split; simpl.
        * unfold tx_open. simpl. rewrite lookup_insert_eq. eauto.
        * unfold tx_view. simpl. rewrite lookup_insert_eq. apply overlay_empty.
        * intros Hf. simpl. by rewrite Hf.
      + repeat split. simpl. by rewrite <-app_assoc. }
  clear Hst0. unfold exact_run.
  intros [o|e] w1; simpl.
  - intros [_ [[? _]|[Hf (tr & Ht & Hc)]]]; [done|].
    wp_call_tac. simpl. right. split; [done|].
    exists ([QrConnect; QrStartTransaction] ++ tr ++ [QrRelease]).
    rewrite Ht, <-!app_assoc. split; [done|].
    simpl. rewrite redis_cmds_app. simpl. by rewrite app_nil_r.
  - intros [[Hst _] He]. unfold rollbackAndRethrow.
    apply wp_bind. wp_call_tac.
    { wp_fault Hst. wp_call_tac. by left. }
    simpl. apply wp_bind. wp_call_tac. simpl. apply wp_throw.
    wp_call_tac. simpl.
    destruct He as [?|[Hf (tr & Ht & Hc)]]; [by left|right].
    split; [done|].
    exists ([QrConnect; QrStartTransaction] ++ tr ++
              [QrRollbackTransaction; ConsoleError "Error creating order:" e; QrRelease]).
    rewrite Ht, <-!app_assoc. split; [done|].
    simpl. rewrite redis_cmds_app. simpl. by rewrite app_nil_r.
Qed.

(** C5 (error kinds), as amended.  An error of [createOrder] is of one of
    five kinds, each raised only under its condition: "User not found"
    only if the user is absent; "Product not found" only if a requested
    product is absent; "Insufficient stock" only if a line asks for more
    than the stock its product has left after the earlier lines of the
    request, and it carries that stock and the quantity asked for;
    "Cannot acquire lock" only if the lock of a requested product is held;
    any other error is one a client library raised.  The checks are made
    in order (the user, then for each line in turn its lock, its product,
    its stock), and the error is that of the first check that fails,
    [first_failure]: whenever [createOrder] throws, the error is the
    library's or it is the error of the first failing check, and when it
    returns no check fails.  When no call of a client library fails (the
    store and Redis accept every command: [faults w = []]) the outcome is
    settled by the checks alone: the error of the first check that fails
    if there is one, so "User not found" for an absent user, and an order
    if there is none. *)
Theorem createOrder_error_kinds conn data w :
  (∀ e, (run conn (createOrder data) w).1 = Err e →
     match e with
     | EUserNotFound => userId data ∉ users (db w)
     | EProductNotFound pid =>
         userId data ∈ users (db w) ∧
         ∃ pre it post, items data = pre ++ it :: post ∧ productId it = pid ∧
           find_product (products (db w)) pid = None
     | EInsufficientStock name available requested =>
         userId data ∈ users (db w) ∧
         ∃ pre it post p, items data = pre ++ it :: post ∧
           quantity it = requested ∧
           find_product (products (db w)) (productId it) = Some p ∧
           p_name p = name ∧
           available = p_stock p - reserved_qty (productId it) pre ∧
           available < requested
     | ELockNotAcquired pid =>
         userId data ∈ users (db w) ∧
         ∃ pre it post, items data = pre ++ it :: post ∧ productId it = pid ∧
           is_Some (redis w !! lockKey pid)
     | EDriver => faults w ≠ []
     | _ => False
     end) ∧
  (∀ e, (run conn (createOrder data) w).1 = Err e →
     e = EDriver ∧ faults w ≠ [] ∨ first_failure (db w) (redis w) data = Some e) ∧
  (∀ o, (run conn (createOrder data) w).1 = Ok o →
     first_failure (db w) (redis w) data = None) ∧
  (faults w = [] →
     match first_failure (db w) (redis w) data with
     | Some e => (run conn (createOrder data) w).1 = Err e
     | None => ∃ o, (run conn (createOrder data) w).1 = Ok o
     end) ∧
  (faults w = [] → userId data ∉ users (db w) →
     (run conn (createOrder data) w).1 = Err EUserNotFound) ∧
  (faults w = [] → userId data ∈ users (db w) →
     (∀ it, it ∈ items data → redis w !! lockKey (productId it) = None) →
     (∀ pre it post, items data = pre ++ it :: post →
        ∃ p, find_product (products (db w)) (productId it) = Some p ∧
             quantity it ≤ p_stock p - reserved_qty (productId it) pre) →
     ∃ o, (run conn (createOrder data) w).1 = Ok o).
Proof.
  pose proof (createOrder_exact conn data w) as Hex. unfold wp, exact_run in Hex.
  assert (faults w = [] →
     match first_failure (db w) (redis w) data with
     | Some e => (run conn (createOrder data) w).1 = Err e
     | None => ∃ o, (run conn (createOrder data) w).1 = Ok o
     end) as Hsettled.
  { intros Hf. destruct Hex as [[_ ?]|[-> _]]; [done|].
    destruct (run conn (createOrder data) w).1 as [o|e]; [by exists o|done]. }
  split; [|split; [|split; [|split; [done|split]]]].
  - intros e He. pose proof (createOrder_spec conn data w) as H. unfold wp in H.
    rewrite He in H. destruct H as [_ H]. by destruct e.
  - intros e He. rewrite He in Hex. destruct Hex as [[[= ->] ?]|[-> _]]; [by left|by right].
  - intros o Ho. rewrite Ho in Hex. by destruct Hex as [[? _]|[-> _]].
  - intros Hf Hu. specialize (Hsettled Hf). unfold first_failure in Hsettled.
    by rewrite decide_False in Hsettled.
  - apply createOrder_succeeds.
Qed.

End FirstFailure.

(** ** The spec's scenarios in the sample shop *)

(** C4 (cancellation).  With no fault pending, [cancelOrder] on an order
    that is not CANCELLED returns the order with status CANCELLED, stores it
    under its id, gives every product the quantities of the order's items
    back (stock + q, reservedStock - q), leaves the order items as they are
    and adds one ORDER_CANCELLED event log of the order; on an order that is
    CANCELLED it throws "Order already cancelled" and leaves the rows and
    Redis as they were.  Whenever [cancelOrder] throws, the committed rows
    are those from before.  In the sample shop: an order of 3 of the product
    with stock 10 takes the pair to (7, 3); cancelling it brings the pair
    back to (10, 0), the order is CANCELLED, and its event logs are one
    ORDER_CREATED and one ORDER_CANCELLED. *)
Theorem cancelOrder_restores_and_cancels :
  (∀ num (rt : JsRuntime num) conn orderId (w : World num) o,
     find_order (orders (db w)) orderId = Some o → faults w = [] →
     (o_status o ≠ CANCELLED →
        (run conn (cancelOrder orderId) w).1 = Ok (Some (set_status CANCELLED o)) ∧
        orders (db (run conn (cancelOrder orderId) w).2) =
          <[orderId := set_status CANCELLED o]> (orders (db w)) ∧
        orderItems (db (run conn (cancelOrder orderId) w).2) = orderItems (db w) ∧
        (∀ pid, find_product (products (db (run conn (cancelOrder orderId) w).2)) pid =
                  restore (restored_qty pid (items_of (orderItems (db w)) orderId))
                    <$> find_product (products (db w)) pid) ∧
        ∃ l, eventLogs (db (run conn (cancelOrder orderId) w).2) =
               <[e_id l := l]> (eventLogs (db w)) ∧
             e_orderId l = orderId ∧ e_eventType l = ORDER_CANCELLED) ∧
     (o_status o = CANCELLED →
        (run conn (cancelOrder orderId) w).1 = Err EAlreadyCancelled ∧
        db (run conn (cancelOrder orderId) w).2 = db w ∧
        redis (run conn (cancelOrder orderId) w).2 = redis w)) ∧
  (∀ num (rt : JsRuntime num) conn orderId (w : World num) e,
     (run conn (cancelOrder orderId) w).1 = Err e →
     db (run conn (cancelOrder orderId) w).2 = db w) ∧
  (let created := run 0 (createOrder (Sample.order_of "p1" 3)) Sample.world in
   let cancelled := run 0 (cancelOrder "uuid-2") created.2 in
   find_product (products (db Sample.world)) "p1"
     = Some (mkProduct "p1" "Widget" 250 10 0 true) ∧
   created.1 = Ok (mkOrder "uuid-2" "u1" PENDING 750 "ORD-1700000000000-uuid-1") ∧
   find_product (products (db created.2)) "p1"
     = Some (mkProduct "p1" "Widget" 250 7 3 true) ∧
   cancelled.1
     = Ok (Some (mkOrder "uuid-2" "u1" CANCELLED 750 "ORD-1700000000000-uuid-1")) ∧
   find_product (products (db cancelled.2)) "p1"
     = Some (mkProduct "p1" "Widget" 250 10 0 true) ∧
   o_status <$> find_order (orders (db cancelled.2)) "uuid-2" = Some CANCELLED ∧
   e_eventType <$> logs_of (eventLogs (db cancelled.2)) "uuid-2"
     ≡ₚ [ORDER_CREATED; ORDER_CANCELLED]).
Proof.
  split; [|split].
  - intros num rt conn orderId w o. apply cancelOrder_found.
  - intros num rt conn orderId w e He.
    pose proof (cancelOrder_cases conn orderId w) as H. rewrite He in H. by destruct H.
  - cbv zeta. repeat split; try (vm_compute; reflexivity).
    assert (e_eventType <$> logs_of (eventLogs (db (run 0 (cancelOrder "uuid-2")
              (run 0 (createOrder (Sample.order_of "p1" 3)) Sample.world).2).2)) "uuid-2"
            = [ORDER_CANCELLED; ORDER_CREATED]) as -> by (vm_compute; reflexivity).
    apply Permutation_swap.
Qed.

(** C1 (no oversell) fails under interleaving.  Two requests, each for 6 of
    the product with stock 10.  Request 0 releases the lock of the product
    before it commits: after its 9th command the lock key is gone, the
    committed stock is still 10 and only its own transaction sees 4.
    Request 1 then gets the lock and reads stock 10.  Both orders are
    created; the product ends with stock 4 and reservedStock 6 while the
    order items sum to 12.  Served one after the other, or when request 1
    asks for the lock while request 0 holds it, one order is created and the
    other request fails with "Insufficient stock" or "Cannot acquire
    lock". *)
Theorem concurrent_createOrder_oversells :
  let rq := createOrder (Sample.order_of "p1" 6) in
  let released := run_schedule (replicate 9 0%nat) ([rq; rq], Sample.world) in
  let raced := run_schedule Sample.race ([rq; rq], Sample.world) in
  let queued := run_schedule Sample.queued ([rq; rq], Sample.world) in
  let contended := run_schedule Sample.contended ([rq; rq], Sample.world) in
  find_product (products (db Sample.world)) "p1"
    = Some (mkProduct "p1" "Widget" 250 10 0 true) ∧
  (redis released.2 = ∅ ∧
   find_product (products (db released.2)) "p1"
     = Some (mkProduct "p1" "Widget" 250 10 0 true) ∧
   find_product (products (tx_view 0 released.2)) "p1"
     = Some (mkProduct "p1" "Widget" 250 4 6 true)) ∧
  (raced.1 = [Ret (Ok (mkOrder "uuid-3" "u1" PENDING 1500 "ORD-1700000000000-uuid-2"));
              Ret (Ok (mkOrder "uuid-7" "u1" PENDING 1500 "ORD-1700000000000-uuid-6"))] ∧
   find_product (products (db raced.2)) "p1"
     = Some (mkProduct "p1" "Widget" 250 4 6 true) ∧
   ordered_qty "p1" (db raced.2) = 12 ∧
   txs raced.2 = ∅ ∧ redis raced.2 = ∅) ∧
  (queued.1 = [Ret (Ok (mkOrder "uuid-2" "u1" PENDING 1500 "ORD-1700000000000-uuid-1"));
               Ret (Err (EInsufficientStock "Widget" 4 6))] ∧
   find_product (products (db queued.2)) "p1"
     = Some (mkProduct "p1" "Widget" 250 4 6 true) ∧
   ordered_qty "p1" (db queued.2) = 6) ∧
  (contended.1 = [Ret (Ok (mkOrder "uuid-3" "u1" PENDING 1500 "ORD-1700000000000-uuid-2"));
                  Ret (Err (ELockNotAcquired "p1"))] ∧
   find_product (products (db contended.2)) "p1"
     = Some (mkProduct "p1" "Widget" 250 4 6 true) ∧
   ordered_qty "p1" (db contended.2) = 6).
Proof.
  cbv zeta. repeat split; vm_compute; reflexivity.
Qed.

(** C5 as it is worded does not hold: the request [Sample.two_failures] has
    a line that asks for 11 of a product with stock 10, and yet the error is
    "Product not found", that of its first line. *)
Lemma createOrder_first_failure_wins :
  (∃ it p, it ∈ items Sample.two_failures ∧
     find_product (products (db Sample.world)) (productId it) = Some p ∧
     p_stock p < quantity it) ∧
  (run 0 (createOrder Sample.two_failures) Sample.world).1
    = Err (EProductNotFound "ghost").
Proof.
  split; [|vm_compute; reflexivity].
  exists (mkItemReq "p1" 11), Sample.widget.
  split; [simpl; set_solver|]. split; [vm_compute; reflexivity|simpl; lia].
Qed.

(** ** The theorems at work in the sample shop *)

Lemma cancelOrder_restores_and_cancels_witness :
  find_order (orders (db Sample.orphan_world)) "o1"
    = Some (mkOrder "o1" "u1" PENDING 600 "ORD-1-abc") ∧
  faults Sample.orphan_world = [] ∧
  (run 0 (cancelOrder "o1") Sample.orphan_world).1
    = Ok (Some (mkOrder "o1" "u1" CANCELLED 600 "ORD-1-abc")).
Proof.
  assert (find_order (orders (db Sample.orphan_world)) "o1"
            = Some (mkOrder "o1" "u1" PENDING 600 "ORD-1-abc")) as Ho
    by (vm_compute; reflexivity).
  split; [exact Ho|]. split; [reflexivity|].
  apply (proj1 cancelOrder_restores_and_cancels Z Sample.runtime 0%nat "o1"
           Sample.orphan_world _ Ho eq_refl).
  simpl. discriminate.
Defined.

Lemma stock_plus_reserved_conserved_witness :
  find_product (products (db Sample.world)) "p1" = Some Sample.widget ∧
  ∃ p', find_product (products (db (serve_all 0
              [CreateOrder (Sample.order_of "p1" 3); CancelOrder "uuid-2";
               CreateOrder (Sample.order_of "p1" 4)] Sample.world))) "p1" = Some p' ∧
        p_stock p' + p_reservedStock p' = p_stock Sample.widget + p_reservedStock Sample.widget.
Proof.
  assert (find_product (products (db Sample.world)) "p1" = Some Sample.widget) as Hp
    by (vm_compute; reflexivity).
  split; [exact Hp|].
  apply (proj2 (proj2 (stock_plus_reserved_conserved 0%nat Sample.world "p1" Sample.widget Hp))).
Defined.

Lemma createOrder_failure_rolls_back_witness :
  ((run 0 (createOrder Sample.two_lines) Sample.world).1
     = Err (EInsufficientStock "Gadget" 5 6) ∧
   db (run 0 (createOrder Sample.two_lines) Sample.world).2 = db Sample.world ∧
   txs (run 0 (createOrder Sample.two_lines) Sample.world).2
     = delete 0%nat (txs Sample.world)) ∧
  ((run 0 (createOrder Sample.two_lines) Sample.write_failure_world).1 = Err EDriver ∧
   db (run 0 (createOrder Sample.two_lines) Sample.write_failure_world).2
     = db Sample.write_failure_world ∧
   txs (run 0 (createOrder Sample.two_lines) Sample.write_failure_world).2
     = delete 0%nat (txs Sample.write_failure_world)).
Proof.
  split.
  - assert ((run 0 (createOrder Sample.two_lines) Sample.world).1
              = Err (EInsufficientStock "Gadget" 5 6)) as He by (vm_compute; reflexivity).
    split; [exact He|].
    destruct (createOrder_failure_rolls_back 0%nat Sample.two_lines Sample.world _ He)
      as (Hdb & rf & _ & Hroll).
    split; [exact Hdb|].
    refine (proj1 (Hroll (or_introl _))). intros H; discriminate H.
  - assert ((run 0 (createOrder Sample.two_lines) Sample.write_failure_world).1 = Err EDriver)
      as He by (vm_compute; reflexivity).
    assert (refused (run 0 (createOrder Sample.two_lines) Sample.write_failure_world).2
              = [QrSaveProduct (mkProduct "p1" "Widget" 250 9 1 true)]) as Href
      by (vm_compute; reflexivity).
    split; [exact He|].
    destruct (createOrder_failure_rolls_back 0%nat Sample.two_lines Sample.write_failure_world
                _ He) as (Hdb & rf & Hrf & Hroll).
    split; [exact Hdb|].
    rewrite Href in Hrf. simpl in Hrf. subst rf.
    refine (proj1 (Hroll (or_intror _))).
    repeat split; intros H%list_elem_of_singleton; discriminate H.
Defined.

Lemma createOrder_error_kinds_witness :
  faults Sample.world = [] ∧
  first_failure (db Sample.world) (redis Sample.world) Sample.two_failures
    = Some (EProductNotFound "ghost") ∧
  (run 0 (createOrder Sample.two_failures) Sample.world).1
    = Err (EProductNotFound "ghost").
Proof.
  assert (first_failure (db Sample.world) (redis Sample.world) Sample.two_failures
            = Some (EProductNotFound "ghost")) as Hff by (vm_compute; reflexivity).
  split; [reflexivity|]. split; [exact Hff|].
  destruct (createOrder_error_kinds 0%nat Sample.two_failures Sample.world)
    as (_ & _ & _ & H & _).
  specialize (H eq_refl). rewrite Hff in H. exact H.
Defined.

Lemma publish_failure_is_swallowed_witness :
  (run 0 (createOrder (Sample.order_of "p1" 3))
     (with_amqplib [AmqpOk; AmqpThrows] (with_channel true Sample.world))).1
    = Ok (mkOrder "uuid-2" "u1" PENDING 750 "ORD-1700000000000-uuid-1") ∧
  publish_outcome (Sample.order_of "p1" 3)
    (mkOrder "uuid-2" "u1" PENDING 750 "ORD-1700000000000-uuid-1")
    true [AmqpOk; AmqpThrows] (published Sample.world)
    (run 0 (createOrder (Sample.order_of "p1" 3))
       (with_amqplib [AmqpOk; AmqpThrows] (with_channel true Sample.world))).2.
Proof.
  assert ((run 0 (createOrder (Sample.order_of "p1" 3))
             (with_amqplib [AmqpOk; AmqpThrows] (with_channel true Sample.world))).1
            = Ok (mkOrder "uuid-2" "u1" PENDING 750 "ORD-1700000000000-uuid-1")) as Ho
    by (vm_compute; reflexivity).
  split; [exact Ho|].
  destruct (publish_failure_is_swallowed 0%nat (Sample.order_of "p1" 3) Sample.world
              true [AmqpOk; AmqpThrows]) as (_ & _ & _ & _ & H).
  exact (proj2 (H _ Ho)).
Defined.

Lemma getProductById_cache_aside_witness :
  faults Sample.world = [] ∧
  read_outcome Sample.world (run 0 (getProductById "p1") Sample.world).2 1 1 ∧
  read_outcome (run 0 (getProductById "p1") Sample.world).2
    (run 0 (getProductById "p1") (run 0 (getProductById "p1") Sample.world).2).2 0 0.
Proof.
  split; [reflexivity|].
  apply (proj2 (proj2 (getProductById_cache_aside 0%nat "p1" Sample.world eq_refl))
           Sample.widget).
  - vm_compute. reflexivity.
  - vm_compute. reflexivity.
  - vm_compute. discriminate.
Defined.

Lemma createOrder_prices_witness :
  (run 0 (createOrder (Sample.order_of "p1" 3)) Sample.world).1
    = Ok (mkOrder "uuid-2" "u1" PENDING 750 "ORD-1700000000000-uuid-1") ∧
  ∃ its,
    orderItems (db (run 0 (createOrder (Sample.order_of "p1" 3)) Sample.world).2) =
      foldl (λ m i, <[oi_id i := i]> m) (orderItems (db Sample.world)) its ∧
    orders (db (run 0 (createOrder (Sample.order_of "p1" 3)) Sample.world).2) !! "uuid-2"
      = Some (mkOrder "uuid-2" "u1" PENDING 750 "ORD-1700000000000-uuid-1") ∧
    Forall2 (λ i req,
               oi_orderId i = "uuid-2" ∧ oi_productId i = productId req ∧
               oi_quantity i = quantity req ∧
               oi_totalPrice i = oi_unitPrice i * oi_quantity i ∧
               ∃ p, find_product (products (db Sample.world)) (productId req) = Some p ∧
                    oi_unitPrice i = p_price p)
            its [mkItemReq "p1" 3] ∧
    750 = foldl (λ acc i, acc + oi_unitPrice i * oi_quantity i) 0 its.
Proof.
  assert ((run 0 (createOrder (Sample.order_of "p1" 3)) Sample.world).1
            = Ok (mkOrder "uuid-2" "u1" PENDING 750 "ORD-1700000000000-uuid-1")) as Ho
    by (vm_compute; reflexivity).
  split; [exact Ho|].
  exact (createOrder_prices 0%nat (Sample.order_of "p1" 3) Sample.world _ Ho).
Defined.

Lemma cancelOrder_skips_missing_product_witness :
  faults Sample.orphan_world = [] ∧
  find_order (orders (db Sample.orphan_world)) "o1"
    = Some (mkOrder "o1" "u1" PENDING 600 "ORD-1-abc") ∧
  mkOrderItem "i2" "o1" "gone" 1 100 100 ∈ items_of (orderItems (db Sample.orphan_world)) "o1" ∧
  find_product (products (db Sample.orphan_world)) "gone" = None ∧
  (run 0 (cancelOrder "o1") Sample.orphan_world).1
    = Ok (Some (mkOrder "o1" "u1" CANCELLED 600 "ORD-1-abc")) ∧
  find_product (products (db (run 0 (cancelOrder "o1") Sample.orphan_world).2)) "gone" = None.
Proof.
  assert (find_order (orders (db Sample.orphan_world)) "o1"
            = Some (mkOrder "o1" "u1" PENDING 600 "ORD-1-abc")) as Ho
    by (vm_compute; reflexivity).
  assert (mkOrderItem "i2" "o1" "gone" 1 100 100
            ∈ items_of (orderItems (db Sample.orphan_world)) "o1") as Hi
    by (vm_compute; repeat constructor).
  assert (find_product (products (db Sample.orphan_world)) "gone" = None) as Hn
    by (vm_compute; reflexivity).
  split; [reflexivity|]. split; [exact Ho|]. split; [exact Hi|]. split; [exact Hn|].
  destruct (cancelOrder_skips_missing_product 0%nat "o1" Sample.orphan_world _ _
              eq_refl Ho ltac:(simpl; discriminate) Hi Hn) as (Hr & _ & _ & Hg & _).
  split; [exact Hr|exact Hg].
Defined.


(** * The repositories, the controllers and the broker connection *)

(** ** Reasoning about calls through the repositories *)

Section RepoReasoning.
Context {num : Type} `{!JsRuntime num}.
Implicit Types (w : World num).

Lemma srun_bind {A B} conn (p : SProg num A) (f : A → SProg num B) w :
  srun conn (sbind p f) w =
    match (srun conn p w).1 with
    | Ok a => srun conn (f a) (srun conn p w).2
    | Err e => (Err e, (srun conn p w).2)
    end.
Proof. revert w. induction p as [[a|e]|c k IH]; intros w; simpl; auto. Qed.

Lemma srun_try_catch {A} conn (p : SProg num A) h w :
  srun conn (stry_catch p h) w =
    match (srun conn p w).1 with
    | Ok a => (Ok a, (srun conn p w).2)
    | Err e => srun conn (h e) (srun conn p w).2
    end.
Proof. revert w. induction p as [[a|e]|c k IH]; intros w; simpl; auto. Qed.

Lemma swp_ret {A} conn (a : A) Q w : Q (Ok a) w → swp conn (sret a) Q w.
Proof. auto. Qed.

Lemma swp_throw {A} conn e (Q : Result A → World num → Prop) w :
  Q (Err e) w → swp conn (sthrow e) Q w.
Proof. auto. Qed.

Lemma swp_bind {A B} conn (p : SProg num A) (f : A → SProg num B) Q w :
  swp conn p (λ r w', match r with
                      | Ok a => swp conn (f a) Q w'
                      | Err e => Q (Err e) w'
                      end) w →
  swp conn (sbind p f) Q w.
Proof. unfold swp. rewrite srun_bind. destruct (srun conn p w).1; auto. Qed.

Lemma swp_try_catch {A} conn (p : SProg num A) h Q w :
  swp conn p (λ r w', match r with
                      | Ok a => Q (Ok a) w'
                      | Err e => swp conn (h e) Q w'
                      end) w →
  swp conn (stry_catch p h) Q w.
Proof. unfold swp. rewrite srun_try_catch. destruct (srun conn p w).1; auto. Qed.

Lemma swp_scall conn c (Q : Result (Resp c) → World num → Prop) w :
  (faulty c w = true → Q (Err EDriver) (refuse c (consume c w))) →
  (faulty c w = false →
     Q (exec conn c (consume c w)).1 (exec conn c (consume c w)).2) →
  swp conn (scall c) Q w.
Proof.
  intros H1 H2. unfold swp. simpl. unfold handle.
  destruct (faulty c w); simpl; auto.
Qed.

Lemma swp_rcall conn c (Q : Result (RepoResp c) → World num → Prop) w :
  (head (faults w) = Some true → Q (Err EDriver) (with_faults (tail (faults w)) w)) →
  (head (faults w) ≠ Some true →
     Q (repo_exec c (with_faults (tail (faults w)) w)).1
       (repo_exec c (with_faults (tail (faults w)) w)).2) →
  swp conn (rcall c) Q w.
Proof.
  intros H1 H2. unfold swp. simpl. case_bool_decide; simpl; auto.
Qed.

Lemma swp_mono {A} conn (p : SProg num A) (Q Q' : Result A → World num → Prop) w :
  swp conn p Q w → (∀ r w', Q r w' → Q' r w') → swp conn p Q' w.
Proof. unfold swp. auto. Qed.
End RepoReasoning.

Global Arguments swp : simpl never.
Global Arguments srun : simpl never.
Global Arguments sbind : simpl never.
Global Arguments stry_catch : simpl never.
Global Arguments scall : simpl never.
Global Arguments rcall : simpl never.
Global Arguments sret : simpl never.
Global Arguments sthrow : simpl never.

Ltac swp_call_tac :=
  lazymatch goal with
  | |- @swp _ _ ?conn (@scall _ ?c) ?Q ?w =>
      apply (swp_scall conn c Q w); intros ?
  | |- @swp _ _ ?conn (@rcall _ ?c) ?Q ?w =>
      apply (swp_rcall conn c Q w); intros ?
  end.

(** [sstep Hf]: one [await], in the outcome that the pending faults [Hf]
    allow. *)
Ltac sdecide Hf H :=
  simpl in H; unfold faulty in H; simpl in H; rewrite ?Hf in H; simpl in H;
  rewrite ?andb_false_r in H; first [by (exfalso; congruence) | clear H].

Ltac sstep Hf :=
  try apply swp_bind;
  lazymatch goal with
  | |- @swp _ _ ?conn (@scall _ ?c) ?Q ?w =>
      apply (swp_scall conn c Q w); (let H := fresh in intros H; sdecide Hf H)
  | |- @swp _ _ ?conn (@rcall _ ?c) ?Q ?w =>
      apply (swp_rcall conn c Q w); (let H := fresh in intros H; sdecide Hf H)
  end; simpl.

(** ** Shared facts *)

Section SharedFacts.
Context {num : Type} `{!JsRuntime num}.
Implicit Types (w : World num).

Lemma faults_tx_write conn f w : faults (tx_write conn f w) = faults w.
Proof. by destruct (tx_write_rest conn f w) as (_&_&_&_&_&_&_&->&_). Qed.

Lemma run_faults_nil {A} conn (p : Prog num A) w :
  faults w = [] → faults (run conn p w).2 = [].
Proof.
  intros Hf.
  apply (wp_issues (λ _, True) (λ w, faults w = []) conn p w); [apply issues_any| |done].
  intros c w' _ Hw'. unfold handle, faulty. rewrite Hw'. simpl.
  rewrite andb_false_r.
  destruct c; simpl; rewrite ?faults_tx_write; simpl; repeat case_match; simpl;
    by rewrite ?Hw'.
Qed.

Lemma find_order_insert (t : gmap string (Order num)) o :
  find_order (<[o_id o := o]> t) (o_id o) = Some o.
Proof. unfold find_order. rewrite lookup_insert_eq. by rewrite decide_True. Qed.

Lemma createOrder_user_absent conn data w :
  faults w = [] → userId data ∉ users (db w) →
  (run conn (createOrder data) w).1 = Err EUserNotFound.
Proof.
  intros Hf Hu. pose proof (createOrder_cases conn data w) as H.
  destruct (run conn (createOrder data) w).1 as [o|e].
  - by destruct H as (its & l & ? & _).
  - destruct H as [_ H]. destruct e; simpl in H; try done; by destruct H.
Qed.

Lemma cancelOrder_unknown conn orderId w :
  faults w = [] → find_order (orders (db w)) orderId = None →
  (run conn (cancelOrder orderId) w).1 = Ok None ∧
  db (run conn (cancelOrder orderId) w).2 = db w.
Proof.
  intros Hf Ho. pose proof (cancelOrder_cases conn orderId w) as H.
  destruct (run conn (cancelOrder orderId) w).1 as [[o'|]|e].
  - destruct H as (o & l & Ho' & _). congruence.
  - by destruct H.
  - destruct H as (_ & H & _). destruct e; simpl in H; try done.
    destruct H as (o & ? & _). congruence.
Qed.
End SharedFacts.

(** ** [updateOrderStatus] *)

Section UpdateStatus.
Context {num : Type} `{!JsRuntime num}.
Implicit Types (w : World num).

(** [updateOrderStatus] on an order that is there, with no fault. *)
Lemma updateOrderStatus_found conn orderId s w o :
  find_order (orders (db w)) orderId = Some o → faults w = [] →
  swp conn (updateOrderStatus orderId s) (λ r w',
    r = Ok (Some (set_status s o)) ∧
    db w' = put_eventLog (mkEventLog (uuid_source w (uuid_next w)) orderId ORDER_CONFIRMED
                            (PayloadStatus (o_status o) s))
              (put_order (set_status s o) (db w)) ∧
    redis w' = redis w ∧ faults w' = []) w.
Proof.
  intros Ho Hf. unfold updateOrderStatus.
  apply swp_try_catch. sstep Hf. rewrite Ho.
  sstep Hf. sstep Hf. sstep Hf. sstep Hf.
  apply swp_ret. by rewrite Hf.
Qed.

(** X1 (status of an unknown order).  [updateOrderStatus] on an id that no
    order has writes nothing: the rows and Redis are as before, whatever
    fails; when nothing fails it returns null. *)
Theorem updateOrderStatus_unknown_order conn orderId s w :
  find_order (orders (db w)) orderId = None →
  db (srun conn (updateOrderStatus orderId s) w).2 = db w ∧
  redis (srun conn (updateOrderStatus orderId s) w).2 = redis w ∧
  (faults w = [] → (srun conn (updateOrderStatus orderId s) w).1 = Ok None).
Proof.
  intros Ho.
  enough (swp conn (updateOrderStatus orderId s) (λ r w',
            db w' = db w ∧ redis w' = redis w ∧ (faults w = [] → r = Ok None)) w)
    by done.
  unfold updateOrderStatus, logAndRethrow.
  apply swp_try_catch, swp_bind. swp_call_tac; simpl.
  - apply swp_bind. swp_call_tac; [done|]. simpl. apply swp_throw.
    split; [done|]. split; [done|]. intros Hf. by rewrite Hf in *.
  - rewrite Ho. by apply swp_ret.
Qed.

(** X2 (status update).  When nothing fails, [updateOrderStatus] on an
    order that is there returns the order with the new status, stores it
    under its id, adds one event log of type ORDER_CONFIRMED, whatever the
    new status, whose payload holds the old and the new status, and
    touches neither products, order items nor Redis: moving an order to
    CANCELLED this way restores no stock. *)
Theorem updateOrderStatus_sets_status conn orderId s w o :
  find_order (orders (db w)) orderId = Some o → faults w = [] →
  (srun conn (updateOrderStatus orderId s) w).1 = Ok (Some (set_status s o)) ∧
  orders (db (srun conn (updateOrderStatus orderId s) w).2) =
    <[orderId := set_status s o]> (orders (db w)) ∧
  eventLogs (db (srun conn (updateOrderStatus orderId s) w).2) =
    <[uuid_source w (uuid_next w) :=
        mkEventLog (uuid_source w (uuid_next w)) orderId ORDER_CONFIRMED
          (PayloadStatus (o_status o) s)]> (eventLogs (db w)) ∧
  products (db (srun conn (updateOrderStatus orderId s) w).2) = products (db w) ∧
  orderItems (db (srun conn (updateOrderStatus orderId s) w).2) = orderItems (db w) ∧
  redis (srun conn (updateOrderStatus orderId s) w).2 = redis w.
Proof.
  intros Ho Hf.
  destruct (updateOrderStatus_found conn orderId s w o Ho Hf) as (Hr & Hdb & Hre & _).
  apply find_order_Some in Ho as [Hid _].
  rewrite Hr, Hdb, Hre. simpl. by rewrite Hid.
Qed.

(** X3 (status update is not atomic).  When the save of the event log
    fails, [updateOrderStatus] throws, yet the new status has been
    stored: the order is changed and no event log tells of it. *)
Theorem updateOrderStatus_not_atomic conn orderId s w o rest :
  find_order (orders (db w)) orderId = Some o →
  faults w = false :: false :: true :: rest →
  (srun conn (updateOrderStatus orderId s) w).1 = Err EDriver ∧
  orders (db (srun conn (updateOrderStatus orderId s) w).2) =
    <[orderId := set_status s o]> (orders (db w)) ∧
  eventLogs (db (srun conn (updateOrderStatus orderId s) w).2) = eventLogs (db w).
Proof.
  intros Ho Hf.
  enough (swp conn (updateOrderStatus orderId s) (λ r w',
            r = Err EDriver ∧ db w' = put_order (set_status s o) (db w)) w) as [Hr Hdb].
  { apply find_order_Some in Ho as [Hid _]. rewrite Hr, Hdb. simpl. by rewrite Hid. }
  unfold updateOrderStatus, logAndRethrow.
  apply swp_try_catch. sstep Hf. rewrite Ho.
  sstep Hf. sstep Hf. sstep Hf. sstep Hf. by apply swp_throw.
Qed.

(** X4 (CANCELLED by status update).  After [updateOrderStatus] has set
    an order to CANCELLED, [cancelOrder] on it throws "Order already
    cancelled" and every product row stays as it was before the two
    calls: the stock that the order reserved is not given back. *)
Theorem status_cancelled_blocks_cancelOrder conn conn' orderId w o :
  find_order (orders (db w)) orderId = Some o → faults w = [] →
  (run conn' (cancelOrder orderId)
       (srun conn (updateOrderStatus orderId CANCELLED) w).2).1 = Err EAlreadyCancelled ∧
  products (db (run conn' (cancelOrder orderId)
                  (srun conn (updateOrderStatus orderId CANCELLED) w).2).2)
    = products (db w).
Proof.
  intros Ho Hf.
  destruct (updateOrderStatus_found conn orderId CANCELLED w o Ho Hf)
    as (_ & Hdb & _ & Hf1).
  apply find_order_Some in Ho as [Hid _].
  set (w1 := (srun conn (updateOrderStatus orderId CANCELLED) w).2) in *.
  assert (find_order (orders (db w1)) orderId = Some (set_status CANCELLED o)) as Ho1.
  { rewrite Hdb. simpl. rewrite <-Hid. apply (find_order_insert _ (set_status CANCELLED o)). }
  destruct (cancelOrder_found conn' orderId w1 _ Ho1 Hf1) as [_ H].
  destruct (H eq_refl) as (Hr & Hdb' & _).
  split; [done|]. by rewrite Hdb', Hdb.
Qed.

(** X5 (cancel, reopen, cancel).  When a cancelled order is moved to
    another status by [updateOrderStatus] and cancelled again, both
    cancellations succeed and each product gets the quantities of the
    order's items back twice. *)
Theorem reopened_order_is_restored_twice conn orderId s w o :
  find_order (orders (db w)) orderId = Some o → o_status o ≠ CANCELLED →
  s ≠ CANCELLED → faults w = [] →
  let w1 := (run conn (cancelOrder orderId) w).2 in
  let w2 := (srun conn (updateOrderStatus orderId s) w1).2 in
  let w3 := (run conn (cancelOrder orderId) w2).2 in
  (run conn (cancelOrder orderId) w).1 = Ok (Some (set_status CANCELLED o)) ∧
  (run conn (cancelOrder orderId) w2).1 = Ok (Some (set_status CANCELLED o)) ∧
  ∀ pid, find_product (products (db w3)) pid =
           restore (2 * restored_qty pid (items_of (orderItems (db w)) orderId))
             <$> find_product (products (db w)) pid.
Proof.
  intros Ho Hs Hs' Hf w1 w2 w3.
  destruct (cancelOrder_found conn orderId w o Ho Hf) as [H _].
  destruct (H Hs) as (Hr1 & Hord1 & Hits1 & Hview1 & _). fold w1 in Hord1, Hits1, Hview1.
  assert (faults w1 = []) as Hf1 by by apply run_faults_nil.
  pose proof Ho as [Hid _]%find_order_Some.
  assert (find_order (orders (db w1)) orderId = Some (set_status CANCELLED o)) as Ho1.
  { rewrite Hord1, <-Hid. apply (find_order_insert _ (set_status CANCELLED o)). }
  destruct (updateOrderStatus_found conn orderId s w1 _ Ho1 Hf1) as (_ & Hdb2 & _ & Hf2).
  fold w2 in Hdb2, Hf2.
  assert (find_order (orders (db w2)) orderId = Some (set_status s o)) as Ho2.
  { rewrite Hdb2. simpl. rewrite <-Hid.
    apply (find_order_insert _ (set_status s (set_status CANCELLED o))). }
  destruct (cancelOrder_found conn orderId w2 _ Ho2 Hf2) as [H2 _].
  destruct (H2 Hs') as (Hr3 & _ & _ & Hview3 & _). fold w3 in Hview3.
  split; [done|]. split; [done|].
  intros pid. rewrite Hview3, Hdb2. simpl. rewrite Hits1, Hview1.
  destruct (find_product (products (db w)) pid) as [p|]; [|done]. simpl.
  f_equal. rewrite restore_restore. f_equal. lia.
Qed.
End UpdateStatus.

(** ** [createProduct], [updateProduct], [deleteProduct], [clearCache] *)

Section Products.
Context {num : Type} `{!JsRuntime num}.
Implicit Types (w : World num).

(** [createProduct] with no fault. *)
Lemma createProduct_ok conn data w :
  faults w = [] →
  let p := mkProduct (uuid_source w (uuid_next w)) (pd_name data) (pd_price data)
                     (pd_stock data) 0 true in
  swp conn (createProduct data) (λ r w',
    r = Ok p ∧ db w' = put_product p (db w) ∧
    redis w' = <[cacheKey (p_id p) :=
                   mkRedisEntry (JSON_stringify p) (Some PRODUCT_CACHE_TTL)]> (redis w) ∧
    faults w' = []) w.
Proof.
  intros Hf p. unfold createProduct.
  apply swp_try_catch. sstep Hf. sstep Hf. sstep Hf. sstep Hf. sstep Hf.
  apply swp_ret. by rewrite Hf.
Qed.

(** X6 (create, then read).  When nothing fails, [createProduct] returns
    the new product, with the id drawn from [uuidv4], no reserved stock
    and active; stores it under that id; and caches its serialisation for
    3600 seconds.  A [getProductById] of that id right after is a hit: it
    returns what [JSON.parse] makes of the cached string and reads no
    row. *)
Theorem created_product_is_served_from_cache conn conn' data w :
  faults w = [] →
  let p := mkProduct (uuid_source w (uuid_next w)) (pd_name data) (pd_price data)
                     (pd_stock data) 0 true in
  let w1 := (srun conn (createProduct data) w).2 in
  JSON_stringify p ≠ "" →
  (srun conn (createProduct data) w).1 = Ok p ∧
  products (db w1) = <[p_id p := p]> (products (db w)) ∧
  redis w1 = <[cacheKey (p_id p) := mkRedisEntry (JSON_stringify p) (Some 3600)]> (redis w) ∧
  (run conn' (getProductById (p_id p)) w1).1 =
    match JSON_parse (JSON_stringify p) with
    | Some p' => Ok (Some p')
    | None => Err EJsonSyntax
    end ∧
  read_outcome w1 (run conn' (getProductById (p_id p)) w1).2 0 0.
Proof.
  intros Hf p w1 Hne.
  destruct (createProduct_ok conn data w Hf) as (Hr & Hdb & Hre & Hf1).
  fold p in Hr, Hdb, Hre. fold w1 in Hdb, Hre, Hf1.
  split; [done|]. split; [by rewrite Hdb|]. split; [done|].
  pose proof (getProductById_hit conn' (p_id p) w1
                (mkRedisEntry (JSON_stringify p) (Some PRODUCT_CACHE_TTL)) Hf1) as H.
  rewrite Hre, lookup_insert_eq in H. specialize (H eq_refl Hne).
  unfold wp in H. by destruct H as (? & _ & _ & ?).
Qed.

(** X7 (a product without its cache entry).  When the write to Redis
    fails, [createProduct] throws although the row of the product has
    been stored; Redis is as before. *)
Theorem createProduct_not_atomic conn data w rest :
  faults w = false :: true :: rest →
  let p := mkProduct (uuid_source w (uuid_next w)) (pd_name data) (pd_price data)
                     (pd_stock data) 0 true in
  (srun conn (createProduct data) w).1 = Err EDriver ∧
  products (db (srun conn (createProduct data) w).2) = <[p_id p := p]> (products (db w)) ∧
  redis (srun conn (createProduct data) w).2 = redis w.
Proof.
  intros Hf p.
  enough (swp conn (createProduct data) (λ r w',
            r = Err EDriver ∧ db w' = put_product p (db w) ∧ redis w' = redis w) w)
    as (Hr & Hdb & Hre) by by rewrite Hr, Hdb, Hre.
  unfold createProduct, logAndRethrow.
  apply swp_try_catch. sstep Hf. sstep Hf. sstep Hf. sstep Hf. sstep Hf.
  by apply swp_throw.
Qed.

(** X8 (update of an unknown product).  [updateProduct] on an id that no
    product has writes nothing, whatever fails; when nothing fails it
    returns null. *)
Theorem updateProduct_unknown_product conn productId data w :
  find_product (products (db w)) productId = None →
  db (srun conn (updateProduct productId data) w).2 = db w ∧
  redis (srun conn (updateProduct productId data) w).2 = redis w ∧
  (faults w = [] → (srun conn (updateProduct productId data) w).1 = Ok None).
Proof.
  intros Hp.
  enough (swp conn (updateProduct productId data) (λ r w',
            db w' = db w ∧ redis w' = redis w ∧ (faults w = [] → r = Ok None)) w)
    by done.
  unfold updateProduct, logAndRethrow.
  apply swp_try_catch, swp_bind. swp_call_tac; simpl.
  - apply swp_bind. swp_call_tac; [done|]. simpl. apply swp_throw.
    split; [done|]. split; [done|]. intros Hf.
    unfold faulty in *. rewrite Hf in *. by rewrite andb_false_r in *.
  - rewrite Hp. by apply swp_ret.
Qed.

(** [updateProduct] on a product that is there, with no fault. *)
Lemma updateProduct_found conn productId data w p :
  find_product (products (db w)) productId = Some p → faults w = [] →
  swp conn (updateProduct productId data) (λ r w',
    r = Ok (Some (assign p data)) ∧ db w' = put_product (assign p data) (db w) ∧
    redis w' = <[cacheKey productId :=
                   mkRedisEntry (JSON_stringify (assign p data))
                                (Some PRODUCT_CACHE_TTL)]> (redis w) ∧
    faults w' = []) w.
Proof.
  intros Hp Hf. unfold updateProduct.
  apply swp_try_catch. sstep Hf. rewrite Hp.
  sstep Hf. sstep Hf. sstep Hf. sstep Hf.
  apply swp_ret. rewrite Hf. by rewrite insert_delete_eq.
Qed.

(** X9 (update, then read).  When nothing fails and the patch leaves the
    id alone, [updateProduct] returns the patched product, stores it in
    place of the old row, leaves the other products alone and replaces
    the cache entry by the serialisation of the patched product, for 3600
    seconds; a [getProductById] right after is a hit on that entry. *)
Theorem updateProduct_refreshes_cache conn conn' productId data w p :
  find_product (products (db w)) productId = Some p → faults w = [] →
  pp_id data = None → JSON_stringify (assign p data) ≠ "" →
  let w1 := (srun conn (updateProduct productId data) w).2 in
  (srun conn (updateProduct productId data) w).1 = Ok (Some (assign p data)) ∧
  find_product (products (db w1)) productId = Some (assign p data) ∧
  (∀ pid, pid ≠ productId →
     find_product (products (db w1)) pid = find_product (products (db w)) pid) ∧
  redis w1 = <[cacheKey productId :=
                 mkRedisEntry (JSON_stringify (assign p data)) (Some 3600)]> (redis w) ∧
  (run conn' (getProductById productId) w1).1 =
    match JSON_parse (JSON_stringify (assign p data)) with
    | Some p' => Ok (Some p')
    | None => Err EJsonSyntax
    end ∧
  read_outcome w1 (run conn' (getProductById productId) w1).2 0 0.
Proof.
  intros Hp Hf Hid Hne w1.
  destruct (updateProduct_found conn productId data w p Hp Hf) as (Hr & Hdb & Hre & Hf1).
  fold w1 in Hdb, Hre, Hf1.
  assert (p_id (assign p data) = productId) as Hpid.
  { unfold assign. simpl. rewrite Hid. simpl. by eapply find_product_Some. }
  split; [done|]. split; [|split; [|split; [done|]]].
  - rewrite Hdb. unfold put_product. cbn [products]. rewrite find_product_insert. by rewrite decide_True.
  - intros pid Hne'. rewrite Hdb. unfold put_product. cbn [products]. rewrite find_product_insert.
    rewrite decide_False; [done|]. by rewrite Hpid.
  - pose proof (getProductById_hit conn' productId w1
                  (mkRedisEntry (JSON_stringify (assign p data)) (Some PRODUCT_CACHE_TTL))
                  Hf1) as H.
    rewrite Hre, lookup_insert_eq in H. specialize (H eq_refl Hne).
    unfold wp in H. by destruct H as (? & _ & _ & ?).
Qed.

(** X10 (stale cache after a failed invalidation).  When the deletion of
    the cache key fails, [updateProduct] throws although the patched row
    has been stored; the cache keeps the entry it had, and
    [getProductById] goes on answering from it. *)
Theorem updateProduct_redis_failure_leaves_stale_cache conn conn' productId data w p e :
  find_product (products (db w)) productId = Some p →
  redis w !! cacheKey productId = Some e → r_value e ≠ "" →
  faults w = [false; false; true] → pp_id data = None →
  let w1 := (srun conn (updateProduct productId data) w).2 in
  (srun conn (updateProduct productId data) w).1 = Err EDriver ∧
  find_product (products (db w1)) productId = Some (assign p data) ∧
  redis w1 = redis w ∧
  (run conn' (getProductById productId) w1).1 =
    match JSON_parse (r_value e) with
    | Some p' => Ok (Some p')
    | None => Err EJsonSyntax
    end.
Proof.
  intros Hp He Hne Hf Hid w1.
  assert (swp conn (updateProduct productId data) (λ r w',
            r = Err EDriver ∧ db w' = put_product (assign p data) (db w) ∧
            redis w' = redis w ∧ faults w' = []) w) as (Hr & Hdb & Hre & Hf1).
  { unfold updateProduct, logAndRethrow.
    apply swp_try_catch. sstep Hf. rewrite Hp.
    sstep Hf. sstep Hf. sstep Hf. apply swp_throw. by rewrite Hf. }
  fold w1 in Hdb, Hre, Hf1.
  assert (p_id (assign p data) = productId) as Hpid.
  { unfold assign. simpl. rewrite Hid. simpl. by eapply find_product_Some. }
  split; [done|]. split; [|split; [done|]].
  - rewrite Hdb. unfold put_product. cbn [products]. rewrite find_product_insert. by rewrite decide_True.
  - pose proof (getProductById_hit conn' productId w1 e Hf1) as H.
    rewrite Hre in H. specialize (H He Hne).
    unfold wp in H. by destruct H as (? & _).
Qed.

Lemma find_product_delete (V : gmap string (Product num)) id pid :
  find_product (delete id V) pid =
    if decide (id = pid) then None else find_product V pid.
Proof.
  unfold find_product. case_decide as Hd.
  - subst. by rewrite lookup_delete_eq.
  - by rewrite lookup_delete_ne.
Qed.

(** X11 (deletion of an unknown product).  [deleteProduct] on an id that
    no product has changes nothing, whatever fails; when nothing fails it
    returns false. *)
Theorem deleteProduct_unknown_product conn productId w :
  find_product (products (db w)) productId = None →
  db (srun conn (deleteProduct productId) w).2 = db w ∧
  redis (srun conn (deleteProduct productId) w).2 = redis w ∧
  (faults w = [] → (srun conn (deleteProduct productId) w).1 = Ok false).
Proof.
  intros Hp.
  enough (swp conn (deleteProduct productId) (λ r w',
            db w' = db w ∧ redis w' = redis w ∧ (faults w = [] → r = Ok false)) w)
    by done.
  unfold deleteProduct, logAndRethrow.
  apply swp_try_catch, swp_bind. swp_call_tac; simpl.
  - apply swp_bind. swp_call_tac; [done|]. simpl. apply swp_throw.
    split; [done|]. split; [done|]. intros Hf. by rewrite Hf in *.
  - unfold del_product. rewrite Hp. simpl. by apply swp_ret.
Qed.

(** [deleteProduct] on a product that is there, with no fault. *)
Lemma deleteProduct_found conn productId w p :
  find_product (products (db w)) productId = Some p → faults w = [] →
  swp conn (deleteProduct productId) (λ r w',
    r = Ok true ∧ db w' = del_product productId (db w) ∧
    redis w' = delete (cacheKey productId) (redis w) ∧ faults w' = []) w.
Proof.
  intros Hp Hf. unfold deleteProduct.
  apply swp_try_catch. sstep Hf. rewrite Hp. simpl.
  sstep Hf. sstep Hf. apply swp_ret. by rewrite Hf.
Qed.

Lemma find_product_del_product (d : Db num) id p pid :
  find_product (products d) id = Some p →
  find_product (products (del_product id d)) pid =
    if decide (id = pid) then None else find_product (products d) pid.
Proof. intros Hp. unfold del_product. rewrite Hp. simpl. apply find_product_delete. Qed.

(** X12 (delete, then read).  When nothing fails, [deleteProduct] on a
    product that is there returns true, removes its row and no other, and
    removes its cache entry; a [getProductById] right after returns null,
    after one read of the store, and caches nothing. *)
Theorem deleted_product_is_gone conn conn' productId w p :
  find_product (products (db w)) productId = Some p → faults w = [] →
  let w1 := (srun conn (deleteProduct productId) w).2 in
  let w2 := (run conn' (getProductById productId) w1).2 in
  (srun conn (deleteProduct productId) w).1 = Ok true ∧
  (∀ pid, find_product (products (db w1)) pid =
            if decide (productId = pid) then None else find_product (products (db w)) pid) ∧
  redis w1 = delete (cacheKey productId) (redis w) ∧
  (run conn' (getProductById productId) w1).1 = Ok None ∧
  redis w2 = redis w1 ∧ read_outcome w1 w2 1 0.
Proof.
  intros Hp Hf w1 w2.
  destruct (deleteProduct_found conn productId w p Hp Hf) as (Hr & Hdb & Hre & Hf1).
  fold w1 in Hdb, Hre, Hf1.
  split; [done|]. split; [|split; [done|]].
  { intros pid. rewrite Hdb. by apply (find_product_del_product _ _ p). }
  assert (truthy (r_value <$> redis w1 !! cacheKey productId) = false) as Hmiss.
  { by rewrite Hre, lookup_delete_eq. }
  pose proof (getProductById_miss conn' productId w1 Hf1 Hmiss) as H. unfold wp in H.
  assert (find_product (products (db w1)) productId = None) as Hnone.
  { rewrite Hdb, (find_product_del_product _ _ p _ Hp). by rewrite decide_True. }
  rewrite Hnone in H. by destruct H as (? & _ & ? & ?).
Qed.

(** X13 (a deleted product that is still served).  When the deletion of
    the cache key fails, [deleteProduct] throws although the row is gone;
    if the product was cached, [getProductById] goes on answering with
    it. *)
Theorem deleteProduct_redis_failure_leaves_stale_cache conn conn' productId w p e :
  find_product (products (db w)) productId = Some p →
  redis w !! cacheKey productId = Some e → r_value e ≠ "" →
  faults w = [false; true] →
  let w1 := (srun conn (deleteProduct productId) w).2 in
  (srun conn (deleteProduct productId) w).1 = Err EDriver ∧
  find_product (products (db w1)) productId = None ∧
  (run conn' (getProductById productId) w1).1 =
    match JSON_parse (r_value e) with
    | Some p' => Ok (Some p')
    | None => Err EJsonSyntax
    end.
Proof.
  intros Hp He Hne Hf w1.
  assert (swp conn (deleteProduct productId) (λ r w',
            r = Err EDriver ∧ db w' = del_product productId (db w) ∧
            redis w' = redis w ∧ faults w' = []) w) as (Hr & Hdb & Hre & Hf1).
  { unfold deleteProduct, logAndRethrow.
    apply swp_try_catch. sstep Hf. rewrite Hp. simpl.
    sstep Hf. sstep Hf. apply swp_throw. by rewrite Hf. }
  fold w1 in Hdb, Hre, Hf1.
  split; [done|]. split.
  - rewrite Hdb, (find_product_del_product _ _ p _ Hp). by rewrite decide_True.
  - pose proof (getProductById_hit conn' productId w1 e Hf1) as H.
    rewrite Hre in H. specialize (H He Hne).
    unfold wp in H. by destruct H as (? & _).
Qed.

Lemma elem_of_keys_with prefix (r : gmap string RedisEntry) k :
  k ∈ keys_with prefix r ↔ String.prefix prefix k = true ∧ is_Some (r !! k).
Proof.
  unfold keys_with. rewrite list_elem_of_filter, list_elem_of_fmap. split.
  - intros [Hp ([k' v] & -> & Hkv)]. split; [done|].
    apply elem_of_map_to_list in Hkv. by exists v.
  - intros [Hp [v Hv]]. split; [done|]. exists (k, v). split; [done|].
    by apply elem_of_map_to_list.
Qed.

Lemma lookup_clear prefix (r : gmap string RedisEntry) k :
  foldr delete r (keys_with prefix r) !! k =
    if String.prefix prefix k then None else r !! k.
Proof.
  destruct (String.prefix prefix k) eqn:Hp.
  - destruct (r !! k) as [v|] eqn:Hk.
    + apply lookup_foldr_delete, elem_of_keys_with. by rewrite Hk.
    + rewrite lookup_foldr_delete_not_elem_of; [done|].
      rewrite elem_of_keys_with, Hk. by intros [_ []].
  - rewrite lookup_foldr_delete_not_elem_of; [done|].
    rewrite elem_of_keys_with, Hp. by intros [].
Qed.

(** X14 (clearing the cache).  When nothing fails, [clearCache] returns,
    leaves the rows alone and removes from Redis the keys that begin with
    "product:" and no other: the stock locks stay. *)
Theorem clearCache_clears_product_keys_only conn w :
  faults w = [] →
  (srun conn clearCache w).1 = Ok tt ∧
  db (srun conn clearCache w).2 = db w ∧
  (∀ k, redis (srun conn clearCache w).2 !! k =
          if String.prefix PRODUCT_CACHE_PREFIX k then None else redis w !! k) ∧
  (∀ pid, redis (srun conn clearCache w).2 !! lockKey pid = redis w !! lockKey pid).
Proof.
  intros Hf.
  enough (swp conn clearCache (λ r w',
            r = Ok tt ∧ db w' = db w ∧
            ∀ k, redis w' !! k =
                   if String.prefix PRODUCT_CACHE_PREFIX k then None else redis w !! k) w)
    as (Hr & Hdb & Hre).
  { split; [done|]. split; [done|]. split; [done|]. intros pid. by rewrite Hre. }
  unfold clearCache.
  apply swp_try_catch. sstep Hf.
  destruct (0 <? length (keys_with PRODUCT_CACHE_PREFIX (redis w)))%nat eqn:Hlen.
  - sstep Hf. sstep Hf. split; [done|]. split; [done|]. intros k. apply lookup_clear.
  - apply swp_ret. split; [done|]. split; [done|]. intros k.
    apply Nat.ltb_ge in Hlen.
    assert (keys_with PRODUCT_CACHE_PREFIX (redis w) = []) as Hnil
      by (apply length_zero_iff_nil; lia).
    rewrite <-(lookup_clear PRODUCT_CACHE_PREFIX). by rewrite Hnil.
Qed.

(** X15 (clearCache swallows errors).  [clearCache] never throws and
    never changes a row; when [keys] fails, or [keys] succeeds and [del]
    fails, Redis is as before, so the caller cannot tell that nothing was
    cleared. *)
Theorem clearCache_never_throws conn w :
  (srun conn clearCache w).1 = Ok tt ∧
  db (srun conn clearCache w).2 = db w ∧
  (head (faults w) = Some true ∨ faults w = [false; true] →
   redis (srun conn clearCache w).2 = redis w).
Proof.
  enough (swp conn clearCache (λ r w',
            r = Ok tt ∧ db w' = db w ∧
            (head (faults w) = Some true ∨ faults w = [false; true] → redis w' = redis w)) w)
    by done.
  unfold clearCache.
  apply swp_try_catch, swp_bind. swp_call_tac; simpl.
  { swp_call_tac; [done|]. by simpl. }
  destruct (0 <? length (keys_with PRODUCT_CACHE_PREFIX (redis w)))%nat.
  - apply swp_bind. swp_call_tac; simpl.
    { swp_call_tac; [done|]. by simpl. }
    swp_call_tac; [done|]. simpl. split; [done|]. split; [done|].
    intros [Hh|Hf]; [done|]. by rewrite Hf in *.
  - by apply swp_ret.
Qed.
End Products.

(** ** The statuses of the handlers *)

Section IncludesFacts.

Lemma prefix_nil (s : string) : String.prefix "" s = true.
Proof. by destruct s. Qed.

Lemma prefix_cons a pat b s :
  String.prefix (String a pat) (String b s) =
    if Ascii.ascii_dec a b then String.prefix pat s else false.
Proof. reflexivity. Qed.

Lemma includes_cons c s pat :
  includes (String c s) pat = String.prefix pat (String c s) || includes s pat.
Proof. reflexivity. Qed.

Lemma prefix_app (pat s t : string) :
  String.prefix pat s = true → String.prefix pat (s +:+ t) = true.
Proof.
  revert pat. induction s as [|b s IH]; intros [|a pat]; try done.
  - intros _. apply prefix_nil.
  - change (String b s +:+ t) with (String b (s +:+ t)). rewrite !prefix_cons.
    destruct (Ascii.ascii_dec a b); [apply IH|done].
Qed.

Lemma includes_app_l (s t pat : string) :
  includes s pat = true → includes (s +:+ t) pat = true.
Proof.
  induction s as [|c s IH].
  - destruct pat; [|done]. intros _. by destruct t.
  - change (String c s +:+ t) with (String c (s +:+ t)). rewrite !includes_cons.
    intros [Hp|Hi]%orb_true_iff; apply orb_true_iff.
    + left. by apply (prefix_app pat (String c s) t).
    + right. by apply IH.
Qed.

Lemma prefix_clash pat u r :
  clash pat u = true → String.prefix pat (u +:+ r) = false.
Proof.
  revert pat. induction u as [|b u IH]; intros [|a pat]; try done.
  change (String b u +:+ r) with (String b (u +:+ r)). rewrite prefix_cons.
  cbn [clash]. destruct (Ascii.ascii_dec a b); [apply IH|done].
Qed.

Lemma includes_tails_clash pat u r :
  tails_clash pat u = true → includes (u +:+ r) pat = includes r pat.
Proof.
  induction u as [|b u IH]; [done|].
  cbn [tails_clash]. intros [Hc Ht]%andb_true_iff.
  pose proof (prefix_clash pat (String b u) r Hc) as Hp.
  change (String b u +:+ r) with (String b (u +:+ r)) in *. rewrite includes_cons.
  rewrite Hp. by apply IH.
Qed.

Lemma includes_space_cons c s :
  includes (String c s) " " = false → c ≠ " "%char ∧ includes s " " = false.
Proof.
  rewrite includes_cons, prefix_cons, prefix_nil.
  destruct (Ascii.ascii_dec " " c) as [<-|Hc]; [done|].
  intros Hs. split; [|done]. intros Heq. by rewrite Heq in Hc.
Qed.

Lemma prefix_spaced p1 p2 post s :
  includes s " " = false → tails_miss p1 p2 post = true →
  String.prefix (p1 +:+ " " +:+ p2) (s +:+ post) = false.
Proof.
  revert s. induction p1 as [|a p1 IH]; intros s Hs Ht;
    cbn [tails_miss] in Ht; apply andb_true_iff in Ht as [Hp Ht];
    apply negb_true_iff in Hp.
  - destruct s as [|c s]; [done|].
    apply includes_space_cons in Hs as [Hc _].
    change (String.prefix (String " " p2) (String c (s +:+ post)) = false).
    rewrite prefix_cons. destruct (Ascii.ascii_dec " " c); [|done].
    by subst.
  - destruct s as [|c s]; [done|].
    apply includes_space_cons in Hs as [_ Hs].
    change (String.prefix (String a (p1 +:+ " " +:+ p2)) (String c (s +:+ post)) = false).
    rewrite prefix_cons. destruct (Ascii.ascii_dec a c); [|done]. by apply IH.
Qed.

Lemma includes_spaced p1 p2 post s :
  includes s " " = false → tails_miss p1 p2 post = true →
  includes post (p1 +:+ " " +:+ p2) = false →
  includes (s +:+ post) (p1 +:+ " " +:+ p2) = false.
Proof.
  intros Hs Ht Hpost. induction s as [|c s IH]; [done|].
  change (String c s +:+ post) with (String c (s +:+ post)).
  rewrite includes_cons. apply orb_false_iff. split.
  - by apply (prefix_spaced p1 p2 post (String c s)).
  - apply IH. by apply includes_space_cons in Hs as [_ ?].
Qed.

Lemma lock_message_includes pid :
  includes (message (ELockNotAcquired pid)) "not found" = includes (pid +:+ ". Please try again.") "not found" ∧
  includes (message (ELockNotAcquired pid)) "Insufficient stock" =
    includes (pid +:+ ". Please try again.") "Insufficient stock" ∧
  includes (message (ELockNotAcquired pid)) "lock" = true.
Proof.
  unfold message. split; [|split].
  - by rewrite (includes_tails_clash "not found" "Cannot acquire lock for product ").
  - by rewrite (includes_tails_clash "Insufficient stock" "Cannot acquire lock for product ").
  - by apply (includes_app_l "Cannot acquire lock").
Qed.

Lemma lock_status_conflict pid :
  includes pid " " = false →
  createOrderErrorStatus (message (ELockNotAcquired pid)) = 409.
Proof.
  intros Hs. destruct (lock_message_includes pid) as (H1 & H2 & H3).
  unfold createOrderErrorStatus. rewrite H1, H2, H3.
  rewrite (includes_spaced "not" "found") by done.
  by rewrite (includes_spaced "Insufficient" "stock").
Qed.

(** X16 (statuses of createOrder's errors).  The handler answers 400 to
    "User not found", to "Product not found: ..." and to "Insufficient
    stock for ..." whatever the product id, the name and the numbers; it
    answers 409 to "Cannot acquire lock for product <id>..." when the id
    has no space in it, but 400 when the id contains "not found", since
    the test for "not found" comes first. *)
Theorem createOrder_error_statuses :
  createOrderErrorStatus (message EUserNotFound) = 400 ∧
  (∀ pid, createOrderErrorStatus (message (EProductNotFound pid)) = 400) ∧
  (∀ name available requested,
     createOrderErrorStatus (message (EInsufficientStock name available requested)) = 400) ∧
  (∀ pid, includes pid " " = false →
     createOrderErrorStatus (message (ELockNotAcquired pid)) = 409) ∧
  (∀ pid, includes pid "not found" = true →
     createOrderErrorStatus (message (ELockNotAcquired pid)) = 400).
Proof.
  split; [done|]. split; [|split; [|split]].
  - intros pid.
    assert (includes (message (EProductNotFound pid)) "not found" = true) as Hi
      by by apply (includes_app_l "Product not found: ").
    unfold createOrderErrorStatus. by rewrite Hi.
  - intros name available requested.
    assert (includes (message (EInsufficientStock name available requested))
              "Insufficient stock" = true) as Hi
      by by apply (includes_app_l "Insufficient stock for ").
    unfold createOrderErrorStatus. by rewrite Hi, orb_true_r.
  - apply lock_status_conflict.
  - intros pid Hp. destruct (lock_message_includes pid) as (H1 & _).
    unfold createOrderErrorStatus. rewrite H1.
    by rewrite (includes_app_l pid ". Please try again." "not found").
Qed.
End IncludesFacts.

Section ControllerFacts.
Context {num : Type} `{!JsRuntime num}.
Implicit Types (w : World num).

Lemma controller_createOrder_run conn value w :
  wp conn (controller_createOrder (inr value)) (λ r w',
    r = Ok match (run conn (createOrder value) w).1 with
           | Ok order =>
               mkResponse 201 true (Some order) None []
                 (Some "Order created successfully. Processing in background...")
           | Err error =>
               mkResponse (createOrderErrorStatus (message error)) false None
                 (Some (message error)) [] None
           end ∧
    db w' = db (run conn (createOrder value) w).2 ∧
    redis w' = redis (run conn (createOrder value) w).2) w.
Proof.
  unfold controller_createOrder. destruct value as [u its]. cbn [userId items].
  apply wp_try_catch, wp_bind. unfold wp at 1.
  destruct (run conn (createOrder (mkCreateOrderData u its)) w) as [[o|e] w1];
    cbn [fst snd].
  - by apply wp_ret.
  - apply wp_bind. wp_call_tac. simpl. by apply wp_ret.
Qed.

(** X17 (answers of the createOrder handler).  When nothing fails: a body
    that the validator rejects is answered 400 "Validation failed" with
    the validator's messages, and nothing at all is done; an order that
    the service returns is answered 201 with that order; an unknown user
    is answered 400 "User not found"; a first line whose lock is held
    (and whose product id has no space) is answered 409 with the message
    of the lock, and no row has changed. *)
Theorem controller_createOrder_statuses conn value w :
  faults w = [] →
  (∀ details,
     run conn (controller_createOrder (inl details)) w =
       (Ok (mkResponse 400 false None (Some "Validation failed") details None), w)) ∧
  (∀ order, (run conn (createOrder value) w).1 = Ok order →
     (run conn (controller_createOrder (inr value)) w).1 =
       Ok (mkResponse 201 true (Some order) None []
             (Some "Order created successfully. Processing in background..."))) ∧
  (userId value ∉ users (db w) →
     (run conn (controller_createOrder (inr value)) w).1 =
       Ok (mkResponse 400 false None (Some "User not found") [] None)) ∧
  (∀ it rest,
     userId value ∈ users (db w) → items value = it :: rest →
     is_Some (redis w !! lockKey (productId it)) →
     includes (productId it) " " = false →
     (run conn (controller_createOrder (inr value)) w).1 =
       Ok (mkResponse 409 false None
             (Some ("Cannot acquire lock for product " +:+ productId it
                    +:+ ". Please try again.")) [] None) ∧
     db (run conn (controller_createOrder (inr value)) w).2 = db w).
Proof.
  intros Hf. split; [done|].
  destruct (controller_createOrder_run conn value w) as (Hrun & Hdb & Hre).
  rewrite Hrun. split; [|split].
  - intros order Ho. by rewrite Ho.
  - intros Hu. by rewrite (createOrder_user_absent conn value w Hf Hu).
  - intros it rest Hu Hit Hheld Hsp.
    pose proof (createOrder_refused conn value it rest w Hf Hu Hit Hheld) as [He _].
    pose proof (createOrder_cases conn value w) as Hc.
    rewrite He in *. destruct Hc as [Hdb' _].
    split; [|by rewrite Hdb, Hdb'].
    by rewrite (lock_status_conflict _ Hsp).
Qed.

Lemma controller_cancelOrder_run conn trim id w :
  id ≠ "" → trim id ≠ "" →
  wp conn (controller_cancelOrder trim (Some id)) (λ r w',
    r = Ok match (run conn (cancelOrder id) w).1 with
           | Ok None => mkResponse 404 false None (Some "Order not found") [] None
           | Ok (Some cancelled) =>
               mkResponse 200 true (Some cancelled) None []
                 (Some "Order cancelled successfully")
           | Err error =>
               mkResponse (cancelOrderErrorStatus (message error)) false None
                 (Some (message error)) [] None
           end ∧
    db w' = db (run conn (cancelOrder id) w).2 ∧
    faults w' = faults (run conn (cancelOrder id) w).2) w.
Proof.
  intros Hid Htrim. unfold controller_cancelOrder.
  rewrite !bool_decide_false by done. cbn [orb].
  apply wp_try_catch, wp_bind. unfold wp at 1.
  destruct (run conn (cancelOrder id) w) as [[[o|]|e] w1]; cbn [fst snd].
  - by apply wp_ret.
  - by apply wp_ret.
  - apply wp_bind. wp_call_tac. simpl. by apply wp_ret.
Qed.

(** X18 (answers of the cancelOrder handler).  When nothing fails: a
    missing, empty or blank id is answered 400 "Order ID is required"
    and nothing at all is done; an id that no order has is answered 404
    with the rows unchanged; an order that is not cancelled is answered
    200 with the order set to CANCELLED, and the same request once more
    is answered 400 "Order already cancelled" with the rows
    unchanged. *)
Theorem controller_cancelOrder_statuses conn trim w :
  faults w = [] →
  (∀ id, id = None ∨ id = Some "" ∨ (∃ i, id = Some i ∧ trim i = "") →
     run conn (controller_cancelOrder trim id) w =
       (Ok (mkResponse 400 false None (Some "Order ID is required") [] None), w)) ∧
  (∀ id, id ≠ "" → trim id ≠ "" → find_order (orders (db w)) id = None →
     (run conn (controller_cancelOrder trim (Some id)) w).1 =
       Ok (mkResponse 404 false None (Some "Order not found") [] None) ∧
     db (run conn (controller_cancelOrder trim (Some id)) w).2 = db w) ∧
  (∀ id o, id ≠ "" → trim id ≠ "" → find_order (orders (db w)) id = Some o →
     o_status o ≠ CANCELLED →
     let w1 := (run conn (controller_cancelOrder trim (Some id)) w).2 in
     (run conn (controller_cancelOrder trim (Some id)) w).1 =
       Ok (mkResponse 200 true (Some (set_status CANCELLED o)) None []
             (Some "Order cancelled successfully")) ∧
     (run conn (controller_cancelOrder trim (Some id)) w1).1 =
       Ok (mkResponse 400 false None (Some "Order already cancelled") [] None) ∧
     db (run conn (controller_cancelOrder trim (Some id)) w1).2 = db w1).
Proof.
  intros Hf. split; [|split].
  - intros id [->|[->|(i & -> & Hi)]]; try done.
    unfold controller_cancelOrder. rewrite (bool_decide_true (trim i = "")) by done.
    by rewrite orb_true_r.
  - intros id Hid Htrim Ho.
    destruct (controller_cancelOrder_run conn trim id w Hid Htrim) as (Hr & Hdb & _).
    destruct (cancelOrder_unknown conn id w Hf Ho) as [Hc Hdb'].
    rewrite Hr, Hdb, Hc. by rewrite Hdb'.
  - intros id o Hid Htrim Ho Hs w1.
    destruct (controller_cancelOrder_run conn trim id w Hid Htrim) as (Hr & Hdb & Hf1).
    fold w1 in Hdb, Hf1.
    destruct (cancelOrder_found conn id w o Ho Hf) as [H _].
    destruct (H Hs) as (Hc & Hord & _).
    rewrite Hr, Hc. split; [done|].
    assert (faults w1 = []) as Hf1' by (rewrite Hf1; by apply run_faults_nil).
    assert (find_order (orders (db w1)) id = Some (set_status CANCELLED o)) as Ho1.
    { rewrite Hdb, Hord. apply find_order_Some in Ho as [<- _].
      apply (find_order_insert _ (set_status CANCELLED o)). }
    destruct (controller_cancelOrder_run conn trim id w1 Hid Htrim) as (Hr2 & Hdb2 & _).
    destruct (cancelOrder_found conn id w1 _ Ho1 Hf1') as [_ H2].
    destruct (H2 eq_refl) as (Hc2 & Hdb2' & _).
    rewrite Hr2, Hdb2, Hc2. by rewrite Hdb2'.
Qed.
End ControllerFacts.

(** ** Connecting to the broker *)

Section RabbitFacts.

Lemma connect_done s s' :
  connect s = (Done tt, s') →
  rb_connection s' = true ∧ rb_channel s' = true ∧ rb_watched s' = true.
Proof.
  unfold connect, amqp. repeat (case_bool_decide; simpl; try done).
  by intros [= <-].
Qed.

Lemma initRabbitMQ_done s a s' :
  initRabbitMQ s = (Done a, s') → rb_connection s' = true ∧ rb_channel s' = true.
Proof.
  unfold initRabbitMQ.
  destruct (rb_channel s && rb_connection s) eqn:Hc.
  { intros [= _ <-]. by apply andb_true_iff in Hc as [-> ->]. }
  destruct (rb_connecting s); simpl; rewrite ?Hc; simpl.
  all: case_bool_decide; [done|].
  all: destruct (connect _) as [[[]|e] s1] eqn:Hcon; [|done].
  all: intros [= _ <-]; simpl; by apply connect_done in Hcon as (-> & -> & _).
Qed.

Lemma reconnectLoop_connected fuel : ∀ delay s s',
  reconnectLoop fuel delay s = Some s' →
  rb_connection s' = true ∧ rb_channel s' = true.
Proof.
  induction fuel as [|fuel IH]; intros delay s s'; [done|]. simpl.
  destruct (negb (rb_connection s) || negb (rb_channel s)) eqn:Hc.
  - destruct (initRabbitMQ s) as [[a|e] s1] eqn:Hi.
    + intros [= <-]. by apply initRabbitMQ_done in Hi.
    + apply IH.
  - intros [= <-]. apply orb_false_iff in Hc as [Hc1 Hc2].
    by destruct (rb_connection s), (rb_channel s).
Qed.

Lemma delays_closed k : ∀ i,
  delays k (Z.min (1000 * 2 ^ Z.of_nat i) maxDelay) =
    (λ j, Z.min (1000 * 2 ^ Z.of_nat j) maxDelay) <$> seq i k.
Proof.
  induction k as [|k IH]; intros i; [done|]. simpl. f_equal.
  rewrite <-IH. f_equal. rewrite Nat2Z.inj_succ, Z.pow_succ_r by lia.
  unfold maxDelay. lia.
Qed.

Lemma delays_1000 k :
  delays k 1000 = (λ j, Z.min (1000 * 2 ^ Z.of_nat j) 10000) <$> seq 0 k.
Proof. exact (delays_closed k 0). Qed.

Lemma reconnectLoop_S fuel delay s :
  reconnectLoop (S fuel) delay s =
    if negb (rb_connection s) || negb (rb_channel s) then
      match initRabbitMQ s with
      | (Done _, s) => Some (rb_logged "[RabbitMQ] Reconnected." s)
      | (Thrown _, s) =>
          reconnectLoop fuel (Z.min (delay * 2) maxDelay)
            (rb_sleep delay (rb_logged "[RabbitMQ] Reconnect failed:" s))
      end
    else Some s.
Proof. reflexivity. Qed.

Lemma initRabbitMQ_cannot_connect s fs :
  rb_url s ≠ "" → rb_connecting s = false →
  rb_connection s = false → rb_channel s = false → rb_faults s = true :: fs →
  initRabbitMQ s =
    (Thrown EAmqplib,
     mkRabbit (rb_url s) false false false (rb_watched s) fs (rb_slept s)
              (rb_log s ++ ["[RabbitMQ] connect error:"])).
Proof.
  intros Hu Hcg Hc Hch Hf. unfold initRabbitMQ, connect, amqp.
  rewrite Hc, Hch, Hcg. cbn [andb]. rewrite bool_decide_false by done.
  simpl. rewrite Hf. simpl. by rewrite ?Hc, ?Hch.
Qed.

Lemma initRabbitMQ_connects s rest :
  rb_url s ≠ "" → rb_connecting s = false →
  rb_connection s = false → rb_channel s = false →
  rb_faults s = false :: false :: false :: rest →
  initRabbitMQ s =
    (Done tt,
     mkRabbit (rb_url s) true true false true rest (rb_slept s)
              (rb_log s ++ ["[RabbitMQ] Connected. Prefetch=" +:+ pretty prefetch])).
Proof.
  intros Hu Hcg Hc Hch Hf. unfold initRabbitMQ, connect, amqp.
  rewrite Hc, Hch, Hcg. cbn [andb]. rewrite bool_decide_false by done.
  cbn -[pretty]. rewrite Hf. by cbn -[pretty].
Qed.

Lemma reconnectLoop_backoff k : ∀ delay s rest,
  rb_url s ≠ "" → rb_connecting s = false →
  rb_connection s = false → rb_channel s = false →
  rb_faults s = replicate k true ++ false :: false :: false :: rest →
  ∃ s', reconnectLoop (S k) delay s = Some s' ∧
    rb_slept s' = rb_slept s ++ delays k delay ∧
    rb_watched s' = true ∧ rb_faults s' = rest.
Proof.
  induction k as [|k IH]; intros delay s rest Hu Hcg Hc Hch Hf;
    rewrite reconnectLoop_S, Hc; cbn [negb orb].
  - rewrite (initRabbitMQ_connects s rest) by done.
    eexists. split; [done|]. simpl. by rewrite app_nil_r.
  - rewrite (initRabbitMQ_cannot_connect s _ Hu Hcg Hc Hch Hf).
    edestruct (IH (Z.min (delay * 2) maxDelay)) as (s' & Hs' & Hsl & Hw & Hfs);
      [..|exists s'; split; [exact Hs'|]]; try done.
    rewrite Hsl. cbn [rb_slept rb_sleep rb_logged delays].
    split; [by rewrite <-app_assoc|done].
Qed.

(** X21 (backoff).  When the first [k] attempts of [reconnect] cannot
    connect and the next one can, [reconnect] returns after [k + 1] turns
    of its loop with the connection and the channel set and the handlers
    registered; in between it has waited [min (1000 * 2^i) 10000] ms
    after the failure number [i] (from 0), so never less than 1 s nor
    more than 10 s, however many the failures. *)
Theorem reconnect_backoff k s rest :
  rb_url s ≠ "" → rb_connecting s = false →
  rb_faults s = replicate k true ++ false :: false :: false :: rest →
  ∃ s', reconnect (S k) s = Some s' ∧
    rb_slept s' = rb_slept s ++ ((λ i, Z.min (1000 * 2 ^ Z.of_nat i) 10000) <$> seq 0 k) ∧
    Forall (λ d, 1000 ≤ d ≤ 10000) (drop (length (rb_slept s)) (rb_slept s')) ∧
    rb_connection s' = true ∧ rb_channel s' = true ∧ rb_watched s' = true ∧
    rb_faults s' = rest.
Proof.
  intros Hu Hcg Hf. unfold reconnect.
  edestruct (reconnectLoop_backoff k 1000) as (s' & Hs' & Hsl & Hw & Hfs);
    [..|exists s'; split; [exact Hs'|]]; simpl; try done.
  simpl in Hsl. rewrite delays_1000 in Hsl.
  destruct (reconnectLoop_connected _ _ _ _ Hs') as [Hc Hch].
  split; [done|]. split; [|done].
  rewrite Hsl, drop_app_length. apply Forall_fmap, Forall_forall. intros i _. simpl.
  assert (0 < 2 ^ Z.of_nat i) by (apply Z.pow_pos_nonneg; lia). lia.
Qed.

(** X22 (a failed prefetch ends the reconnect).  When [prefetch] throws,
    [connection] and [channel] are already set: the loop of [reconnect]
    ends after one wait of 1 s without another attempt and without
    "Reconnected." in the log, and the connection is left without its
    "close" and "error" handlers, so that its loss will start no further
    reconnect. *)
Theorem reconnect_gives_up_after_prefetch_failure n s rest :
  rb_url s ≠ "" → rb_connecting s = false →
  rb_faults s = false :: false :: true :: rest →
  ∃ s', reconnect (S (S n)) s = Some s' ∧
    rb_connection s' = true ∧ rb_channel s' = true ∧ rb_watched s' = false ∧
    rb_slept s' = rb_slept s ++ [1000] ∧ rb_faults s' = rest ∧
    "[RabbitMQ] Reconnected." ∉ drop (length (rb_log s)) (rb_log s').
Proof.
  intros Hu Hcg Hf. unfold reconnect. cbn [reconnectLoop]. simpl.
  unfold initRabbitMQ, connect, amqp. simpl. rewrite Hcg. simpl.
  rewrite bool_decide_false by done. rewrite Hf. simpl.
  eexists. split; [done|]. simpl. repeat split; try done.
  rewrite <-app_assoc, drop_app_length. simpl.
  rewrite !not_elem_of_cons. repeat split; try done. apply not_elem_of_nil.
Qed.

(** X23 (initRabbitMQ is idempotent).  After an [initRabbitMQ] that
    returned, another [initRabbitMQ] returns at once and changes nothing:
    it calls amqplib no more, logs nothing and waits for nothing. *)
Theorem initRabbitMQ_twice s s' :
  initRabbitMQ s = (Done tt, s') → initRabbitMQ s' = (Done tt, s').
Proof.
  intros [Hc Hch]%initRabbitMQ_done. unfold initRabbitMQ. by rewrite Hc, Hch.
Qed.

End RabbitFacts.

(** ** Validation and paging *)

(** X19 (the statuses that can be asked for).  Of the five values of
    [OrderStatus] the validator of the status update lets through
    PENDING, CONFIRMED and CANCELLED only: no request can set FAILED or
    COMPLETED.  It also lets "SHIPPED" through, which is no value of
    [OrderStatus]. *)
Theorem updateOrderStatus_validator_and_enum :
  (∀ s, status_name s ∈ updateOrderStatusSchema_valid ↔
        s = PENDING ∨ s = CONFIRMED ∨ s = CANCELLED) ∧
  "SHIPPED" ∈ updateOrderStatusSchema_valid ∧
  (∀ s, status_name s ≠ "SHIPPED").
Proof.
  unfold updateOrderStatusSchema_valid. split; [|split].
  - intros s. rewrite !elem_of_cons, elem_of_nil.
    destruct s; simpl; split; intros H; repeat destruct H as [H|H];
      try discriminate H; try done; auto.
  - rewrite !elem_of_cons. auto.
  - by intros [].
Qed.

(** X20 (pages).  For a limit of at least 1 and [total] rows, the windows
    of [limit] rows from [skip] on of the pages 1 to [pages] cover the rows
    0 to [total - 1], each row on exactly one page, namely page
    [row / limit + 1]; the last page is not empty when there is a row, and
    the page after the last starts at or beyond [total].  There is no page
    exactly when there is no row. *)
Theorem pages_tile_the_rows total limit :
  1 ≤ limit → 0 ≤ total →
  (pagesOf total limit = 0 ↔ total = 0) ∧
  (0 < total → skipOf (pagesOf total limit) limit < total) ∧
  total ≤ skipOf (pagesOf total limit + 1) limit ∧
  (∀ i page, 0 ≤ i < total →
     (1 ≤ page ≤ pagesOf total limit ∧ skipOf page limit ≤ i < skipOf page limit + limit)
     ↔ page = i / limit + 1).
Proof.
  intros Hl Ht. unfold pagesOf, skipOf.
  pose proof (Z.div_mod (- total) limit ltac:(lia)) as Hdm.
  pose proof (Z.mod_pos_bound (- total) limit ltac:(lia)) as Hb.
  set (q := (- total) / limit) in *. set (r := (- total) mod limit) in *.
  assert (total = (- q) * limit - r) as Htot by lia.
  split; [split; nia|]. split; [nia|]. split; [nia|].
  intros i page Hi.
  pose proof (Z.div_mod i limit ltac:(lia)) as Hdi.
  pose proof (Z.mod_pos_bound i limit ltac:(lia)) as Hbi.
  set (qi := i / limit) in *. set (ri := i mod limit) in *.
  split.
  - intros [Hp Hw]. nia.
  - intros ->. nia.
Qed.

(** ** Edges of [createOrder] and [cancelOrder] *)

Section ServiceEdges.
Context {num : Type} `{!JsRuntime num}.
Implicit Types (w : World num).

Lemma lock_trace_nil src n (l : list (Cmd num)) :
  lock_trace src n [] l → l = [].
Proof. by inversion 1. Qed.

(** X25 (an order without lines).  [createOrder] itself does not ask for
    a line: with no items, a known user and no failure it returns a
    PENDING order whose total is zero, stores it, adds no order item,
    leaves every product as it was and sends nothing to Redis. *)
Theorem createOrder_empty_items conn data w :
  items data = [] → faults w = [] → userId data ∈ users (db w) →
  ∃ o, (run conn (createOrder data) w).1 = Ok o ∧
    o_totalPrice o = nzero ∧ o_status o = PENDING ∧
    orders (db (run conn (createOrder data) w).2) = <[o_id o := o]> (orders (db w)) ∧
    orderItems (db (run conn (createOrder data) w).2) = orderItems (db w) ∧
    (∀ pid, find_product (products (db (run conn (createOrder data) w).2)) pid =
              find_product (products (db w)) pid) ∧
    ∃ tr, trace (run conn (createOrder data) w).2 = trace w ++ tr ∧ redis_cmds tr = [].
Proof.
  intros Hits Hf Hu.
  destruct (createOrder_succeeds conn data w Hf Hu) as [o Ho].
  { intros it. rewrite Hits. by intros ?%elem_of_nil. }
  { intros pre it post. rewrite Hits. by destruct pre. }
  exists o. split; [done|].
  pose proof (createOrder_cases conn data w) as H. rewrite Ho in H.
  destruct H as (its & l & _ & _ & Hview & _ & Hord & Hoi & _ & _ & Hst & Htot & Hall & _).
  rewrite Hits in Hall. apply Forall2_nil_inv_r in Hall as ->.
  split; [done|]. split; [done|]. split; [done|]. split; [done|]. split.
  - intros pid. rewrite Hview, Hits. simpl.
    destruct (find_product (products (db w)) pid); simpl; [|done]. by rewrite reserve_0.
  - destruct (createOrder_trace conn data w) as [_ (tr & Htr & Hlt)].
    exists tr. split; [done|]. rewrite Hits in Hlt. by apply lock_trace_nil in Hlt.
Qed.

(** X26 (negative quantities).  [createOrder] itself does not check the
    sign of a quantity.  When no call fails ([faults w = []]: the store
    accepts every statement, which needs the quantity, the new stock and
    the new reserved stock within the range of their [int] columns, and
    the prices within that of theirs), a single line that asks for
    [q < 0] of a product whose stock is not negative succeeds, raises the
    stock by [-q] and lowers the reserved stock by as much. *)
Theorem createOrder_negative_quantity_raises_stock conn data w pid q p :
  items data = [mkItemReq pid q] → q < 0 →
  faults w = [] → userId data ∈ users (db w) →
  redis w !! lockKey pid = None →
  find_product (products (db w)) pid = Some p → 0 ≤ p_stock p →
  int4 q → int4 (p_stock p - q) → int4 (p_reservedStock p + q) →
  ∃ o p', (run conn (createOrder data) w).1 = Ok o ∧
    find_product (products (db (run conn (createOrder data) w).2)) pid = Some p' ∧
    p_stock p' = p_stock p - q ∧ p_stock p < p_stock p' ∧
    p_reservedStock p' = p_reservedStock p + q ∧
    int4 (p_stock p') ∧ int4 (p_reservedStock p').
Proof.
  intros Hits Hq Hf Hu Hlock Hp Hnn Hq4 Hs4 Hr4.
  destruct (createOrder_succeeds conn data w Hf Hu) as [o Ho].
  { intros it. rewrite Hits. by intros ->%list_elem_of_singleton. }
  { intros pre it post. rewrite Hits. destruct pre as [|? [|]]; try done.
    intros [= <- <-]. exists p. simpl. split; [done|lia]. }
  destruct (createOrder_conserves conn data w pid p Hp) as (p' & Hp' & _ & _ & Hok).
  destruct (Hok o Ho) as [Hs Hr]. rewrite Hits in Hs, Hr. simpl in Hs, Hr.
  rewrite decide_True in Hs, Hr by done.
  exists o, p'. split; [done|]. split; [done|].
  assert (p_stock p' = p_stock p - q) as -> by lia.
  assert (p_reservedStock p' = p_reservedStock p + q) as -> by lia.
  unfold int4 in *. lia.
Qed.

(** X24 (cancellation of an unknown order).  When nothing fails,
    [cancelOrder] on an id that no order has returns null and changes
    neither rows nor Redis; what it sends is: connect, start a
    transaction, look the order up, release.  The transaction it started
    is neither committed nor rolled back before the query runner is
    released. *)
Theorem cancelOrder_unknown_order conn orderId w :
  find_order (orders (db w)) orderId = None → faults w = [] →
  (run conn (cancelOrder orderId) w).1 = Ok None ∧
  db (run conn (cancelOrder orderId) w).2 = db w ∧
  redis (run conn (cancelOrder orderId) w).2 = redis w ∧
  trace (run conn (cancelOrder orderId) w).2 =
    trace w ++ [QrConnect; QrStartTransaction; QrFindOrderWithItems orderId; QrRelease].
Proof.
  intros Ho Hf.
  enough (wp conn (cancelOrder orderId) (λ r w',
            r = Ok None ∧ db w' = db w ∧ redis w' = redis w ∧
            trace w' = trace w ++ [QrConnect; QrStartTransaction;
                                   QrFindOrderWithItems orderId; QrRelease]) w) by done.
  unfold cancelOrder, cancelOrderBody.
  apply wp_bind. wp_call_tac; [wp_nofault Hf|]. simpl.
  apply wp_bind. wp_call_tac; [wp_nofault Hf|]. simpl.
  apply wp_try_finally, wp_try_catch, wp_bind. wp_call_tac; [wp_nofault Hf|]. simpl.
  unfold tx_view. simpl. rewrite lookup_insert_eq, overlay_empty, Ho. simpl.
  apply wp_ret. wp_call_tac. simpl. by rewrite <-!app_assoc.
Qed.
End ServiceEdges.

(** ** The cases at work *)

Lemma updateOrderStatus_unknown_order_witness :
  find_order (orders (db Sample.world)) "nope" = None ∧
  db (srun 0 (updateOrderStatus "nope" CONFIRMED) Sample.world).2 = db Sample.world ∧
  (srun 0 (updateOrderStatus "nope" CONFIRMED) Sample.world).1 = Ok None.
Proof.
  split; [reflexivity|].
  destruct (updateOrderStatus_unknown_order 0%nat "nope" CONFIRMED Sample.world eq_refl)
    as (Hdb & _ & Hr).
  split; [exact Hdb|exact (Hr eq_refl)].
Defined.

Lemma updateOrderStatus_sets_status_witness :
  find_order (orders (db Sample.orphan_world)) "o1"
    = Some (mkOrder "o1" "u1" PENDING 600 "ORD-1-abc") ∧
  faults Sample.orphan_world = [] ∧
  (srun 0 (updateOrderStatus "o1" COMPLETED) Sample.orphan_world).1
    = Ok (Some (mkOrder "o1" "u1" COMPLETED 600 "ORD-1-abc")) ∧
  products (db (srun 0 (updateOrderStatus "o1" COMPLETED) Sample.orphan_world).2)
    = products (db Sample.orphan_world).
Proof.
  split; [reflexivity|]. split; [reflexivity|].
  destruct (updateOrderStatus_sets_status 0%nat "o1" COMPLETED Sample.orphan_world _
              eq_refl eq_refl) as (Hr & _ & _ & Hp & _).
  split; [exact Hr|exact Hp].
Defined.

Lemma updateOrderStatus_not_atomic_witness :
  faults (Cases.third_fails Sample.orphan_world) = [false; false; true] ∧
  (srun 0 (updateOrderStatus "o1" CONFIRMED) (Cases.third_fails Sample.orphan_world)).1
    = Err EDriver ∧
  orders (db (srun 0 (updateOrderStatus "o1" CONFIRMED)
                (Cases.third_fails Sample.orphan_world)).2) !! "o1"
    = Some (mkOrder "o1" "u1" CONFIRMED 600 "ORD-1-abc") ∧
  eventLogs (db (srun 0 (updateOrderStatus "o1" CONFIRMED)
                   (Cases.third_fails Sample.orphan_world)).2) = ∅.
Proof.
  split; [reflexivity|].
  destruct (updateOrderStatus_not_atomic 0%nat "o1" CONFIRMED
              (Cases.third_fails Sample.orphan_world)
              (mkOrder "o1" "u1" PENDING 600 "ORD-1-abc") [] eq_refl eq_refl)
    as (Hr & Ho & He).
  split; [exact Hr|]. split; [|exact He].
  rewrite Ho. apply lookup_insert_eq.
Defined.

Lemma status_cancelled_blocks_cancelOrder_witness :
  find_order (orders (db Sample.orphan_world)) "o1"
    = Some (mkOrder "o1" "u1" PENDING 600 "ORD-1-abc") ∧
  (run 1 (cancelOrder "o1")
     (srun 0 (updateOrderStatus "o1" CANCELLED) Sample.orphan_world).2).1
    = Err EAlreadyCancelled ∧
  products (db (run 1 (cancelOrder "o1")
                  (srun 0 (updateOrderStatus "o1" CANCELLED) Sample.orphan_world).2).2)
    = products (db Sample.orphan_world).
Proof.
  split; [reflexivity|].
  exact (status_cancelled_blocks_cancelOrder 0%nat 1%nat "o1" Sample.orphan_world _
           eq_refl eq_refl).
Defined.

Lemma reopened_order_is_restored_twice_witness :
  find_product (products (db Sample.orphan_world)) "p1"
    = Some (mkProduct "p1" "Widget" 250 8 2 true) ∧
  find_product
    (products (db (run 0 (cancelOrder "o1")
       (srun 0 (updateOrderStatus "o1" PENDING)
          (run 0 (cancelOrder "o1") Sample.orphan_world).2).2).2)) "p1"
    = Some (mkProduct "p1" "Widget" 250 12 (-2) true).
Proof.
  split; [reflexivity|].
  destruct (reopened_order_is_restored_twice 0%nat "o1" PENDING Sample.orphan_world
              (mkOrder "o1" "u1" PENDING 600 "ORD-1-abc")
              eq_refl ltac:(simpl; discriminate) ltac:(discriminate) eq_refl)
    as (_ & _ & H).
  rewrite (H "p1"). vm_compute. reflexivity.
Defined.

Lemma created_product_is_served_from_cache_witness :
  faults Sample.world = [] ∧
  (srun 0 (createProduct Cases.screw) Sample.world).1
    = Ok (mkProduct "uuid-0" "Screw" 5 100 0 true) ∧
  redis (srun 0 (createProduct Cases.screw) Sample.world).2 !! "product:uuid-0"
    = Some (mkRedisEntry "{uuid-0}" (Some 3600)) ∧
  read_outcome (srun 0 (createProduct Cases.screw) Sample.world).2
    (run 1 (getProductById "uuid-0") (srun 0 (createProduct Cases.screw) Sample.world).2).2
    0 0.
Proof.
  split; [reflexivity|].
  destruct (@created_product_is_served_from_cache Z Sample.runtime 0%nat 1%nat Cases.screw Sample.world
              eq_refl ltac:(vm_compute; intros H; discriminate H)) as (Hr & _ & Hre & _ & Hread).
  split; [exact Hr|]. split; [|exact Hread].
  rewrite Hre. apply lookup_insert_eq.
Defined.

Lemma createProduct_not_atomic_witness :
  faults (Cases.second_fails Sample.world) = [false; true] ∧
  (srun 0 (createProduct Cases.screw) (Cases.second_fails Sample.world)).1 = Err EDriver ∧
  products (db (srun 0 (createProduct Cases.screw) (Cases.second_fails Sample.world)).2)
    !! "uuid-0" = Some (mkProduct "uuid-0" "Screw" 5 100 0 true) ∧
  redis (srun 0 (createProduct Cases.screw) (Cases.second_fails Sample.world)).2 = ∅.
Proof.
  split; [reflexivity|].
  destruct (createProduct_not_atomic 0%nat Cases.screw (Cases.second_fails Sample.world) []
              eq_refl) as (Hr & Hp & Hre).
  split; [exact Hr|]. split; [|exact Hre].
  rewrite Hp. apply lookup_insert_eq.
Defined.

Lemma updateProduct_unknown_product_witness :
  find_product (products (db Sample.world)) "ghost" = None ∧
  db (srun 0 (updateProduct "ghost" Cases.new_price) Sample.world).2 = db Sample.world ∧
  (srun 0 (updateProduct "ghost" Cases.new_price) Sample.world).1 = Ok None.
Proof.
  split; [reflexivity|].
  destruct (updateProduct_unknown_product 0%nat "ghost" Cases.new_price Sample.world eq_refl)
    as (Hdb & _ & Hr).
  split; [exact Hdb|exact (Hr eq_refl)].
Defined.

Lemma updateProduct_refreshes_cache_witness :
  find_product (products (db Sample.world)) "p1" = Some Sample.widget ∧
  pp_id Cases.new_price = None ∧
  (srun 0 (updateProduct "p1" Cases.new_price) Sample.world).1
    = Ok (Some (mkProduct "p1" "Widget" 300 10 0 true)) ∧
  redis (srun 0 (updateProduct "p1" Cases.new_price) Sample.world).2 !! "product:p1"
    = Some (mkRedisEntry "{p1}" (Some 3600)) ∧
  read_outcome (srun 0 (updateProduct "p1" Cases.new_price) Sample.world).2
    (run 1 (getProductById "p1")
       (srun 0 (updateProduct "p1" Cases.new_price) Sample.world).2).2 0 0.
Proof.
  split; [reflexivity|]. split; [reflexivity|].
  destruct (@updateProduct_refreshes_cache Z Sample.runtime 0%nat 1%nat "p1" Cases.new_price Sample.world
              Sample.widget eq_refl eq_refl eq_refl ltac:(vm_compute; intros H; discriminate H))
    as (Hr & _ & _ & Hre & _ & Hread).
  split; [exact Hr|]. split; [|exact Hread].
  rewrite Hre. apply lookup_insert_eq.
Defined.

Lemma updateProduct_redis_failure_leaves_stale_cache_witness :
  redis (Cases.third_fails Cases.cached_world) !! cacheKey "p1"
    = Some (mkRedisEntry "{p1}" (Some 3600)) ∧
  faults (Cases.third_fails Cases.cached_world) = [false; false; true] ∧
  (srun 0 (updateProduct "p1" Cases.new_price) (Cases.third_fails Cases.cached_world)).1
    = Err EDriver ∧
  find_product
    (products (db (srun 0 (updateProduct "p1" Cases.new_price)
                     (Cases.third_fails Cases.cached_world)).2)) "p1"
    = Some (mkProduct "p1" "Widget" 300 10 0 true) ∧
  (run 1 (getProductById "p1")
     (srun 0 (updateProduct "p1" Cases.new_price)
        (Cases.third_fails Cases.cached_world)).2).1
    = Ok (Some (mkProduct "p1" "Widget" 250 10 0 true)).
Proof.
  split; [reflexivity|]. split; [reflexivity|].
  destruct (updateProduct_redis_failure_leaves_stale_cache 0%nat 1%nat "p1" Cases.new_price
              (Cases.third_fails Cases.cached_world) Sample.widget
              (mkRedisEntry "{p1}" (Some 3600))
              eq_refl eq_refl ltac:(simpl; discriminate) eq_refl eq_refl)
    as (Hr & Hp & _ & Hget).
  split; [exact Hr|]. split; [exact Hp|exact Hget].
Defined.

Lemma deleteProduct_unknown_product_witness :
  find_product (products (db Sample.world)) "ghost" = None ∧
  db (srun 0 (deleteProduct "ghost") Sample.world).2 = db Sample.world ∧
  (srun 0 (deleteProduct "ghost") Sample.world).1 = Ok false.
Proof.
  split; [reflexivity|].
  destruct (deleteProduct_unknown_product 0%nat "ghost" Sample.world eq_refl)
    as (Hdb & _ & Hr).
  split; [exact Hdb|exact (Hr eq_refl)].
Defined.

Lemma deleted_product_is_gone_witness :
  find_product (products (db Cases.cached_world)) "p1" = Some Sample.widget ∧
  faults Cases.cached_world = [] ∧
  (srun 0 (deleteProduct "p1") Cases.cached_world).1 = Ok true ∧
  find_product (products (db (srun 0 (deleteProduct "p1") Cases.cached_world).2)) "p2"
    = Some Sample.gadget ∧
  redis (srun 0 (deleteProduct "p1") Cases.cached_world).2 = ∅ ∧
  (run 1 (getProductById "p1") (srun 0 (deleteProduct "p1") Cases.cached_world).2).1
    = Ok None.
Proof.
  split; [reflexivity|]. split; [reflexivity|].
  destruct (deleted_product_is_gone 0%nat 1%nat "p1" Cases.cached_world Sample.widget
              eq_refl eq_refl) as (Hr & Hp & Hre & Hget & _).
  split; [exact Hr|]. split; [|split; [|exact Hget]].
  - rewrite (Hp "p2"). reflexivity.
  - rewrite Hre. vm_compute. reflexivity.
Defined.

Lemma deleteProduct_redis_failure_leaves_stale_cache_witness :
  redis (Cases.second_fails Cases.cached_world) !! cacheKey "p1"
    = Some (mkRedisEntry "{p1}" (Some 3600)) ∧
  faults (Cases.second_fails Cases.cached_world) = [false; true] ∧
  (srun 0 (deleteProduct "p1") (Cases.second_fails Cases.cached_world)).1 = Err EDriver ∧
  find_product
    (products (db (srun 0 (deleteProduct "p1")
                     (Cases.second_fails Cases.cached_world)).2)) "p1" = None ∧
  (run 1 (getProductById "p1")
     (srun 0 (deleteProduct "p1") (Cases.second_fails Cases.cached_world)).2).1
    = Ok (Some Sample.widget).
Proof.
  split; [reflexivity|]. split; [reflexivity|].
  exact (deleteProduct_redis_failure_leaves_stale_cache 0%nat 1%nat "p1"
           (Cases.second_fails Cases.cached_world) Sample.widget
           (mkRedisEntry "{p1}" (Some 3600))
           eq_refl eq_refl ltac:(simpl; discriminate) eq_refl).
Defined.

Lemma clearCache_clears_product_keys_only_witness :
  faults Cases.cached_locked_world = [] ∧
  (srun 0 clearCache Cases.cached_locked_world).1 = Ok tt ∧
  redis (srun 0 clearCache Cases.cached_locked_world).2 !! cacheKey "p1" = None ∧
  redis (srun 0 clearCache Cases.cached_locked_world).2 !! lockKey "p1"
    = Some (mkRedisEntry "held" (Some 30)).
Proof.
  split; [reflexivity|].
  destruct (clearCache_clears_product_keys_only 0%nat Cases.cached_locked_world eq_refl)
    as (Hr & _ & Hk & Hl).
  split; [exact Hr|]. split.
  - rewrite (Hk (cacheKey "p1")). reflexivity.
  - rewrite (Hl "p1"). reflexivity.
Defined.

Lemma clearCache_never_throws_witness :
  faults (Cases.second_fails Cases.cached_world) = [false; true] ∧
  (srun 0 clearCache (Cases.second_fails Cases.cached_world)).1 = Ok tt ∧
  redis (srun 0 clearCache (Cases.second_fails Cases.cached_world)).2
    = redis (Cases.second_fails Cases.cached_world).
Proof.
  split; [reflexivity|].
  destruct (clearCache_never_throws 0%nat (Cases.second_fails Cases.cached_world))
    as (Hr & _ & Hre).
  split; [exact Hr|exact (Hre (or_intror eq_refl))].
Defined.

Lemma createOrder_error_statuses_witness :
  includes "p1" " " = false ∧
  createOrderErrorStatus (message (ELockNotAcquired "p1")) = 409 ∧
  includes "item not found" "not found" = true ∧
  createOrderErrorStatus (message (ELockNotAcquired "item not found")) = 400.
Proof.
  destruct createOrder_error_statuses as (_ & _ & _ & Hconflict & Hbad).
  split; [reflexivity|]. split; [exact (Hconflict "p1" eq_refl)|].
  split; [reflexivity|exact (Hbad "item not found" eq_refl)].
Defined.

Lemma controller_createOrder_statuses_witness :
  faults Sample.locked_world = [] ∧
  is_Some (redis Sample.locked_world !! lockKey "p1") ∧
  (run 0 (controller_createOrder (inr (Sample.order_of "p1" 1))) Sample.locked_world).1
    = Ok (mkResponse 409 false None
            (Some "Cannot acquire lock for product p1. Please try again.") [] None) ∧
  db (run 0 (controller_createOrder (inr (Sample.order_of "p1" 1))) Sample.locked_world).2
    = db Sample.locked_world.
Proof.
  assert (is_Some (redis Sample.locked_world !! lockKey "p1")) as Hl
    by (eexists; vm_compute; reflexivity).
  split; [reflexivity|]. split; [exact Hl|].
  destruct (controller_createOrder_statuses 0%nat (Sample.order_of "p1" 1)
              Sample.locked_world eq_refl) as (_ & _ & _ & H).
  refine (H (mkItemReq "p1" 1) [] _ eq_refl Hl eq_refl).
  apply (bool_decide_unpack _). vm_compute. exact I.
Defined.

Lemma controller_cancelOrder_statuses_witness :
  faults Sample.orphan_world = [] ∧
  (run 0 (controller_cancelOrder (λ s, s) (Some "o1")) Sample.orphan_world).1
    = Ok (mkResponse 200 true (Some (mkOrder "o1" "u1" CANCELLED 600 "ORD-1-abc")) None []
            (Some "Order cancelled successfully")) ∧
  (run 0 (controller_cancelOrder (λ s, s) (Some "o1"))
     (run 0 (controller_cancelOrder (λ s, s) (Some "o1")) Sample.orphan_world).2).1
    = Ok (mkResponse 400 false None (Some "Order already cancelled") [] None).
Proof.
  split; [reflexivity|].
  destruct (controller_cancelOrder_statuses 0%nat (λ s, s) Sample.orphan_world eq_refl)
    as (_ & _ & H).
  destruct (H "o1" (mkOrder "o1" "u1" PENDING 600 "ORD-1-abc")
              ltac:(discriminate) ltac:(discriminate) eq_refl ltac:(simpl; discriminate))
    as (H200 & H400 & _).
  split; [exact H200|exact H400].
Defined.

Lemma pages_tile_the_rows_witness :
  1 ≤ 10 ∧ 0 ≤ 25 ∧ pagesOf 25 10 = 3 ∧
  skipOf (pagesOf 25 10) 10 < 25 ∧ 25 ≤ skipOf (pagesOf 25 10 + 1) 10.
Proof.
  split; [lia|]. split; [lia|]. split; [reflexivity|].
  destruct (pages_tile_the_rows 25 10 ltac:(lia) ltac:(lia)) as (_ & Hlast & Hend & _).
  split; [apply Hlast; lia|exact Hend].
Defined.

Lemma reconnect_backoff_witness :
  rb_faults Cases.broker = replicate 2 true ++ [false; false; false] ∧
  ∃ s', reconnect 3 Cases.broker = Some s' ∧
        rb_slept s' = [1000; 2000] ∧ rb_channel s' = true ∧ rb_watched s' = true.
Proof.
  split; [reflexivity|].
  destruct (reconnect_backoff 2 Cases.broker [] ltac:(discriminate) eq_refl eq_refl)
    as (s' & Hs' & Hsl & _ & _ & Hch & Hw & _).
  exists s'. split; [exact Hs'|]. split; [exact Hsl|]. split; [exact Hch|exact Hw].
Defined.

Lemma reconnect_gives_up_after_prefetch_failure_witness :
  rb_faults Cases.picky_broker = [false; false; true] ∧
  ∃ s', reconnect 2 Cases.picky_broker = Some s' ∧
        rb_channel s' = true ∧ rb_watched s' = false ∧ rb_slept s' = [1000].
Proof.
  split; [reflexivity|].
  destruct (reconnect_gives_up_after_prefetch_failure 0 Cases.picky_broker []
              ltac:(discriminate) eq_refl eq_refl)
    as (s' & Hs' & _ & Hch & Hw & Hsl & _).
  exists s'. split; [exact Hs'|]. split; [exact Hch|]. split; [exact Hw|exact Hsl].
Defined.

Lemma initRabbitMQ_twice_witness :
  initRabbitMQ Cases.down_broker = (Done tt, (initRabbitMQ Cases.down_broker).2) ∧
  initRabbitMQ (initRabbitMQ Cases.down_broker).2
    = (Done tt, (initRabbitMQ Cases.down_broker).2).
Proof.
  assert (initRabbitMQ Cases.down_broker = (Done tt, (initRabbitMQ Cases.down_broker).2))
    as Hinit by (vm_compute; reflexivity).
  split; [exact Hinit|].
  exact (initRabbitMQ_twice Cases.down_broker (initRabbitMQ Cases.down_broker).2 Hinit).
Defined.

Lemma cancelOrder_unknown_order_witness :
  find_order (orders (db Sample.world)) "nope" = None ∧
  faults Sample.world = [] ∧
  (run 0 (cancelOrder "nope") Sample.world).1 = Ok None ∧
  trace (run 0 (cancelOrder "nope") Sample.world).2
    = [QrConnect; QrStartTransaction; QrFindOrderWithItems "nope"; QrRelease].
Proof.
  split; [reflexivity|]. split; [reflexivity|].
  destruct (cancelOrder_unknown_order 0%nat "nope" Sample.world eq_refl eq_refl)
    as (Hr & _ & _ & Ht).
  split; [exact Hr|exact Ht].
Defined.

Lemma createOrder_empty_items_witness :
  items (mkCreateOrderData "u1" []) = [] ∧
  "u1" ∈ users (db Sample.world) ∧
  ∃ o, (run 0 (createOrder (mkCreateOrderData "u1" [])) Sample.world).1 = Ok o ∧
       o_totalPrice o = 0 ∧ o_status o = PENDING.
Proof.
  assert ("u1" ∈ users (db Sample.world)) as Hu
    by (apply (bool_decide_unpack _); vm_compute; exact I).
  split; [reflexivity|]. split; [exact Hu|].
  destruct (createOrder_empty_items 0%nat (mkCreateOrderData "u1" []) Sample.world
              eq_refl eq_refl Hu) as (o & Ho & Ht & Hs & _).
  exists o. split; [exact Ho|]. split; [exact Ht|exact Hs].
Defined.

Lemma createOrder_negative_quantity_raises_stock_witness :
  items (Sample.order_of "p1" (-3)) = [mkItemReq "p1" (-3)] ∧
  find_product (products (db Sample.world)) "p1" = Some Sample.widget ∧
  ∃ o p', (run 0 (createOrder (Sample.order_of "p1" (-3))) Sample.world).1 = Ok o ∧
    find_product
      (products (db (run 0 (createOrder (Sample.order_of "p1" (-3))) Sample.world).2)) "p1"
      = Some p' ∧
    p_stock p' = 13 ∧ p_reservedStock p' = -3.
Proof.
  split; [reflexivity|]. split; [reflexivity|].
  assert (int4 (-3)) as Hq4 by (unfold int4; lia).
  assert (int4 (p_stock Sample.widget - -3)) as Hs4 by (unfold int4; simpl; lia).
  assert (int4 (p_reservedStock Sample.widget + -3)) as Hr4 by (unfold int4; simpl; lia).
  destruct (createOrder_negative_quantity_raises_stock 0%nat (Sample.order_of "p1" (-3))
              Sample.world "p1" (-3) Sample.widget eq_refl ltac:(lia) eq_refl
              ltac:(apply (bool_decide_unpack _); vm_compute; exact I)
              eq_refl eq_refl ltac:(simpl; lia) Hq4 Hs4 Hr4)
    as (o & p' & Ho & Hp' & Hs & _ & Hr & _).
  exists o, p'. split; [exact Ho|]. split; [exact Hp'|]. split; [exact Hs|exact Hr].
Defined.
